(** * gose / search_crawler_service: the crawl scheduling and fetch pipeline

    A shallow embedding of the crawler's Go sources
    (search_crawler_service/*.go and the queue, page and worker files)
    together with the relational schema of deploy/db/init.sql.

    Conventions.
    - A Go [string] is a sequence of bytes: it is modelled as [string],
      whose characters ([ascii]) are the 256 byte values.
    - Go [int], [int64] and [uint64] values are modelled in [Z]; where the
      source relies on a fixed width the wrap-around is written out.
    - A table is the list of its rows in insertion order, a [bigserial]
      column draws from a counter stored beside the table.
    - Functions of Go's standard library whose tables are too large to be
      written here (Unicode case mapping, HTML entities, URL parsing, SHA-256)
      are the fields of the class [GoLib]; everything is proved for every
      instance of it. *)

From Stdlib Require Import ZArith List Bool String Ascii Lia Arith.
Import ListNotations.

Local Open Scope string_scope.

(** ** net/url.URL, with the fields of the Go struct *)

Record URL := mkURL {
  Scheme : string;
  Opaque : string;
  User : option (string * option string);
  Host : string;
  Path : string;
  RawPath : string;
  OmitHost : bool;
  ForceQuery : bool;
  RawQuery : string;
  Fragment : string;
  RawFragment : string
}.

Definition set_Fragment (u : URL) (f : string) : URL :=
  mkURL (Scheme u) (Opaque u) (User u) (Host u) (Path u) (RawPath u)
        (OmitHost u) (ForceQuery u) (RawQuery u) f (RawFragment u).

Definition set_Host (u : URL) (h : string) : URL :=
  mkURL (Scheme u) (Opaque u) (User u) h (Path u) (RawPath u)
        (OmitHost u) (ForceQuery u) (RawQuery u) (Fragment u) (RawFragment u).

(** [u.IsAbs()] *)
Definition IsAbs (u : URL) : bool := negb (Scheme u =? "").

(** ** The part of Go's standard library taken as given *)

Class GoLib := {
  (** [strings.Map(unicode.ToLower, s)]: the path [strings.ToLower] takes
      for a string that holds a byte >= 0x80 *)
  unicode_ToLower : string -> string;
  (** [html.UnescapeString] on a string that holds an ampersand *)
  html_unescape_entities : string -> string;
  (** [sha256.Sum256]: the 32 bytes of the digest *)
  sha256_Sum256 : string -> string;
  (** [url.Parse]; [None] is a parse error *)
  url_Parse : string -> option URL;
  (** [base.ResolveReference(ref)] *)
  url_ResolveReference : URL -> URL -> URL;
  (** [u.String()] *)
  url_String : URL -> string;
  (** [net.SplitHostPort]; [None] is an error *)
  net_SplitHostPort : string -> option (string * string)
}.

(** ** Package strings *)

Module strings.

(** [c >= utf8.RuneSelf] *)
Definition RuneSelf (c : ascii) : bool := (128 <=? nat_of_ascii c)%nat.

Definition isUpper (c : ascii) : bool :=
  ((65 <=? nat_of_ascii c) && (nat_of_ascii c <=? 90))%nat.

(** [c += 'a' - 'A'] for an upper-case ASCII letter *)
Definition lowerByte (c : ascii) : ascii :=
  if isUpper c then ascii_of_nat (nat_of_ascii c + 32) else c.

Fixpoint isASCII (s : string) : bool :=
  match s with
  | "" => true
  | String c s' => negb (RuneSelf c) && isASCII s'
  end.

Fixpoint mapBytes (f : ascii -> ascii) (s : string) : string :=
  match s with
  | "" => ""
  | String c s' => String (f c) (mapBytes f s')
  end.

(** [strings.ToLower]: byte-wise on an ASCII string, by Unicode's table
    otherwise. *)
Definition ToLower `{GoLib} (s : string) : string :=
  if isASCII s then mapBytes lowerByte s else unicode_ToLower s.

Fixpoint drop (n : nat) (s : string) : string :=
  match n, s with
  | O, _ => s
  | S n', String _ s' => drop n' s'
  | S _, "" => ""
  end.

Fixpoint take (n : nat) (s : string) : string :=
  match n, s with
  | S n', String c s' => String c (take n' s')
  | _, _ => ""
  end.

Fixpoint rev (s : string) : string :=
  match s with
  | "" => ""
  | String c s' => rev s' ++ String c ""
  end.

(** [strings.HasPrefix(s, prefix)] *)
Definition HasPrefix (s p : string) : bool := String.prefix p s.

(** [strings.HasSuffix(s, suffix)]:
    [len(s) >= len(suffix) && s[len(s)-len(suffix):] == suffix] *)
Definition HasSuffix (s suf : string) : bool :=
  (String.length suf <=? String.length s)%nat
  && (drop (String.length s - String.length suf) s =? suf).

(** [strings.TrimPrefix] and [strings.TrimSuffix] *)
Definition TrimPrefix (s p : string) : string :=
  if HasPrefix s p then drop (String.length p) s else s.

Definition TrimSuffix (s suf : string) : string :=
  if HasSuffix s suf then take (String.length s - String.length suf) s else s.

(** [strings.IndexByte(s, c) >= 0] *)
Fixpoint hasByte (c : ascii) (s : string) : bool :=
  match s with
  | "" => false
  | String a s' => (a =? c)%char || hasByte c s'
  end.

(** [strings.Contains(s, sub)] *)
Fixpoint Contains (s sub : string) : bool :=
  String.prefix sub s ||
  match s with
  | "" => false
  | String _ s' => Contains s' sub
  end.

(** The ASCII members of [unicode.IsSpace]: tab, LF, VT, FF, CR, space. *)
Definition asciiSpace (c : ascii) : bool :=
  let n := nat_of_ascii c in
  ((9 <=? n) && (n <=? 13) || (n =? 32))%nat.

(** The other members of [unicode.IsSpace], by their UTF-8 encoding:
    U+0085, U+00A0 (two bytes) and U+1680, U+2000..U+200A, U+2028, U+2029,
    U+202F, U+205F, U+3000 (three bytes). *)
Definition space2 (a b : ascii) : bool :=
  ((nat_of_ascii a =? 194) && ((nat_of_ascii b =? 133) || (nat_of_ascii b =? 160)))%nat.

Definition space3 (a b c : ascii) : bool :=
  let x := nat_of_ascii a in
  let y := nat_of_ascii b in
  let z := nat_of_ascii c in
  ((x =? 225) && (y =? 154) && (z =? 128)
   || (x =? 226) && (y =? 128)
      && ((128 <=? z) && (z <=? 138) || (z =? 168) || (z =? 169) || (z =? 175))
   || (x =? 226) && (y =? 129) && (z =? 159)
   || (x =? 227) && (y =? 128) && (z =? 128))%nat.

(** [strings.TrimLeftFunc(s, unicode.IsSpace)] *)
Fixpoint TrimLeftSpace (s : string) : string :=
  match s with
  | "" => ""
  | String a s1 =>
      if asciiSpace a then TrimLeftSpace s1
      else match s1 with
           | "" => s
           | String b s2 =>
               if space2 a b then TrimLeftSpace s2
               else match s2 with
                    | "" => s
                    | String c s3 => if space3 a b c then TrimLeftSpace s3 else s
                    end
           end
  end.

(** The same from the right end. [utf8.DecodeLastRuneInString] walks back to
    the last byte that starts a rune, so the last rune is a space exactly when
    the string ends with the encoding of one: the bytes are read in reverse. *)
Fixpoint TrimLeftSpaceRev (s : string) : string :=
  match s with
  | "" => ""
  | String a s1 =>
      if asciiSpace a then TrimLeftSpaceRev s1
      else match s1 with
           | "" => s
           | String b s2 =>
               if space2 b a then TrimLeftSpaceRev s2
               else match s2 with
                    | "" => s
                    | String c s3 => if space3 c b a then TrimLeftSpaceRev s3 else s
                    end
           end
  end.

Definition TrimRightSpace (s : string) : string := rev (TrimLeftSpaceRev (rev s)).

(** [strings.TrimSpace] *)
Definition TrimSpace (s : string) : string := TrimRightSpace (TrimLeftSpace s).

End strings.

(** ** Package html *)

Module html.

(** [html.UnescapeString]: a string without an ampersand is returned as it
    is ([strings.IndexByte(s, '&') < 0]). *)
Definition UnescapeString `{GoLib} (s : string) : string :=
  if strings.hasByte "&"%char s then html_unescape_entities s else s.

End html.

(** ** Package regexp, for the patterns of parser.go

    A pattern is a sequence of items, matched by backtracking with Go's
    preference order (leftmost match; a greedy repetition tries the longest
    run first, a lazy one the shortest).  Matching is on bytes.  Go matches
    runes, which gives the same matches for these patterns: a repetition is
    always followed by an ASCII byte, and the classes used hold either every
    non-ASCII rune or none.  The patterns match no empty string. *)

Module regexp.

Inductive item :=
| Lit (l : string)              (* literal text under (?i) *)
| One (c : ascii -> bool)       (* [class] *)
| Star (c : ascii -> bool)      (* [class]* *)
| Plus (c : ascii -> bool)      (* [class]+ *)
| LazyStar (c : ascii -> bool)  (* [class]*? *)
| Group (i : item).             (* ( ... ) *)

(** Text matched, captured groups, rest of the input. *)
Definition result := (string * list string * string)%type.

(** One literal rune of a (?i) pattern against the head of the input:
    [unicode.SimpleFold] pairs each ASCII letter with its other case, and
    besides s with U+017F (bytes C5 BF) and k with U+212A (E2 84 AA). *)
Definition foldRune (c : ascii) (s : string) : option (string * string) :=
  match s with
  | "" => None
  | String a s1 =>
      if (strings.lowerByte a =? strings.lowerByte c)%char then Some (String a "", s1)
      else if (strings.lowerByte c =? "s")%char then
        match s1 with
        | String b s2 =>
            if ((a =? "197") && (b =? "191"))%char
            then Some (String a (String b ""), s2) else None
        | "" => None
        end
      else if (strings.lowerByte c =? "k")%char then
        match s1 with
        | String b (String d s3) =>
            if ((a =? "226") && (b =? "132") && (d =? "170"))%char
            then Some (String a (String b (String d "")), s3) else None
        | _ => None
        end
      else None
  end.

Section Matcher.

Variable k : string -> option result.

Definition done (m : string) (s : string) : option (string * result) :=
  match k s with
  | Some r => Some (m, r)
  | None => None
  end.

Definition cons_char (a : ascii) (o : option (string * result)) : option (string * result) :=
  match o with
  | Some (m, r) => Some (String a m, r)
  | None => None
  end.

Fixpoint matchLit (l : string) (s : string) : option (string * result) :=
  match l with
  | "" => done "" s
  | String c l' =>
      match foldRune c s with
      | Some (m, s') =>
          match matchLit l' s' with
          | Some (m', r) => Some (m ++ m', r)
          | None => None
          end
      | None => None
      end
  end.

(** The longest run first, then shorter ones. *)
Fixpoint greedy (c : ascii -> bool) (s : string) : option (string * result) :=
  match s with
  | String a s' =>
      if c a then
        match greedy c s' with
        | Some (m, r) => Some (String a m, r)
        | None => done "" s
        end
      else done "" s
  | "" => done "" s
  end.

(** The shortest run first, then longer ones. *)
Fixpoint lazy (c : ascii -> bool) (s : string) : option (string * result) :=
  match k s with
  | Some r => Some ("", r)
  | None =>
      match s with
      | String a s' => if c a then cons_char a (lazy c s') else None
      | "" => None
      end
  end.

End Matcher.

Fixpoint matchItem (it : item) (k : string -> option result) (s : string)
  : option (string * result) :=
  match it with
  | Lit l => matchLit k l s
  | One c =>
      match s with
      | String a s' => if c a then done k (String a "") s' else None
      | "" => None
      end
  | Star c => greedy k c s
  | Plus c =>
      match s with
      | String a s' => if c a then cons_char a (greedy k c s') else None
      | "" => None
      end
  | LazyStar c => lazy k c s
  | Group i =>
      match matchItem i k s with
      | Some (m, (w, caps, rest)) => Some (m, (w, m :: caps, rest))
      | None => None
      end
  end.

(** A match of the whole pattern at the head of the input. *)
Fixpoint matchItems (re : list item) (s : string) : option result :=
  match re with
  | [] => Some ("", [], s)
  | it :: re' =>
      match matchItem it (matchItems re') s with
      | Some (m, (w, caps, rest)) => Some (m ++ w, caps, rest)
      | None => None
      end
  end.

(** The leftmost match. *)
Fixpoint find (re : list item) (s : string) : option result :=
  match matchItems re s with
  | Some r => Some r
  | None =>
      match s with
      | String _ s' => find re s'
      | "" => None
      end
  end.

(** [re.FindStringSubmatch(s)]: the match and its groups, [nil] without a
    match. *)
Definition FindStringSubmatch (re : list item) (s : string) : list string :=
  match find re s with
  | Some (w, caps, _) => w :: caps
  | None => []
  end.

(** The loop of [ReplaceAllString] and [FindAllStringSubmatch] walks the
    input once; [skip] counts the bytes of the current match still to pass. *)
Fixpoint replaceFrom (re : list item) (repl : string) (skip : nat) (s : string) : string :=
  match s with
  | "" => ""
  | String a s' =>
      match skip with
      | S n => replaceFrom re repl n s'
      | O =>
          match matchItems re s with
          | Some (w, _, _) =>
              match String.length w with
              | S n => repl ++ replaceFrom re repl n s'
              | O => repl ++ String a (replaceFrom re repl O s')
              end
          | None => String a (replaceFrom re repl O s')
          end
      end
  end.

(** [re.ReplaceAllString(src, repl)], for a [repl] without [$]. *)
Definition ReplaceAllString (re : list item) (src repl : string) : string :=
  replaceFrom re repl O src.

Fixpoint findAllFrom (re : list item) (skip : nat) (s : string) : list (list string) :=
  match s with
  | "" => []
  | String a s' =>
      match skip with
      | S n => findAllFrom re n s'
      | O =>
          match matchItems re s with
          | Some (w, caps, _) => (w :: caps) :: findAllFrom re (String.length w - 1) s'
          | None => findAllFrom re O s'
          end
      end
  end.

(** [re.FindAllStringSubmatch(s, -1)] *)
Definition FindAllStringSubmatch (re : list item) (s : string) : list (list string) :=
  findAllFrom re O s.

(** Character classes of the patterns. *)
Definition any (_ : ascii) : bool := true.                       (* . under (?s) *)
Definition notGt (c : ascii) : bool := negb (c =? ">")%char.     (* [^>] *)
Definition quote (c : ascii) : bool := ((c =? "034") || (c =? "039"))%char.  (* double or single quote *)
Definition notQuote (c : ascii) : bool := negb (quote c).
(** [\s] is [\t\n\f\r ] in Go's syntax (no vertical tab). *)
Definition space (c : ascii) : bool :=
  ((c =? "009") || (c =? "010") || (c =? "012") || (c =? "013") || (c =? " "))%char.

End regexp.

(** ** config.go: the fields of the configuration the pipeline reads *)

Record CrawlerConfig := {
  WhitelistDomains : list string;
  DepthLimit : Z;
  RPSPerHost : Z;
  RPSBurst : Z;
  Workers : Z;
  HTMLFetchTimeout : Z;          (* time.Duration, nanoseconds *)
  HTMLMaxSize : Z;               (* ByteSize.Bytes *)
  UserAgent : string;
  ContentTypes : list string
}.

Record Config := { Crawler : CrawlerConfig }.

Record ProxiesConfig := {
  Rotation : string;
  Proxies : list string
}.

(** ** utils.go *)

Section Utils.
Context `{GoLib}.

(** [normalizeHost] lowercases, strips the port and a trailing dot, removes a
    leading www. *)
Definition normalizeHost (h : string) : string :=
  let host := strings.ToLower (strings.TrimSpace h) in
  let host :=
    if strings.Contains host ":" then
      match net_SplitHostPort host with
      | Some (x, _) => x
      | None => host
      end
    else host in
  let host := strings.TrimSuffix host "." in
  strings.TrimPrefix host "www.".

(** [isHostAllowed] checks the host against the whitelist (exact or
    subdomain). *)
Fixpoint isHostAllowed (host : string) (whitelist : list string) : bool :=
  match whitelist with
  | [] => false
  | d :: rest =>
      let d := strings.ToLower (strings.TrimSpace d) in
      if d =? "" then isHostAllowed host rest
      else if (host =? d) || strings.HasSuffix host ("." ++ d) then true
      else isHostAllowed host rest
  end.

Definition hexDigit (n : nat) : ascii :=
  if (n <? 10)%nat then ascii_of_nat (48 + n) else ascii_of_nat (87 + n).

(** [hex.EncodeToString] *)
Fixpoint hex_EncodeToString (s : string) : string :=
  match s with
  | "" => ""
  | String c s' =>
      String (hexDigit (nat_of_ascii c / 16))
        (String (hexDigit (nat_of_ascii c mod 16)) (hex_EncodeToString s'))
  end.

(** [sha256Hex] returns the hex-encoded SHA-256 of a string. *)
Definition sha256Hex (s : string) : string := hex_EncodeToString (sha256_Sum256 s).

End Utils.

(** ** parser.go: text, title and description extraction *)

Section Parser.
Context `{GoLib}.
Import regexp.

(** [(?is)<script[^>]*>.*?</script>] *)
Definition rmScript : list item :=
  [Lit "<script"; Star notGt; Lit ">"; LazyStar any; Lit "</script>"].
(** [(?is)<style[^>]*>.*?</style>] *)
Definition rmStyle : list item :=
  [Lit "<style"; Star notGt; Lit ">"; LazyStar any; Lit "</style>"].
(** [(?is)<[^>]+>] *)
Definition rmTags : list item := [Lit "<"; Plus notGt; Lit ">"].
(** [\s+] *)
Definition spaceSeq : list item := [Plus space].

Definition extractVisibleText (html : string) : string :=
  let s := ReplaceAllString rmScript html " " in
  let s := ReplaceAllString rmStyle s " " in
  let s := ReplaceAllString rmTags s " " in
  let s := ReplaceAllString spaceSeq s " " in
  strings.TrimSpace s.

(** [(?is)<title[^>]*>(.*?)</title>] *)
Definition reTitle : list item :=
  [Lit "<title"; Star notGt; Lit ">"; Group (LazyStar any); Lit "</title>"].

(** [(?is)<meta\s+[^>]*name\s*=\s*Qdescription Q[^>]*content\s*=\s*Q([^Q]+)Q[^>]*>],
    where Q stands for the class of the double and the single quote *)
Definition reMetaDesc : list item :=
  [Lit "<meta"; Plus space; Star notGt; Lit "name"; Star space; Lit "="; Star space;
   One quote; Lit "description"; One quote; Star notGt; Lit "content"; Star space;
   Lit "="; Star space; One quote; Group (Plus notQuote); One quote; Star notGt; Lit ">"].

(** The same with [property] and [og:description]. *)
Definition reOGDesc : list item :=
  [Lit "<meta"; Plus space; Star notGt; Lit "property"; Star space; Lit "="; Star space;
   One quote; Lit "og:description"; One quote; Star notGt; Lit "content"; Star space;
   Lit "="; Star space; One quote; Group (Plus notQuote); One quote; Star notGt; Lit ">"].

(** [if len(t) > n { t = t[:n] }]: Go's [len] and slicing count bytes. *)
Definition capBytes (n : nat) (t : string) : string :=
  if (n <? String.length t)%nat then strings.take n t else t.

(** [extractTitle] returns trimmed and unescaped <title> or empty string. *)
Definition extractTitle (htmlStr : string) : string :=
  match FindStringSubmatch reTitle htmlStr with
  | _ :: m1 :: _ =>
      let t := strings.TrimSpace m1 in
      let t := ReplaceAllString rmTags t " " in
      let t := ReplaceAllString spaceSeq t " " in
      let t := strings.TrimSpace t in
      let t := html.UnescapeString t in
      capBytes 512 t
  | _ => ""
  end.

Definition descriptionOf (m1 : string) : string :=
  let s := strings.TrimSpace m1 in
  let s := html.UnescapeString s in
  let s := ReplaceAllString spaceSeq s " " in
  capBytes 1024 s.

(** [extractMetaDescription] tries the common meta description tags. *)
Definition extractMetaDescription (htmlStr : string) : string :=
  match FindStringSubmatch reMetaDesc htmlStr with
  | _ :: m1 :: _ => descriptionOf m1
  | _ =>
      match FindStringSubmatch reOGDesc htmlStr with
      | _ :: m1 :: _ => descriptionOf m1
      | _ => ""
      end
  end.

(** [(?is)<a\s[^>]*href\s*=\s*Q([^Q]+)Q], Q as above *)
Definition reHref : list item :=
  [Lit "<a"; One space; Star notGt; Lit "href"; Star space; Lit "="; Star space;
   One quote; Group (Plus notQuote); One quote].

Definition isInDomain (host siteDomain : string) : bool :=
  let h := strings.ToLower (strings.TrimSpace host) in
  let d := strings.ToLower (strings.TrimSpace siteDomain) in
  if (h =? d) || strings.HasSuffix h ("." ++ d) then true else false.

End Parser.

(** ** http_client.go *)

Inductive proxy_choice :=
| ProxyFromEnvironment            (* http.ProxyFromEnvironment *)
| ProxyDirect                     (* tr.Proxy = nil *)
| ProxyVia (p : URL).

Record http_Client := { Transport_Proxy : proxy_choice; Timeout : Z }.

(** What the network does with one GET: the request fails (bad URL, DNS,
    connection, TLS, timeout), or a response arrives with the bytes the body
    delivers and whether the body stream breaks after them instead of ending. *)
Inductive http_reply :=
| TransportError (msg : string)
| Response (status : Z) (contentType : string) (body : string) (broken : bool).

Definition network := http_Client -> string -> string -> http_reply.

Section HTTPClient.
Context `{GoLib}.
Local Open Scope Z_scope.

(** [buildHTTPClient] builds the client with the optional proxy; a proxy of
    another scheme than http and https is not used (direct connection). *)
Definition buildHTTPClient (p : option URL) (timeout : Z) : http_Client :=
  match p with
  | None => {| Transport_Proxy := ProxyFromEnvironment; Timeout := timeout |}
  | Some u =>
      if (Scheme u =? "http")%string || (Scheme u =? "https")%string
      then {| Transport_Proxy := ProxyVia u; Timeout := timeout |}
      else {| Transport_Proxy := ProxyDirect; Timeout := timeout |}
  end.

(** [fetchHTML] performs a GET and returns status, content type and body
    (limited by [maxBytes]) and the error.  The [io.LimitedReader] reports the
    end of the body once [maxBytes] bytes are read, so a break of the stream
    is seen only when fewer bytes arrive. *)
Definition fetchHTML (net : network) (client : http_Client) (target : string)
    (maxBytes : Z) (userAgent : string) : Z * string * string * option string :=
  match net client userAgent target with
  | TransportError e => (0, "", "", Some e)
  | Response status contentType body broken =>
      if (status <? 200) || (400 <=? status)
      then (status, contentType, "", Some "http status")
      else if broken && (Z.of_nat (String.length body) <? maxBytes)
      then (status, contentType, "", Some "read body")
      else (status, contentType, strings.take (Z.to_nat maxBytes) body, None)
  end.

(** [isAllowedContentType] checks whether [ctype] belongs to the allowed list
    (prefix match). *)
Definition isAllowedContentType (ctype : string) (allow : list string) : bool :=
  match allow with
  | [] => true
  | _ =>
      let ct := strings.ToLower (strings.TrimSpace ctype) in
      existsb (fun a => strings.HasPrefix ct (strings.ToLower (strings.TrimSpace a))) allow
  end.

End HTTPClient.

(** ** logger.go: the proxy pool *)

(** A call returns, or the Go run time panics (slice index out of range). *)
Inductive outcome (A : Type) :=
| Returns (a : A)
| Panics.
Arguments Returns {A} a.
Arguments Panics {A}.

Record ProxyPool := {
  rotation : string;
  proxies : list URL;
  counter : Z                    (* uint64 *)
}.

Section Proxy.
Context `{GoLib}.
Local Open Scope Z_scope.

Fixpoint parseProxies (ps : list string) : list URL * option string :=
  match ps with
  | [] => ([], None)
  | p :: rest =>
      match url_Parse p with
      | None => ([], Some "invalid proxy URL")
      | Some u =>
          if (Scheme u =? "http")%string || (Scheme u =? "https")%string
             || (Scheme u =? "socks5")%string
          then match parseProxies rest with
               | (us, None) => (u :: us, None)
               | (_, Some e) => ([], Some e)
               end
          else ([], Some "unsupported proxy scheme")
      end
  end.

Definition NewProxyPool (cfg : ProxiesConfig) : option ProxyPool * option string :=
  match Proxies cfg with
  | [] => (Some {| rotation := Rotation cfg; proxies := []; counter := 0 |}, None)
  | ps =>
      match parseProxies ps with
      | (_, Some e) => (None, Some e)
      | (parsed, None) =>
          let rot := if (Rotation cfg =? "")%string then "round_robin"%string else Rotation cfg in
          (Some {| rotation := rot; proxies := parsed; counter := 0 |}, None)
      end
  end.

Definition Len (p : ProxyPool) : Z := Z.of_nat (List.length (proxies p)).

(** [atomic.AddUint64(&p.counter, 1)]: the new value, modulo 2^64. *)
Definition AddUint64 (c delta : Z) : Z := (c + delta) mod 2 ^ 64.

(** [int(i)] for a [uint64] on a 64-bit platform: the same 64 bits read as
    a signed number. *)
Definition int_of_uint64 (i : Z) : Z := if i <? 2 ^ 63 then i else i - 2 ^ 64.

(** Subtraction on [int] wraps around. *)
Definition int_sub (a b : Z) : Z := (a - b + 2 ^ 63) mod 2 ^ 64 - 2 ^ 63.

(** [Next]: [p.proxies[(int(i)-1) % len(p.proxies)]] after the increment.
    Go's [%] truncates toward zero ([Z.rem]); an index below zero panics. *)
Definition Next (p : ProxyPool) : outcome (option URL * ProxyPool) :=
  match proxies p with
  | [] => Returns (None, p)
  | _ =>
      let i := AddUint64 (counter p) 1 in
      let p' := {| rotation := rotation p; proxies := proxies p; counter := i |} in
      let idx := Z.rem (int_sub (int_of_uint64 i) 1) (Len p) in
      if idx <? 0 then Panics
      else match nth_error (proxies p) (Z.to_nat idx) with
           | Some u => Returns (Some u, p')
           | None => Panics
           end
  end.

End Proxy.

(** ** rate_limiter.go: the registry of limiters, one per host *)

Record Limiter := { limit : Z; burst : Z }.

Definition hostLimiterMap := list (string * Limiter).

Fixpoint Load (m : hostLimiterMap) (host : string) : option Limiter :=
  match m with
  | [] => None
  | (h, l) :: rest => if (h =? host)%string then Some l else Load rest host
  end.

(** [getHostLimiter]: the limiter of the host, made on first use with the
    rate 10 and the burst 20 where the configuration gives none. *)
Definition getHostLimiter (m : hostLimiterMap) (host : string) (rps brst : Z)
  : option Limiter * hostLimiterMap :=
  if (host =? "")%string then (None, m)
  else match Load m host with
       | Some l => (Some l, m)
       | None =>
           let rps := if (rps <=? 0)%Z then 10%Z else rps in
           let brst := if (brst <=? 0)%Z then 20%Z else brst in
           let lim := {| limit := rps; burst := brst |} in
           (Some lim, (m ++ [(host, lim)])%list)
       end.

(** ** deploy/db/init.sql: the tables the crawler reads and writes

    A [timestamptz] is a count of microseconds.  The columns of [pages] that
    the crawler never writes (headers, charset, raw_size and the two
    tsvector columns kept by a trigger) are left out.  The [bigserial]
    identifiers stay far from the bound of [bigint]. *)

Inductive crawl_status := StQueued | StProcessing | StDone | StError.

Record site_row := {
  s_id : Z;
  s_domain : string;
  s_enabled : bool;
  s_rps_limit : Z;
  s_rps_burst : Z;
  s_depth_limit : Z;
  s_created_at : Z;
  s_updated_at : Z
}.

Record queue_row := {
  q_id : Z;
  q_site_id : Z;
  q_url : string;
  q_url_hash : string;
  q_priority : Z;
  q_status : crawl_status;
  q_attempts : Z;
  q_last_error : option string;
  q_next_try_at : option Z;
  q_created_at : Z;
  q_updated_at : Z
}.

Record page_row := {
  p_id : Z;
  p_site_id : Z;
  p_url : string;
  p_url_hash : string;
  p_title : option string;
  p_description : option string;
  p_lang : option string;
  p_http_status : option Z;
  p_content_type : option string;
  p_html_hash : option string;
  p_html : option string;
  p_fetched_at : option Z;
  p_text : option string;
  p_created_at : Z;
  p_updated_at : Z
}.

Record link_row := {
  l_id : Z;
  l_from_page_id : Z;
  l_to_url : string;
  l_to_url_hash : string;
  l_created_at : Z
}.

(** The database: each table with the last value its sequence has given. *)
Record DB := {
  sites : list site_row;
  sites_seq : Z;
  crawl_queue : list queue_row;
  crawl_queue_seq : Z;
  pages : list page_row;
  pages_seq : Z;
  page_links : list link_row;
  page_links_seq : Z
}.

Definition set_sites (db : DB) (rows : list site_row) (seq : Z) : DB :=
  {| sites := rows; sites_seq := seq;
     crawl_queue := crawl_queue db; crawl_queue_seq := crawl_queue_seq db;
     pages := pages db; pages_seq := pages_seq db;
     page_links := page_links db; page_links_seq := page_links_seq db |}.

Definition set_crawl_queue (db : DB) (rows : list queue_row) (seq : Z) : DB :=
  {| sites := sites db; sites_seq := sites_seq db;
     crawl_queue := rows; crawl_queue_seq := seq;
     pages := pages db; pages_seq := pages_seq db;
     page_links := page_links db; page_links_seq := page_links_seq db |}.

Definition set_pages (db : DB) (rows : list page_row) (seq : Z) : DB :=
  {| sites := sites db; sites_seq := sites_seq db;
     crawl_queue := crawl_queue db; crawl_queue_seq := crawl_queue_seq db;
     pages := rows; pages_seq := seq;
     page_links := page_links db; page_links_seq := page_links_seq db |}.

Definition set_page_links (db : DB) (rows : list link_row) (seq : Z) : DB :=
  {| sites := sites db; sites_seq := sites_seq db;
     crawl_queue := crawl_queue db; crawl_queue_seq := crawl_queue_seq db;
     pages := pages db; pages_seq := pages_seq db;
     page_links := rows; page_links_seq := seq |}.

(** What a statement can answer instead of a result. *)
Inductive pgerr :=
| ErrConn                  (* a failure the model does not trace: see [fails] *)
| ErrNoRows                (* no rows in result set *)
| ErrUniqueViolation
| ErrForeignKeyViolation
| ErrCheckViolation
| ErrOutOfRange.           (* integer out of range *)

(** What a statement meets when it runs: the server's clock ([now()]), and
    whether it fails for a reason outside the tables (the pool is closed, the
    connection is lost, the context is cancelled, a text value is not valid
    UTF-8). *)
Record conn := { now : Z; fails : bool }.

Section Schema.
Local Open Scope Z_scope.

(** The range of a column of type [integer]. *)
Definition int4 (x : Z) : bool := (- 2 ^ 31 <=? x) && (x <=? 2 ^ 31 - 1).

(** [status IN ('queued','processing')] *)
Definition active (r : queue_row) : bool :=
  match q_status r with
  | StQueued | StProcessing => true
  | StDone | StError => false
  end.

Definition same_key (siteID : Z) (urlHash : string) (r : queue_row) : bool :=
  (q_site_id r =? siteID) && (q_url_hash r =? urlHash)%string.

(** [EXISTS (SELECT 1 FROM crawl_queue WHERE site_id = $1 AND url_hash = $3
    AND status IN ('queued','processing'))], which is also what the index
    crawl_queue_site_urlhash_active_uq forbids a new active row to meet. *)
Definition has_active (rows : list queue_row) (siteID : Z) (urlHash : string) : bool :=
  existsb (fun r => same_key siteID urlHash r && active r) rows.

(** [REFERENCES sites(id)] *)
Definition site_exists (db : DB) (siteID : Z) : bool :=
  existsb (fun s => s_id s =? siteID) (sites db).

(** [REFERENCES pages(id)] *)
Definition page_exists (db : DB) (pageID : Z) : bool :=
  existsb (fun p => p_id p =? pageID) (pages db).

(** [CHECK (lang IN ('ru','en'))]; NULL passes a check. *)
Definition check_lang (l : option string) : bool :=
  match l with
  | None => true
  | Some x => (x =? "ru")%string || (x =? "en")%string
  end.

(** [CHECK (content_type IS NULL OR content_type ILIKE 'text/html%')] *)
Definition check_content_type (ct : option string) : bool :=
  match ct with
  | None => true
  | Some x => String.prefix "text/html" (strings.mapBytes strings.lowerByte x)
  end.

(** [NULLIF(x, '')] *)
Definition NULLIF_empty (x : string) : option string :=
  if (x =? "")%string then None else Some x.

(** [COALESCE(a, b)] *)
Definition COALESCE {A : Type} (a b : option A) : option A :=
  match a with
  | Some _ => a
  | None => b
  end.

End Schema.

(** ** The queue, page and link statements (ensureSite ... insertPageLink) *)

Section Statements.
Context `{GoLib}.
Local Open Scope Z_scope.

(** [time.Duration] counts nanoseconds. *)
Definition Millisecond : Z := 1000000.
Definition Second : Z := 1000 * Millisecond.
Definition Minute : Z := 60 * Second.

(** [ensureSite]: INSERT INTO sites ... ON CONFLICT (domain) DO UPDATE SET
    updated_at = now() RETURNING id.  The sequence gives its next value
    before the conflict is seen. *)
Definition ensureSite (c : conn) (db : DB) (domain : string) (cfg : Config)
  : (Z * option pgerr) * DB :=
  if fails c then ((0, Some ErrConn), db)
  else if negb (int4 (RPSPerHost (Crawler cfg)) && int4 (RPSBurst (Crawler cfg))
                && int4 (DepthLimit (Crawler cfg)))
  then ((0, Some ErrOutOfRange), db)
  else
    let id := sites_seq db + 1 in
    match List.find (fun s => (s_domain s =? domain)%string) (sites db) with
    | Some s =>
        let touch (r : site_row) :=
          if (s_domain r =? domain)%string
          then {| s_id := s_id r; s_domain := s_domain r; s_enabled := s_enabled r;
                  s_rps_limit := s_rps_limit r; s_rps_burst := s_rps_burst r;
                  s_depth_limit := s_depth_limit r; s_created_at := s_created_at r;
                  s_updated_at := now c |}
          else r in
        ((s_id s, None), set_sites db (map touch (sites db)) id)
    | None =>
        let row := {| s_id := id; s_domain := domain; s_enabled := true;
                      s_rps_limit := RPSPerHost (Crawler cfg);
                      s_rps_burst := RPSBurst (Crawler cfg);
                      s_depth_limit := DepthLimit (Crawler cfg);
                      s_created_at := now c; s_updated_at := now c |} in
        ((id, None), set_sites db (sites db ++ [row])%list id)
    end.

(** The row that [enqueueIfNotExists] inserts. *)
Definition new_queue_row (id : Z) (c : conn) (siteID : Z) (url urlHash : string)
    (priority : Z) : queue_row :=
  {| q_id := id; q_site_id := siteID; q_url := url; q_url_hash := urlHash;
     q_priority := priority; q_status := StQueued; q_attempts := 0;
     q_last_error := None; q_next_try_at := None;
     q_created_at := now c; q_updated_at := now c |}.

(** The statement of [enqueueIfNotExists]:
    INSERT INTO crawl_queue (...) SELECT $1, $2, $3, $4, 'queued', 0, now(),
    now() WHERE NOT EXISTS (an active row of the same site and hash).

    The subquery reads the statement's snapshot; the unique index on the
    active rows reads the table as it is when the row goes in.  When no other
    statement runs in between the two are the same; [snapshot] is what the
    subquery sees when others do. *)
Definition insertIfNotExists (snapshot : list queue_row) (c : conn) (db : DB)
    (siteID : Z) (url urlHash : string) (priority : Z) : (bool * option pgerr) * DB :=
  if fails c then ((false, Some ErrConn), db)
  else if negb (int4 priority) then ((false, Some ErrOutOfRange), db)
  else if has_active snapshot siteID urlHash then ((false, None), db)
  else
    let id := crawl_queue_seq db + 1 in
    let db1 := set_crawl_queue db (crawl_queue db) id in
    if has_active (crawl_queue db) siteID urlHash
    then ((false, Some ErrUniqueViolation), db1)
    else if negb (site_exists db siteID)
    then ((false, Some ErrForeignKeyViolation), db1)
    else ((true, None),
          set_crawl_queue db
            (crawl_queue db ++ [new_queue_row id c siteID url urlHash priority])%list id).

(** [enqueueIfNotExists]: [ok := ct.RowsAffected() > 0]. *)
Definition enqueueIfNotExists (c : conn) (db : DB) (siteID : Z) (url urlHash : string)
    (priority : Z) : (bool * option pgerr) * DB :=
  insertIfNotExists (crawl_queue db) c db siteID url urlHash priority.

(** The interval of [fmt.Sprintf("%f seconds", retryAfter.Seconds())]: six
    decimals of a second, that is the duration to the microsecond (exact for
    the whole minutes the worker passes). *)
Definition interval_of (retryAfter : Z) : Z := (retryAfter + 500) / 1000.

Definition set_error (msg : string) (next : Z) (t : Z) (r : queue_row) : queue_row :=
  {| q_id := q_id r; q_site_id := q_site_id r; q_url := q_url r;
     q_url_hash := q_url_hash r; q_priority := q_priority r;
     q_status := StError; q_attempts := q_attempts r;
     q_last_error := Some msg; q_next_try_at := Some next;
     q_created_at := q_created_at r; q_updated_at := t |}.

Definition set_done (t : Z) (r : queue_row) : queue_row :=
  {| q_id := q_id r; q_site_id := q_site_id r; q_url := q_url r;
     q_url_hash := q_url_hash r; q_priority := q_priority r;
     q_status := StDone; q_attempts := q_attempts r;
     q_last_error := q_last_error r; q_next_try_at := q_next_try_at r;
     q_created_at := q_created_at r; q_updated_at := t |}.

Definition set_processing (t : Z) (r : queue_row) : queue_row :=
  {| q_id := q_id r; q_site_id := q_site_id r; q_url := q_url r;
     q_url_hash := q_url_hash r; q_priority := q_priority r;
     q_status := StProcessing; q_attempts := q_attempts r + 1;
     q_last_error := q_last_error r; q_next_try_at := q_next_try_at r;
     q_created_at := q_created_at r; q_updated_at := t |}.

(** UPDATE crawl_queue SET ... WHERE id = $1 *)
Definition update_by_id (id : Z) (f : queue_row -> queue_row) (rows : list queue_row)
  : list queue_row :=
  map (fun r => if q_id r =? id then f r else r) rows.

(** [markQueueError]: the result of [db.Exec] is dropped ([_, _ =]), so a
    statement that fails leaves the row as it was. *)
Definition markQueueError (c : conn) (db : DB) (id : Z) (msg : string) (retryAfter : Z) : DB :=
  if fails c then db
  else set_crawl_queue db
         (update_by_id id (set_error msg (now c + interval_of retryAfter) (now c))
            (crawl_queue db))
         (crawl_queue_seq db).

(** [markQueueDone], likewise. *)
Definition markQueueDone (c : conn) (db : DB) (id : Z) : DB :=
  if fails c then db
  else set_crawl_queue db (update_by_id id (set_done (now c)) (crawl_queue db))
         (crawl_queue_seq db).

Definition page_key (siteID : Z) (urlHash : string) (p : page_row) : bool :=
  (p_site_id p =? siteID) && (p_url_hash p =? urlHash)%string.

(** ON CONFLICT (site_id, url_hash) DO UPDATE SET ...: the stored row [p]
    and the row proposed for insertion [e] (EXCLUDED). *)
Definition merge_page (t : Z) (p e : page_row) : page_row :=
  {| p_id := p_id p; p_site_id := p_site_id p; p_url := p_url p;
     p_url_hash := p_url_hash p;
     p_title := COALESCE (match p_title e with Some x => NULLIF_empty x | None => None end)
                         (p_title p);
     p_description :=
       COALESCE (match p_description e with Some x => NULLIF_empty x | None => None end)
                (p_description p);
     p_lang := COALESCE (match p_lang e with Some x => NULLIF_empty x | None => None end)
                        (p_lang p);
     p_http_status := p_http_status e;
     p_content_type := p_content_type e;
     p_html_hash := p_html_hash e;
     p_html := p_html e;
     p_fetched_at := p_fetched_at e;
     p_text := p_text e;
     p_created_at := p_created_at p;
     p_updated_at := t |}.

(** [upsertPage]: INSERT INTO pages (...) VALUES ($1,$2,$3,$4,$5,
    NULLIF($6,''), ...) ON CONFLICT (site_id, url_hash) DO UPDATE ...
    RETURNING id.  The checks of the table are made on the proposed row
    before the conflict is looked for. *)
Definition upsertPage (c : conn) (db : DB) (siteID : Z) (rawURL : string)
    (title description lang : string) (httpStatus : Z)
    (contentType html text : string) : (Z * option pgerr) * DB :=
  let urlHash := sha256Hex rawURL in
  let htmlHash := sha256Hex html in
  if fails c then ((0, Some ErrConn), db)
  else if negb (int4 httpStatus) then ((0, Some ErrOutOfRange), db)
  else
    let id := pages_seq db + 1 in
    let e := {| p_id := id; p_site_id := siteID; p_url := rawURL; p_url_hash := urlHash;
                p_title := Some title; p_description := Some description;
                p_lang := NULLIF_empty lang; p_http_status := Some httpStatus;
                p_content_type := Some contentType; p_html_hash := Some htmlHash;
                p_html := Some html; p_fetched_at := Some (now c);
                p_text := Some text; p_created_at := now c; p_updated_at := now c |} in
    let db1 := set_pages db (pages db) id in
    if negb (check_lang (p_lang e) && check_content_type (p_content_type e))
    then ((0, Some ErrCheckViolation), db1)
    else
      match List.find (page_key siteID urlHash) (pages db) with
      | Some p =>
          let upd (r : page_row) :=
            if page_key siteID urlHash r then merge_page (now c) r e else r in
          ((p_id p, None), set_pages db (map upd (pages db)) id)
      | None =>
          if negb (site_exists db siteID)
          then ((0, Some ErrForeignKeyViolation), db1)
          else ((id, None), set_pages db (pages db ++ [e])%list id)
      end.

(** [getSiteDomain]: SELECT domain FROM sites WHERE id=$1 *)
Definition getSiteDomain (c : conn) (db : DB) (siteID : Z) : string * option pgerr :=
  if fails c then (""%string, Some ErrConn)
  else match List.find (fun s => s_id s =? siteID) (sites db) with
       | Some s => (s_domain s, None)
       | None => (""%string, Some ErrNoRows)
       end.

(** [insertPageLink]: INSERT INTO page_links ... ON CONFLICT DO NOTHING *)
Definition insertPageLink (c : conn) (db : DB) (fromPageID : Z) (toURL toURLHash : string)
  : option pgerr * DB :=
  if fails c then (Some ErrConn, db)
  else
    let id := page_links_seq db + 1 in
    let db1 := set_page_links db (page_links db) id in
    if existsb (fun l => (l_from_page_id l =? fromPageID)
                         && (l_to_url_hash l =? toURLHash)%string) (page_links db)
    then (None, db1)
    else if negb (page_exists db fromPageID) then (Some ErrForeignKeyViolation, db1)
    else (None,
          set_page_links db
            (page_links db ++ [{| l_id := id; l_from_page_id := fromPageID;
                                  l_to_url := toURL; l_to_url_hash := toURLHash;
                                  l_created_at := now c |}])%list id).

End Statements.

(** ** parser.go: link extraction and enqueue *)

Section Links.
Context `{GoLib}.
Local Open Scope Z_scope.

(** The head of the loop body of [extractAndEnqueueLinks], up to the
    normalised host: [None] stands for the [continue] statements. *)
Definition resolveHref (base : URL) (m : list string) : option URL :=
  match m with
  | _ :: m1 :: _ =>
      let href := strings.TrimSpace m1 in
      if (href =? "")%string then None
      else
        let low := strings.ToLower href in
        if strings.HasPrefix low "javascript:" || strings.HasPrefix low "mailto:"
           || strings.HasPrefix low "tel:" || strings.HasPrefix low "#"
        then None
        else
          match url_Parse href with
          | None => None
          | Some u =>
              let abs := if IsAbs u then u else url_ResolveReference base u in
              let abs := set_Fragment abs "" in
              if negb (Scheme abs =? "http")%string && negb (Scheme abs =? "https")%string
              then None
              else Some (set_Host abs (normalizeHost (Host abs)))
          end
  | _ => None
  end.

(** The variables of the loop: the database, the set [seen] (a Go map used
    as a set; its keys in the order they were added) and the counter. *)
Record linkState := {
  ls_db : DB;
  ls_seen : list string;
  ls_enqueued : Z
}.

Definition inSeen (seen : list string) (s : string) : bool :=
  existsb (fun x => (x =? s)%string) seen.

(** One round of the loop, for the match [m]; [lc] and [ec] are what the
    two statements of the round meet. *)
Definition linkStep (lc ec : conn) (siteID : Z) (siteDomain : string) (fromPageID : Z)
    (base : URL) (st : linkState) (m : list string) : linkState :=
  match resolveHref base m with
  | None => st
  | Some abs =>
      if negb (isInDomain (Host abs) siteDomain) then st
      else
        let final := url_String abs in
        if inSeen (ls_seen st) final then st
        else
          let seen := (ls_seen st ++ [final])%list in
          let toHash := sha256Hex final in
          let db1 := snd (insertPageLink lc (ls_db st) fromPageID final toHash) in
          match enqueueIfNotExists ec db1 siteID final toHash 0 with
          | ((true, None), db2) =>
              {| ls_db := db2; ls_seen := seen; ls_enqueued := ls_enqueued st + 1 |}
          | (_, db2) =>
              {| ls_db := db2; ls_seen := seen; ls_enqueued := ls_enqueued st |}
          end
  end.

Fixpoint linkLoop (lc ec : nat -> conn) (siteID : Z) (siteDomain : string)
    (fromPageID : Z) (base : URL) (i : nat) (matches : list (list string))
    (st : linkState) : linkState :=
  match matches with
  | [] => st
  | m :: rest =>
      linkLoop lc ec siteID siteDomain fromPageID base (S i) rest
        (linkStep (lc i) (ec i) siteID siteDomain fromPageID base st m)
  end.

(** [extractAndEnqueueLinks] returns the number of links enqueued, the number
    of distinct accepted links and the error of parsing the base URL. *)
Definition extractAndEnqueueLinks (lc ec : nat -> conn) (db : DB) (siteID : Z)
    (siteDomain : string) (fromPageID : Z) (baseURL html : string)
  : (Z * Z * option string) * DB :=
  match url_Parse baseURL with
  | None => ((0, 0, Some "parse"%string), db)
  | Some base =>
      let matches := regexp.FindAllStringSubmatch reHref html in
      let st := linkLoop lc ec siteID siteDomain fromPageID base O matches
                  {| ls_db := db; ls_seen := []; ls_enqueued := 0 |} in
      ((ls_enqueued st, Z.of_nat (List.length (ls_seen st)), None), ls_db st)
  end.

End Links.

(** ** The worker: runWorkers and pickAndProcessOne *)

Record queueItem := { ID : Z; SiteID : Z; URL_ : string }.

(** What the claiming transaction meets: the clock at its start, the rows
    other transactions hold locked while its SELECT runs, and which of its
    four round trips fails. *)
Record txctx := {
  tx_now : Z;
  tx_locked : list Z;
  begin_fails : bool;
  select_fails : bool;
  update_fails : bool;
  commit_fails : bool
}.

(** What one call of [pickAndProcessOne] meets. *)
Record world := {
  w_tx : txctx;
  w_net : network;
  w_upsert : conn;
  w_domain : conn;
  w_link : nat -> conn;
  w_enqueue : nat -> conn;
  w_mark : conn
}.

(** The state the workers share: the database, the proxy pool and the
    registry of rate limiters. *)
Record state := {
  st_db : DB;
  st_pool : ProxyPool;
  st_limiters : hostLimiterMap
}.

Section Worker.
Context `{GoLib}.
Local Open Scope Z_scope.

(** The worker count of [runWorkers]: the configured one, or
    min(NumCPU*4, 64) and at least 1. *)
Definition workerCount (cfg : Config) (ncpu : Z) : Z :=
  let wc := Workers (Crawler cfg) in
  if wc <=? 0 then
    let wc := ncpu * 4 in
    let wc := if 64 <? wc then 64 else wc in
    if wc <? 1 then 1 else wc
  else wc.

(** [status = 'queued' AND (next_try_at IS NULL OR next_try_at <= now())] *)
Definition eligible (t : Z) (r : queue_row) : bool :=
  match q_status r with
  | StQueued =>
      match q_next_try_at r with
      | None => true
      | Some n => n <=? t
      end
  | _ => false
  end.

(** [ORDER BY priority DESC, id]: [a] is not after [b]. *)
Definition before (a b : queue_row) : bool :=
  (q_priority b <? q_priority a)
  || ((q_priority a =? q_priority b) && (q_id a <=? q_id b)).

Fixpoint insert_row (r : queue_row) (l : list queue_row) : list queue_row :=
  match l with
  | [] => [r]
  | x :: l' => if before r x then r :: l else x :: insert_row r l'
  end.

Definition order_by (l : list queue_row) : list queue_row :=
  fold_right insert_row [] l.

Definition is_locked (locked : list Z) (r : queue_row) : bool :=
  existsb (fun i => i =? q_id r) locked.

(** SELECT id, site_id, url FROM crawl_queue WHERE ... ORDER BY priority
    DESC, id FOR UPDATE SKIP LOCKED LIMIT 1 *)
Definition selectNext (t : Z) (locked : list Z) (rows : list queue_row) : option queue_row :=
  hd_error (order_by (filter (fun r => eligible t r && negb (is_locked locked r)) rows)).

(** UPDATE crawl_queue SET status = 'processing', attempts = attempts + 1,
    updated_at = now() WHERE id = $1; the sum must fit the column. *)
Definition updToProcessing (t : Z) (id : Z) (rows : list queue_row)
  : option (list queue_row) :=
  if forallb (fun r => negb (q_id r =? id) || int4 (q_attempts r + 1)) rows
  then Some (update_by_id id (set_processing t) rows)
  else None.

(** The first part of [pickAndProcessOne], to the commit of the claim: the
    item claimed (if any), the error, and the table as committed.  Every
    return before the commit rolls the transaction back. *)
Definition claimTx (tx : txctx) (db : DB) : (option queueItem * option pgerr) * DB :=
  if begin_fails tx then ((None, Some ErrConn), db)
  else if select_fails tx then ((None, Some ErrConn), db)
  else
    match selectNext (tx_now tx) (tx_locked tx) (crawl_queue db) with
    | None => ((None, Some ErrNoRows), db)
    | Some r =>
        let it := {| ID := q_id r; SiteID := q_site_id r; URL_ := q_url r |} in
        if update_fails tx then ((None, Some ErrConn), db)
        else
          match updToProcessing (tx_now tx) (ID it) (crawl_queue db) with
          | None => ((None, Some ErrOutOfRange), db)
          | Some rows =>
              if commit_fails tx then ((None, Some ErrConn), db)
              else ((Some it, None), set_crawl_queue db rows (crawl_queue_seq db))
          end
    end.

Definition pgerr_text (e : pgerr) : string :=
  match e with
  | ErrConn => "connection"
  | ErrNoRows => "no rows in result set"
  | ErrUniqueViolation => "duplicate key value violates unique constraint"
  | ErrForeignKeyViolation => "violates foreign key constraint"
  | ErrCheckViolation => "violates check constraint"
  | ErrOutOfRange => "integer out of range"
  end.

End Worker.

Section Process.
Context `{GoLib}.
Local Open Scope Z_scope.

Definition set_db (st : state) (db : DB) : state :=
  {| st_db := db; st_pool := st_pool st; st_limiters := st_limiters st |}.

(** The second part of [pickAndProcessOne]: rate limit, proxy, fetch,
    extraction, storage, links, and the final status of the item.
    [lim.Wait] only delays the worker. *)
Definition processItem (w : world) (cfg : Config) (it : queueItem) (st : state)
  : outcome state :=
  let host :=
    match url_Parse (URL_ it) with
    | Some u => normalizeHost (Host u)
    | None => ""%string
    end in
  let '(_, limiters) :=
    getHostLimiter (st_limiters st) host (RPSPerHost (Crawler cfg)) (RPSBurst (Crawler cfg)) in
  match Next (st_pool st) with
  | Panics => Panics
  | Returns (proxyURL, pool) =>
      let client := buildHTTPClient proxyURL (HTMLFetchTimeout (Crawler cfg)) in
      let finish (db : DB) : outcome state :=
        Returns {| st_db := db; st_pool := pool; st_limiters := limiters |} in
      let db := st_db st in
      match fetchHTML (w_net w) client (URL_ it) (HTMLMaxSize (Crawler cfg))
                      (UserAgent (Crawler cfg)) with
      | (_, _, _, Some e) =>
          finish (markQueueError (w_mark w) db (ID it) ("fetch: " ++ e) (5 * Minute))
      | (status, ctype, html, None) =>
          if negb (isAllowedContentType ctype (ContentTypes (Crawler cfg)))
          then finish (markQueueError (w_mark w) db (ID it)
                         ("content-type not allowed: " ++ ctype) (30 * Minute))
          else
            let text := extractVisibleText html in
            let title := extractTitle html in
            let description := extractMetaDescription html in
            let lang := ""%string in
            match upsertPage (w_upsert w) db (SiteID it) (URL_ it) title description lang
                             status ctype html text with
            | ((_, Some e), db1) =>
                finish (markQueueError (w_mark w) db1 (ID it)
                          ("store: " ++ pgerr_text e) (10 * Minute))
            | ((pageID, None), db1) =>
                let db2 :=
                  match getSiteDomain (w_domain w) db1 (SiteID it) with
                  | (siteDomain, None) =>
                      snd (extractAndEnqueueLinks (w_link w) (w_enqueue w) db1 (SiteID it)
                             siteDomain pageID (URL_ it) html)
                  | (_, Some _) => db1
                  end in
                finish (markQueueDone (w_mark w) db2 (ID it))
            end
      end
  end.

(** [pickAndProcessOne]: claim one item and process it.  The answer is
    [(true, nil)] once an item is claimed, [(false, nil)] when the SELECT finds
    no row, and [(false, err)] when the claim fails. *)
Definition pickAndProcessOne (w : world) (cfg : Config) (st : state)
  : outcome ((bool * option pgerr) * state) :=
  match claimTx (w_tx w) (st_db st) with
  | ((Some it, _), db1) =>
      match processItem w cfg it (set_db st db1) with
      | Returns st' => Returns ((true, None), st')
      | Panics => Panics
      end
  | ((None, Some e), _) =>
      if strings.Contains (pgerr_text e) "no rows"
      then Returns ((false, None), st)
      else Returns ((false, Some e), st)
  | ((None, None), _) => Returns ((false, None), st)
  end.

End Process.

(** ** api_types.go and the handler of POST /api/enqueue (main.go) *)

(** [Priority *int]: [None] is the nil pointer, which is what decoding leaves
    when the body has no priority field. *)
Record EnqueueRequest := { req_URL : string; req_Priority : option Z }.

Record EnqueueResponse := {
  Enqueued : bool;
  resp_SiteID : Z;
  resp_URL : string;
  resp_URLHash : string;
  Message : string
}.

Inductive http_response :=
| HttpError (code : Z) (msg : string)
| HttpJSON (code : Z) (v : EnqueueResponse).

Section Handler.
Context `{GoLib}.
Local Open Scope Z_scope.

(** [priority := 0; if req.Priority != nil { priority = *req.Priority }] *)
Definition priorityOf (req : EnqueueRequest) : Z :=
  match req_Priority req with
  | Some p => p
  | None => 0
  end.

(** The handler; [body] is the decoded JSON body, [None] when decoding
    fails; [cs] and [ce] are what its two statements meet. *)
Definition handleEnqueue (cs ce : conn) (cfg : Config) (method : string)
    (body : option EnqueueRequest) (db : DB) : http_response * DB :=
  if negb (method =? "POST")%string then (HttpError 405 "method not allowed", db)
  else
    match body with
    | None => (HttpError 400 "invalid json", db)
    | Some req =>
        let u := strings.TrimSpace (req_URL req) in
        if (u =? "")%string then (HttpError 400 "url is required", db)
        else
          match url_Parse u with
          | None => (HttpError 400 "invalid url", db)
          | Some parsed =>
              if (Scheme parsed =? "")%string || (Host parsed =? "")%string
              then (HttpError 400 "invalid url", db)
              else
                let parsed := set_Fragment parsed "" in
                let host := normalizeHost (Host parsed) in
                if (host =? "")%string then (HttpError 400 "invalid host", db)
                else
                  let parsed := set_Host parsed host in
                  let wl := WhitelistDomains (Crawler cfg) in
                  if (0 <? Z.of_nat (List.length wl)) && negb (isHostAllowed host wl)
                  then (HttpError 403 "host not in whitelist", db)
                  else
                    match ensureSite cs db host cfg with
                    | ((_, Some e), db1) =>
                        (HttpError 500 ("ensure site error: " ++ pgerr_text e), db1)
                    | ((siteID, None), db1) =>
                        let finalURL := url_String parsed in
                        let urlHash := sha256Hex finalURL in
                        let priority := priorityOf req in
                        match enqueueIfNotExists ce db1 siteID finalURL urlHash priority with
                        | ((_, Some e), db2) =>
                            (HttpError 500 ("enqueue error: " ++ pgerr_text e), db2)
                        | ((enq, None), db2) =>
                            (HttpJSON 200
                               {| Enqueued := enq; resp_SiteID := siteID;
                                  resp_URL := finalURL; resp_URLHash := urlHash;
                                  Message := if enq then ""
                                             else "duplicate (already queued or processing)" |},
                             db2)
                        end
                    end
          end
    end.

End Handler.

(** ** Several workers on one queue

    The workers of [runWorkers] run [pickAndProcessOne] side by side.  What
    they share of the queue is the table and the row locks, so a run is an
    interleaving of the statements of their claims: the SELECT ... FOR UPDATE
    SKIP LOCKED, which locks the row it returns and passes over the rows other
    transactions hold; the UPDATE with its COMMIT, which publishes the new
    status and frees the lock; and the final status update of the item.
    (A SELECT that meets a row just committed by another claim reads its
    new status, as the rows are read here.) *)

Inductive wstate :=
| Idle                                (* about to call pickAndProcessOne *)
| Selected (r : queue_row) (t : Z)    (* inside the transaction, the row locked *)
| Working (it : queueItem)            (* claim committed: fetching, storing *)
| Sleeping.                           (* pickAndProcessOne returned false *)

Record sys := {
  sys_rows : list queue_row;
  sys_workers : list wstate
}.

Section Race.
Local Open Scope Z_scope.

(** The item a worker holds. *)
Definition holds (s : wstate) : option Z :=
  match s with
  | Selected r _ => Some (q_id r)
  | Working it => Some (ID it)
  | Idle | Sleeping => None
  end.

(** The rows locked by open transactions. *)
Definition locks (ws : list wstate) : list Z :=
  flat_map (fun s => match s with Selected r _ => [q_id r] | _ => [] end) ws.

Fixpoint set_nth {A : Type} (n : nat) (x : A) (l : list A) : list A :=
  match l, n with
  | [], _ => []
  | _ :: l', O => x :: l'
  | y :: l', S n' => y :: set_nth n' x l'
  end.

Definition item_of (r : queue_row) : queueItem :=
  {| ID := q_id r; SiteID := q_site_id r; URL_ := q_url r |}.

Inductive step : sys -> sys -> Prop :=
| step_select : forall rows ws w t r,
    nth_error ws w = Some Idle ->
    selectNext t (locks ws) rows = Some r ->
    step {| sys_rows := rows; sys_workers := ws |}
         {| sys_rows := rows; sys_workers := set_nth w (Selected r t) ws |}
| step_empty : forall rows ws w t,
    nth_error ws w = Some Idle ->
    selectNext t (locks ws) rows = None ->
    step {| sys_rows := rows; sys_workers := ws |}
         {| sys_rows := rows; sys_workers := set_nth w Sleeping ws |}
| step_commit : forall rows rows' ws w t r,
    nth_error ws w = Some (Selected r t) ->
    updToProcessing t (q_id r) rows = Some rows' ->
    step {| sys_rows := rows; sys_workers := ws |}
         {| sys_rows := rows'; sys_workers := set_nth w (Working (item_of r)) ws |}
| step_rollback : forall rows ws w t r,
    nth_error ws w = Some (Selected r t) ->
    step {| sys_rows := rows; sys_workers := ws |}
         {| sys_rows := rows; sys_workers := set_nth w Sleeping ws |}
| step_done : forall rows ws w t it,
    nth_error ws w = Some (Working it) ->
    step {| sys_rows := rows; sys_workers := ws |}
         {| sys_rows := update_by_id (ID it) (set_done t) rows;
            sys_workers := set_nth w Idle ws |}
| step_error : forall rows ws w t it msg next,
    nth_error ws w = Some (Working it) ->
    step {| sys_rows := rows; sys_workers := ws |}
         {| sys_rows := update_by_id (ID it) (set_error msg next t) rows;
            sys_workers := set_nth w Idle ws |}
| step_unmarked : forall rows ws w it,
    nth_error ws w = Some (Working it) ->
    step {| sys_rows := rows; sys_workers := ws |}
         {| sys_rows := rows; sys_workers := set_nth w Idle ws |}
| step_wake : forall rows ws w,
    nth_error ws w = Some Sleeping ->
    step {| sys_rows := rows; sys_workers := ws |}
         {| sys_rows := rows; sys_workers := set_nth w Idle ws |}
| step_insert : forall rows ws r,
    (forall x, In x rows -> q_id x <> q_id r) ->
    step {| sys_rows := rows; sys_workers := ws |}
         {| sys_rows := (rows ++ [r])%list; sys_workers := ws |}.

Inductive steps : sys -> sys -> Prop :=
| steps_refl : forall s, steps s s
| steps_step : forall s1 s2 s3, steps s1 s2 -> step s2 s3 -> steps s1 s3.

(** The steps of the claim alone: each worker calls [pickAndProcessOne] once,
    nothing fails, and the run is watched up to the commits. *)
Inductive claim_step : sys -> sys -> Prop :=
| claim_select : forall rows ws w t r,
    nth_error ws w = Some Idle ->
    selectNext t (locks ws) rows = Some r ->
    claim_step {| sys_rows := rows; sys_workers := ws |}
               {| sys_rows := rows; sys_workers := set_nth w (Selected r t) ws |}
| claim_empty : forall rows ws w t,
    nth_error ws w = Some Idle ->
    selectNext t (locks ws) rows = None ->
    claim_step {| sys_rows := rows; sys_workers := ws |}
               {| sys_rows := rows; sys_workers := set_nth w Sleeping ws |}
| claim_commit : forall rows rows' ws w t r,
    nth_error ws w = Some (Selected r t) ->
    updToProcessing t (q_id r) rows = Some rows' ->
    claim_step {| sys_rows := rows; sys_workers := ws |}
               {| sys_rows := rows'; sys_workers := set_nth w (Working (item_of r)) ws |}.

Inductive claim_steps : sys -> sys -> Prop :=
| claim_steps_refl : forall s, claim_steps s s
| claim_steps_step : forall s1 s2 s3, claim_steps s1 s2 -> claim_step s2 s3 -> claim_steps s1 s3.

(** No two workers hold the same item. *)
Definition exclusive (s : sys) : Prop :=
  forall w1 w2 i,
    option_map holds (nth_error (sys_workers s) w1) = Some (Some i) ->
    option_map holds (nth_error (sys_workers s) w2) = Some (Some i) ->
    w1 = w2.

Definition holders (i : Z) (ws : list wstate) : nat :=
  List.length (filter (fun s => match holds s with Some j => j =? i | None => false end) ws).

Definition claimed (i : Z) (s : wstate) : bool :=
  match s with
  | Working it => ID it =? i
  | _ => false
  end.

Definition is_sleeping (s : wstate) : bool :=
  match s with
  | Sleeping => true
  | _ => false
  end.

Definition finished (s : wstate) : bool :=
  match s with
  | Working _ | Sleeping => true
  | Idle | Selected _ _ => false
  end.

End Race.

(** ** The extraction of the title, in the words of the specification

    These definitions follow the text of the specification; the section on
    the title compares them with [extractTitle]. *)

(** [p] is at the head of [s], letters compared without their case. *)
Fixpoint prefix_ci (p s : string) : bool :=
  match p with
  | "" => true
  | String a p' =>
      match s with
      | "" => false
      | String b s' =>
          (strings.lowerByte a =? strings.lowerByte b)%char && prefix_ci p' s'
      end
  end.

(** The text before and after the first place where [p] stands in [s]. *)
Fixpoint cut_ci (p s : string) : option (string * string) :=
  if prefix_ci p s then Some ("", strings.drop (String.length p) s)
  else match s with
       | "" => None
       | String a s' =>
           match cut_ci p s' with
           | Some (b, r) => Some (String a b, r)
           | None => None
           end
       end.



(** A tag opens at a [<] that is followed by at least one byte other than
    [>] and, later, by a [>]. *)
Definition opens_tag (s' : string) : bool :=
  match s' with
  | "" => false
  | String b _ => negb (b =? ">")%char && strings.hasByte ">" s'
  end.

(** Every tag replaced by one space; [in_tag] says that the bytes read are
    inside a tag. *)
Fixpoint spec_strip_tags (in_tag : bool) (s : string) : string :=
  match s with
  | "" => ""
  | String a s' =>
      if in_tag then spec_strip_tags (negb (a =? ">")%char) s'
      else if (a =? "<")%char && opens_tag s'
      then String " " (spec_strip_tags true s')
      else String a (spec_strip_tags false s')
  end.

(** Every run of white space replaced by one space; [in_run] says that the
    byte before was white space. *)
Fixpoint spec_collapse (in_run : bool) (s : string) : string :=
  match s with
  | "" => ""
  | String a s' =>
      if regexp.space a
      then if in_run then spec_collapse true s' else String " " (spec_collapse true s')
      else String a (spec_collapse false s')
  end.



(** ** A small instance of the library, for the closed examples

    URLs of the form scheme://host/path are split at the separators; the
    digest is replaced by the text itself.  The examples use these functions
    on such URLs and on ASCII text only. *)

Fixpoint cut (sep s : string) : option (string * string) :=
  if String.prefix sep s then Some ("", strings.drop (String.length sep) s)
  else match s with
       | "" => None
       | String a s' =>
           match cut sep s' with
           | Some (b, r) => Some (String a b, r)
           | None => None
           end
       end.

Definition example_url (scheme host path : string) : URL :=
  mkURL scheme "" None host path "" false false "" "" "".

Definition example_Parse (s : string) : option URL :=
  match cut "://" s with
  | Some (scheme, rest) =>
      match cut "/" rest with
      | Some (host, path) => Some (example_url scheme host ("/" ++ path))
      | None => Some (example_url scheme rest "")
      end
  | None => Some (example_url "" "" s)
  end.

Definition example_String (u : URL) : string :=
  if (Scheme u =? "") then Path u else Scheme u ++ "://" ++ Host u ++ Path u.

Definition example_Resolve (base ref : URL) : URL :=
  example_url (Scheme base) (Host base) (Path ref).

Definition exampleLib : GoLib := {|
  unicode_ToLower := fun s => s;
  html_unescape_entities := fun s => s;
  sha256_Sum256 := fun s => s;
  url_Parse := example_Parse;
  url_ResolveReference := example_Resolve;
  url_String := example_String;
  net_SplitHostPort := fun _ => None
|}.

(** ** Predicates of the statements *)

(** The keys of the active rows; the index
    crawl_queue_site_urlhash_active_uq keeps them distinct. *)
Definition active_keys (rows : list queue_row) : list (Z * string) :=
  map (fun r => (q_site_id r, q_url_hash r)) (filter active rows).

Definition unique_active (rows : list queue_row) : Prop := NoDup (active_keys rows).

(** A row the SELECT of the claim can return: queued, due, and not locked by
    another open transaction.  When no other transaction holds a lock these
    are the eligible rows. *)
Definition visible (tx : txctx) (r : queue_row) : bool :=
  eligible (tx_now tx) r && negb (is_locked (tx_locked tx) r).

(** The queue [rows'] is [rows] with the item [id] marked as failed and due
    again at [next]: at every position the row is the one of [rows], or, for
    the item, that row with status error, [next] as its next_try_at and its
    attempt count as before. *)
Definition backed_off (id next : Z) (rows rows' : list queue_row) : Prop :=
  List.length rows' = List.length rows /\
  forall n r, nth_error rows n = Some r ->
    exists r', nth_error rows' n = Some r' /\
      if (q_id r =? id)%Z
      then q_status r' = StError /\ q_next_try_at r' = Some next
           /\ q_attempts r' = q_attempts r /\ q_id r' = q_id r /\ q_url r' = q_url r
           /\ q_priority r' = q_priority r
      else r' = r.

(** [k] calls of [Next] in a row: what they return, in order. *)
Fixpoint callNext (k : nat) (p : ProxyPool) : outcome (list (option URL) * ProxyPool) :=
  match k with
  | O => Returns ([], p)
  | S k' =>
      match callNext k' p with
      | Returns (rs, p1) =>
          match Next p1 with
          | Returns (u, p2) => Returns ((rs ++ [u])%list, p2)
          | Panics => Panics
          end
      | Panics => Panics
      end
  end.

(** A match of the href pattern whose link the loop accepts. *)
Definition accepted `{GoLib} (base : URL) (siteDomain : string) (m : list string)
    (abs : URL) : Prop :=
  resolveHref base m = Some abs /\ isInDomain (Host abs) siteDomain = true.

(** ** Invariants of the runs of several workers *)

(** What holds in every state the workers reach: a worker that works on an
    item has left none of its rows queued, every item held is a row of the
    table, and no item is held twice. *)
Definition race_inv (s : sys) : Prop :=
  (forall w it, nth_error (sys_workers s) w = Some (Working it) ->
     forall r, In r (sys_rows s) -> q_id r = ID it -> q_status r <> StQueued)
  /\ (forall w x i, nth_error (sys_workers s) w = Some x -> holds x = Some i ->
        exists r, In r (sys_rows s) /\ q_id r = i)
  /\ exclusive s.

Definition is_idle (s : wstate) : bool :=
  match s with Idle => true | _ => false end.

Definition is_selected (s : wstate) : bool :=
  match s with Selected _ _ => true | _ => false end.

Definition is_working (s : wstate) : bool :=
  match s with Working _ => true | _ => false end.

(** The number of workers in a state of the class [P]. *)
Definition count (P : wstate -> bool) (ws : list wstate) : nat :=
  List.length (filter P ws).

(** The states reached in a race for the row [r0]: before a commit the row
    is as it was, at most one worker has it locked, and nobody sleeps unless
    it is locked; after the commit the row is processing and one worker works
    on it. *)
Definition single_inv (r0 : queue_row) (s : sys) : Prop :=
  (sys_rows s = [r0]
   /\ count is_working (sys_workers s) = O
   /\ (count is_selected (sys_workers s) <= 1)%nat
   /\ (count is_selected (sys_workers s) = O -> count is_sleeping (sys_workers s) = O)
   /\ (forall r t, In (Selected r t) (sys_workers s) -> r = r0))
  \/
  (exists t, sys_rows s = [set_processing t r0]
   /\ count is_working (sys_workers s) = 1%nat
   /\ count is_selected (sys_workers s) = O
   /\ (forall it, In (Working it) (sys_workers s) -> it = item_of r0)).

(** What is left to do in a race: two steps for an idle worker, one for a worker that
    holds a lock. *)
Definition pending (s : sys) : nat :=
  2 * count is_idle (sys_workers s) + count is_selected (sys_workers s).

(** ** What the patterns match, in terms of plain searches *)

(** The text before the first byte [c] of [s] and the text after it. *)
Fixpoint cut_byte (c : ascii) (s : string) : option (string * string) :=
  match s with
  | "" => None
  | String a s' =>
      if (a =? c)%char then Some ("", s')
      else match cut_byte c s' with
           | Some (b, r) => Some (String a b, r)
           | None => None
           end
  end.

(** The text before the first [>]. *)
Definition before_gt (s : string) : string :=
  match cut_byte ">" s with
  | Some (b, _) => b
  | None => ""
  end.

(** The longest head of [s] made of bytes of the class [c]. *)
Fixpoint run (c : ascii -> bool) (s : string) : string :=
  match s with
  | "" => ""
  | String a s' => if c a then String a (run c s') else ""
  end.

(** A literal without the letters s and k, whose case folding goes beyond
    ASCII. *)
Definition plain (l : string) : bool :=
  negb (strings.hasByte "s" (strings.mapBytes strings.lowerByte l))
  && negb (strings.hasByte "k" (strings.mapBytes strings.lowerByte l)).




(** ** The closed examples: the site example.com *)

Definition example_conn (t : Z) : conn := {| now := t; fails := false |}.

Definition example_cfg : Config :=
  {| Crawler := {| WhitelistDomains := []; DepthLimit := 2; RPSPerHost := 10;
                   RPSBurst := 20; Workers := 0; HTMLFetchTimeout := 10 * Second;
                   HTMLMaxSize := 2097152; UserAgent := "gose";
                   ContentTypes := ["text/html"] |} |}.

Definition example_site : site_row :=
  {| s_id := 1; s_domain := "example.com"; s_enabled := true; s_rps_limit := 10;
     s_rps_burst := 20; s_depth_limit := 2; s_created_at := 0; s_updated_at := 0 |}.

Definition example_empty_db : DB :=
  {| sites := []; sites_seq := 0; crawl_queue := []; crawl_queue_seq := 0;
     pages := []; pages_seq := 0; page_links := []; page_links_seq := 0 |}.

(** The site alone, its queue empty. *)
Definition example_site_db : DB :=
  {| sites := [example_site]; sites_seq := 1; crawl_queue := []; crawl_queue_seq := 0;
     pages := []; pages_seq := 0; page_links := []; page_links_seq := 0 |}.

(** A stored page of the site, and a later fetch of the same URL that brings
    a body without text and without a title. *)
Definition example_page : page_row :=
  {| p_id := 7; p_site_id := 1; p_url := "https://example.com/";
     p_url_hash := sha256Hex (H := exampleLib) "https://example.com/";
     p_title := Some "Hi"; p_description := Some "A page"; p_lang := Some "en";
     p_http_status := Some 200%Z; p_content_type := Some "text/html";
     p_html_hash := Some (sha256Hex (H := exampleLib) "<title>Hi</title>Hello");
     p_html := Some "<title>Hi</title>Hello"; p_fetched_at := Some 1000%Z;
     p_text := Some "Hi Hello"; p_created_at := 1000; p_updated_at := 1000 |}.

Definition example_pages_db : DB :=
  {| sites := [example_site]; sites_seq := 1; crawl_queue := []; crawl_queue_seq := 0;
     pages := [example_page]; pages_seq := 7; page_links := []; page_links_seq := 0 |}.

Definition example_refetch : (Z * option pgerr) * DB :=
  upsertPage (H := exampleLib) (example_conn 2000) example_pages_db 1
    "https://example.com/" (extractTitle (H := exampleLib) "<p></p>")
    (extractMetaDescription (H := exampleLib) "<p></p>") "" 200 "text/html" "<p></p>"
    (extractVisibleText "<p></p>").

(** The body {url: https://example.com/} without a priority field, posted
    to a new database. *)
Definition example_request : EnqueueRequest :=
  {| req_URL := "https://example.com/"; req_Priority := None |}.

Definition example_enqueue : http_response * DB :=
  handleEnqueue (H := exampleLib) (example_conn 1000) (example_conn 1001) example_cfg
    "POST" (Some example_request) example_empty_db.

(** A queued row of the site. *)
Definition example_row (id priority : Z) (url : string) : queue_row :=
  {| q_id := id; q_site_id := 1; q_url := url;
     q_url_hash := sha256Hex (H := exampleLib) url; q_priority := priority;
     q_status := StQueued; q_attempts := 0; q_last_error := None; q_next_try_at := None;
     q_created_at := 0; q_updated_at := 0 |}.

(** A queue of three rows: id 1 with priority 0, and ids 2 and 3 with
    priority 5. *)
Definition example_queue_db : DB :=
  {| sites := [example_site]; sites_seq := 1;
     crawl_queue := [example_row 1 0 "https://example.com/a";
                     example_row 2 5 "https://example.com/b";
                     example_row 3 5 "https://example.com/c"];
     crawl_queue_seq := 3;
     pages := []; pages_seq := 0; page_links := []; page_links_seq := 0 |}.

(** A claim at time 5000 with no other transaction open and no failure. *)
Definition example_tx (t : Z) : txctx :=
  {| tx_now := t; tx_locked := []; begin_fails := false; select_fails := false;
     update_fails := false; commit_fails := false |}.

(** One call of [pickAndProcessOne] on connections that work, with the
    network [net]. *)
Definition example_world (net : network) : world :=
  {| w_tx := example_tx 5000; w_net := net;
     w_upsert := example_conn 6000; w_domain := example_conn 6001;
     w_link := fun _ => example_conn 6002; w_enqueue := fun _ => example_conn 6003;
     w_mark := example_conn 7000 |}.

(** A network on which every request times out. *)
Definition net_timeout : network := fun _ _ _ => TransportError "timeout".

(** No proxy is configured. *)
Definition example_pool : ProxyPool :=
  {| rotation := "round_robin"; proxies := []; counter := 0 |}.

Definition example_state (db : DB) : state :=
  {| st_db := db; st_pool := example_pool; st_limiters := [] |}.

(** The example queue after the claim, and the item claimed. *)
Definition example_claimed_db : DB := snd (claimTx (example_tx 5000) example_queue_db).

Definition example_item : queueItem :=
  {| ID := 2; SiteID := 1; URL_ := "https://example.com/b" |}.

(** Two workers and the row 1 of priority 0: worker 0 selects it, worker 1
    finds it locked, worker 0 commits. *)
Definition race_row : queue_row := example_row 1 0 "https://example.com/a".

Definition race_end : sys :=
  {| sys_rows := [set_processing 10 race_row];
     sys_workers := [Working (item_of race_row); Sleeping] |}.



(** The scenario of the specification: the queue holds the root of the site,
    whose body has a title and one link. *)
Definition scenario_db : DB :=
  {| sites := [example_site]; sites_seq := 1;
     crawl_queue := [example_row 1 0 "https://example.com/"]; crawl_queue_seq := 1;
     pages := []; pages_seq := 0; page_links := []; page_links_seq := 0 |}.

Definition scenario_net : network :=
  fun _ _ url =>
    if (url =? "https://example.com/")%string
    then Response 200 "text/html; charset=utf-8"
           "<title>Hi</title><a href='/about'>About</a>" false
    else TransportError "no route".

(** A network that answers every request with a PDF. *)
Definition net_pdf : network := fun _ _ _ => Response 200 "application/pdf" "%PDF" false.

(** What a call of [pickAndProcessOne] leaves: its answer, the queue as
    (id, url, priority, status, attempts, next_try_at) and the titles of the
    pages. *)
Definition summary (o : outcome ((bool * option pgerr) * state))
  : option ((bool * option pgerr)
            * list (Z * string * Z * crawl_status * Z * option Z)
            * list (option string)) :=
  match o with
  | Returns (r, st) =>
      Some (r,
            map (fun q => (q_id q, q_url q, q_priority q, q_status q, q_attempts q,
                           q_next_try_at q)) (crawl_queue (st_db st)),
            map p_title (pages (st_db st)))
  | Panics => None
  end.

(** ** Hosts and digests *)

(** A byte of a host name that [normalizeHost] has nothing to do with: ASCII,
    no upper-case letter, no white space, no colon. *)
Definition plainHostByte (c : ascii) : bool :=
  negb (strings.RuneSelf c) && negb (strings.isUpper c) && negb (strings.asciiSpace c)
  && negb (c =? ":")%char.

Fixpoint allBytes (P : ascii -> bool) (s : string) : bool :=
  match s with
  | "" => true
  | String c s' => P c && allBytes P s'
  end.

(** A digit of the lower-case hexadecimal alphabet. *)
Definition isHexDigit (c : ascii) : bool :=
  let n := nat_of_ascii c in
  ((48 <=? n) && (n <=? 57) || (97 <=? n) && (n <=? 102))%nat.

(** ** The constraints of init.sql, as an invariant of the database *)

(** A [bigserial] primary key: the identifiers are distinct and each was
    given by the sequence. *)
Definition keyed {A : Type} (id : A -> Z) (rows : list A) (seq : Z) : Prop :=
  NoDup (map id rows) /\ forall r, In r rows -> (id r <= seq)%Z.

(** The columns of type [integer] of a site. *)
Definition site_row_ok (s : site_row) : Prop :=
  int4 (s_rps_limit s) = true /\ int4 (s_rps_burst s) = true
  /\ int4 (s_depth_limit s) = true.

(** [REFERENCES sites(id)] and the columns of type [integer] of a queue row. *)
Definition queue_row_ok (db : DB) (r : queue_row) : Prop :=
  site_exists db (q_site_id r) = true
  /\ int4 (q_priority r) = true /\ int4 (q_attempts r) = true.

(** [REFERENCES sites(id)], the two CHECKs and [http_status integer]. *)
Definition page_row_ok (db : DB) (p : page_row) : Prop :=
  site_exists db (p_site_id p) = true
  /\ check_lang (p_lang p) = true
  /\ check_content_type (p_content_type p) = true
  /\ match p_http_status p with
     | Some x => int4 x = true
     | None => True
     end.

(** [REFERENCES pages(id)] *)
Definition link_row_ok (db : DB) (l : link_row) : Prop :=
  page_exists db (l_from_page_id l) = true.

Definition page_keys (ps : list page_row) : list (Z * string) :=
  map (fun p => (p_site_id p, p_url_hash p)) ps.

Definition link_keys (ls : list link_row) : list (Z * string) :=
  map (fun l => (l_from_page_id l, l_to_url_hash l)) ls.

(** Every constraint of the four tables: primary keys, UNIQUE (domain),
    the partial unique index of the queue, UNIQUE (site_id, url_hash),
    UNIQUE (from_page_id, to_url_hash), the foreign keys, the CHECKs and the
    ranges of the integer columns. *)
Record schema_ok (db : DB) : Prop := {
  ok_sites_key : keyed s_id (sites db) (sites_seq db);
  ok_sites_domain : NoDup (map s_domain (sites db));
  ok_sites_rows : Forall site_row_ok (sites db);
  ok_queue_key : keyed q_id (crawl_queue db) (crawl_queue_seq db);
  ok_queue_active : unique_active (crawl_queue db);
  ok_queue_rows : Forall (queue_row_ok db) (crawl_queue db);
  ok_pages_key : keyed p_id (pages db) (pages_seq db);
  ok_pages_unique : NoDup (page_keys (pages db));
  ok_pages_rows : Forall (page_row_ok db) (pages db);
  ok_links_key : keyed l_id (page_links db) (page_links_seq db);
  ok_links_unique : NoDup (link_keys (page_links db));
  ok_links_rows : Forall (link_row_ok db) (page_links db)
}.

(** The item [i] is settled: it is a row of the table, every row that
    carries its identifier is done or error, and no worker holds it. *)
Definition settled (i : Z) (s : sys) : Prop :=
  (exists r, In r (sys_rows s) /\ q_id r = i)
  /\ (forall r, In r (sys_rows s) -> q_id r = i ->
        q_status r = StDone \/ q_status r = StError)
  /\ (forall w x, nth_error (sys_workers s) w = Some x -> holds x <> Some i).

(** The rows of an item. *)
Definition rows_of (i : Z) (rows : list queue_row) : list queue_row :=
  filter (fun r => (q_id r =? i)%Z) rows.

(** A scheme that [NewProxyPool] accepts. *)
Definition proxyScheme (u : URL) : bool :=
  (Scheme u =? "http") || (Scheme u =? "https") || (Scheme u =? "socks5").

(** ** The text left by the extraction *)

(** [s] begins with the encoding of a white-space character. *)
Definition leadSpace (s : string) : bool :=
  match s with
  | "" => false
  | String a s1 =>
      strings.asciiSpace a
      || match s1 with
         | "" => false
         | String b s2 =>
             strings.space2 a b
             || match s2 with
                | "" => false
                | String c _ => strings.space3 a b c
                end
         end
  end.

(** The same for a text read from its end. *)
Definition leadSpaceRev (s : string) : bool :=
  match s with
  | "" => false
  | String a s1 =>
      strings.asciiSpace a
      || match s1 with
         | "" => false
         | String b s2 =>
             strings.space2 b a
             || match s2 with
                | "" => false
                | String c _ => strings.space3 c b a
                end
         end
  end.

(** No tag of the pattern <[^>]+> stands in [s]. *)
Fixpoint tagless (s : string) : bool :=
  match s with
  | "" => true
  | String a s' => negb ((a =? "<")%char && opens_tag s') && tagless s'
  end.

(** White space in normal form: the only byte of the class \s is the space,
    and no two spaces stand side by side ([prev]: the byte before is one). *)
Fixpoint collapsed (prev : bool) (s : string) : bool :=
  match s with
  | "" => true
  | String a s' =>
      if regexp.space a then (a =? " ")%char && negb prev && collapsed true s'
      else collapsed false s'
  end.

(** ** logger.go and the sizes of config.go *)

(** Two more functions of Go's library taken as given. *)
Class GoText := {
  (** [strings.Map(unicode.ToUpper, s)]: the path [strings.ToUpper] takes
      for a string that holds a byte >= 0x80 *)
  unicode_ToUpper : string -> string;
  (** [fmt.Sscan(val, &n)] for an [int64]: the number read, [None] for an
      error *)
  fmt_Sscan : string -> option Z
}.

Definition isLower (c : ascii) : bool :=
  ((97 <=? nat_of_ascii c) && (nat_of_ascii c <=? 122))%nat.

(** [c -= 'a' - 'A'] for a lower-case ASCII letter *)
Definition upperByte (c : ascii) : ascii :=
  if isLower c then ascii_of_nat (nat_of_ascii c - 32) else c.

(** [strings.ToUpper]: byte-wise on an ASCII string, by Unicode's table
    otherwise. *)
Definition ToUpper `{GoText} (s : string) : string :=
  if strings.isASCII s then strings.mapBytes upperByte s else unicode_ToUpper s.

(** [slog.Level] *)
Inductive Level := LevelDebug | LevelInfo | LevelWarn | LevelError.

Section Logger.
Context `{GoLib} `{GoText}.

(** [parseLevel]; [None] is the nil pointer. *)
Definition parseLevel (s : string) : option Level :=
  let u := ToUpper s in
  if u =? "DEBUG" then Some LevelDebug
  else if u =? "INFO" then Some LevelInfo
  else if (u =? "WARN") || (u =? "WARNING") then Some LevelWarn
  else if u =? "ERROR" then Some LevelError
  else None.

Definition isTruthy (s : string) : bool :=
  let v := strings.ToLower (strings.TrimSpace s) in
  (v =? "1") || (v =? "true") || (v =? "yes") || (v =? "on").

(** What [newLoggerFromEnv] gives the handler it makes: the JSON handler or
    the text handler, the level and whether the source is added. *)
Record LoggerOptions := {
  log_json : bool;
  log_level : Level;
  log_source : bool
}.

(** [newLoggerFromEnv]; [getenv] is [os.Getenv], which gives the empty
    string for a variable that is not set. *)
Definition newLoggerFromEnv (getenv : string -> string) : LoggerOptions :=
  let lvl :=
    match parseLevel (strings.TrimSpace (getenv "CRAWLER_LOG_LEVEL")) with
    | Some l => l
    | None => if isTruthy (getenv "CRAWLER_DEBUG") then LevelDebug else LevelInfo
    end in
  let format := strings.ToLower (strings.TrimSpace (getenv "CRAWLER_LOG_FORMAT")) in
  let addSource := isTruthy (getenv "CRAWLER_LOG_SOURCE") in
  {| log_json := format =? "json"; log_level := lvl; log_source := addSource |}.

(** Multiplication on [int64] wraps around. *)
Definition int64_mul (a b : Z) : Z := ((a * b + 2 ^ 63) mod 2 ^ 64 - 2 ^ 63)%Z.

(** [parseByteSize] parses sizes like 2MB and 512KB; [None] is the error. *)
Definition parseByteSize (s : string) : option Z :=
  let ss := strings.TrimSpace (ToUpper s) in
  let '(mult, ss) :=
    if strings.HasSuffix ss "KB" then (1024%Z, strings.TrimSuffix ss "KB")
    else if strings.HasSuffix ss "MB" then ((1024 * 1024)%Z, strings.TrimSuffix ss "MB")
    else if strings.HasSuffix ss "GB" then ((1024 * 1024 * 1024)%Z, strings.TrimSuffix ss "GB")
    else if strings.HasSuffix ss "B" then (1%Z, strings.TrimSuffix ss "B")
    else (1%Z, ss) in
  let val := strings.TrimSpace ss in
  match fmt_Sscan val with
  | None => None
  | Some n => Some (int64_mul n mult)
  end.

End Logger.

(** The level a name stands for, the name in lower case. *)
Definition levelOfName (name : string) : option Level :=
  if name =? "debug" then Some LevelDebug
  else if name =? "info" then Some LevelInfo
  else if (name =? "warn") || (name =? "warning") then Some LevelWarn
  else if name =? "error" then Some LevelError
  else None.

(** An ASCII byte that is no letter: a digit, a sign, a blank. *)
Definition numByte (c : ascii) : bool :=
  negb (strings.RuneSelf c) && negb (strings.isUpper c) && negb (isLower c).

(** The factor a unit stands for, the unit in upper case. *)
Definition unitFactor (unit : string) : option Z :=
  if unit =? "" then Some 1%Z
  else if unit =? "B" then Some 1%Z
  else if unit =? "KB" then Some 1024%Z
  else if unit =? "MB" then Some 1048576%Z
  else if unit =? "GB" then Some 1073741824%Z
  else None.

(** ** More closed examples *)

(** The scenario after one call of [pickAndProcessOne]. *)
Definition scenario_after : state :=
  match pickAndProcessOne (H := exampleLib) (example_world scenario_net) example_cfg
          (example_state scenario_db) with
  | Returns (_, st) => st
  | Panics => example_state scenario_db
  end.

(** The example queue with the item 2 claimed and then marked done. *)
Definition example_done_db : DB := markQueueDone (example_conn 7000) example_claimed_db 2.

(** The site example.com as [ensureSite] makes it in a new database. *)
Definition example_ensured : (Z * option pgerr) * DB :=
  ensureSite (example_conn 1000) example_empty_db "example.com" example_cfg.

(** A pool of an HTTP proxy and a SOCKS5 proxy. *)
Definition example_proxies : ProxyPool :=
  {| rotation := "round_robin";
     proxies := [example_url "http" "proxy-a:8080" ""; example_url "socks5" "proxy-b:1080" ""];
     counter := 1 |}.

(** A decimal number at the head of a text, for [fmt.Sscan] in the examples. *)
Definition example_digit (c : ascii) : bool :=
  (48 <=? nat_of_ascii c)%nat && (nat_of_ascii c <=? 57)%nat.

Fixpoint example_digits (acc : Z) (s : string) : Z :=
  match s with
  | String c s' =>
      if example_digit c then example_digits (10 * acc + Z.of_nat (nat_of_ascii c) - 48)%Z s'
      else acc
  | "" => acc
  end.

Definition example_Sscan (s : string) : option Z :=
  match s with
  | String c _ => if example_digit c then Some (example_digits 0%Z s) else None
  | "" => None
  end.

Definition exampleText : GoText := {|
  unicode_ToUpper := fun s => s;
  fmt_Sscan := example_Sscan
|}.

(** An environment that sets the level only. *)
Definition example_getenv (key : string) : string :=
  if (key =? "CRAWLER_LOG_LEVEL")%string then " WARN " else "".

(** ** Links of the examples *)

(** The no-break space U+00A0 in UTF-8. *)
Definition nbsp : string := String "194" (String "160" "").

(** A page with a link whose host ends with a no-break space and a dot. *)
Definition example_nbsp_html : string :=
  "<a href='http://example.com" ++ nbsp ++ "./x'>x</a>".

(** A page of example.com with links to a subdomain, to two other domains
    and to a path of the site. *)
Definition example_links_html : string :=
  "<a href='https://sub.example.com/x'>s</a> <a href='https://evil.com/x'>e</a> "
  ++ "<a href='https://notexample.com/x'>n</a> <a href='/about'>a</a>".

(** [extractAndEnqueueLinks] for the stored page 7 of example.com, on
    connections that work. *)
Definition example_links (html : string) : (Z * Z * option string) * DB :=
  extractAndEnqueueLinks (H := exampleLib) (fun _ => example_conn 6002)
    (fun _ => example_conn 6003) example_pages_db 1 "example.com" 7
    "https://example.com/" html.

(** What the loop keeps when the enqueue statements go through: the site is
    there and every URL of [seen] is active in its queue. *)
Definition seen_active `{GoLib} (siteID : Z) (st : linkState) : Prop :=
  site_exists (ls_db st) siteID = true
  /\ forall s, In s (ls_seen st) ->
       has_active (crawl_queue (ls_db st)) siteID (sha256Hex s) = true.

(** ** Tactics *)

Ltac break_match_in H :=
  match type of H with
  | context [if ?b then _ else _] => destruct b eqn:?
  | context [match ?x with _ => _ end] => destruct x eqn:?
  end.

(** Split the conjunctions of the goal, and nothing else. *)
Ltac conjs := repeat match goal with |- _ /\ _ => split end.

(** * Properties *)

(** ** Strings *)

Lemma append_nil_r (s : string) : s ++ "" = s.
Proof. induction s as [|a s IH]; simpl; [reflexivity | now rewrite IH]. Qed.

Lemma append_assoc (a b c : string) : (a ++ b) ++ c = a ++ (b ++ c).
Proof. induction a as [|x a IH]; simpl; [reflexivity | now rewrite IH]. Qed.

Lemma length_append (a b : string) :
  String.length (a ++ b) = (String.length a + String.length b)%nat.
Proof. induction a as [|x a IH]; simpl; [reflexivity | now rewrite IH]. Qed.

Lemma take_drop (n : nat) (s : string) : strings.take n s ++ strings.drop n s = s.
Proof.
  revert s; induction n as [|n IH]; intros [|a s]; simpl; try reflexivity.
  now rewrite IH.
Qed.

Lemma drop_append (p s : string) : strings.drop (String.length p) (p ++ s) = s.
Proof. induction p as [|a p IH]; simpl; [reflexivity | exact IH]. Qed.

Lemma take_append (p s : string) : strings.take (String.length p) (p ++ s) = p.
Proof.
  induction p as [|a p IH]; simpl.
  - now destruct s.
  - now rewrite IH.
Qed.

Lemma length_take (n : nat) (s : string) :
  String.length (strings.take n s) = Nat.min n (String.length s).
Proof.
  revert s; induction n as [|n IH]; intros [|a s]; simpl; try reflexivity.
  now rewrite IH.
Qed.

Lemma prefix_iff (p s : string) :
  String.prefix p s = true <-> exists r, s = p ++ r.
Proof.
  revert s; induction p as [|a p IH]; intros s; simpl.
  - split; [intros _; now exists s | now destruct s].
  - destruct s as [|b s]; simpl.
    + split; [discriminate | intros [r Hr]; discriminate].
    + destruct (ascii_dec a b) as [->|Hne].
      * rewrite IH. split; intros [r Hr]; exists r; congruence.
      * split; [discriminate | intros [r Hr]; congruence].
Qed.

Lemma HasPrefix_iff (s p : string) :
  strings.HasPrefix s p = true <-> exists r, s = p ++ r.
Proof. apply prefix_iff. Qed.

Lemma HasSuffix_iff (s suf : string) :
  strings.HasSuffix s suf = true <-> exists p, s = p ++ suf.
Proof.
  unfold strings.HasSuffix. rewrite andb_true_iff, Nat.leb_le, String.eqb_eq.
  split.
  - intros [_ Hd].
    exists (strings.take (String.length s - String.length suf) s).
    pose proof (take_drop (String.length s - String.length suf) s) as E.
    rewrite Hd in E. now symmetry.
  - intros [p ->]. rewrite length_append. split; [lia|].
    replace (String.length p + String.length suf - String.length suf)%nat
      with (String.length p) by lia.
    apply drop_append.
Qed.

Section StringClaims.
Context `{GoLib}.

(** C7. [isAllowedContentType] answers true exactly when the allow-list is
    empty or the trimmed, lower-cased content type starts with some trimmed,
    lower-cased entry of the list. *)
Theorem isAllowedContentType_prefix_of_entry (ctype : string) (allow : list string) :
  isAllowedContentType ctype allow = true <->
  allow = [] \/
  exists a rest, In a allow /\
    strings.ToLower (strings.TrimSpace ctype)
    = strings.ToLower (strings.TrimSpace a) ++ rest.
Proof.
  unfold isAllowedContentType. destruct allow as [|a0 allow].
  - split; [now left | reflexivity].
  - rewrite existsb_exists. split.
    + intros [a [Hin Hp]]. right. apply HasPrefix_iff in Hp as [rest Hr].
      now exists a, rest.
    + intros [Hnil | [a [rest [Hin Hr]]]]; [discriminate|].
      exists a. split; [exact Hin|]. apply HasPrefix_iff. now exists rest.
Qed.

(** [isInDomain] on the lower-cased, trimmed host and domain. *)
Lemma isInDomain_iff (host siteDomain : string) :
  isInDomain host siteDomain = true <->
  let h := strings.ToLower (strings.TrimSpace host) in
  let d := strings.ToLower (strings.TrimSpace siteDomain) in
  h = d \/ exists p, h = p ++ "." ++ d.
Proof.
  unfold isInDomain. cbv zeta.
  set (h := strings.ToLower (strings.TrimSpace host)).
  set (d := strings.ToLower (strings.TrimSpace siteDomain)).
  destruct ((h =? d) || strings.HasSuffix h ("." ++ d)) eqn:E.
  - split; [intros _|reflexivity].
    apply orb_true_iff in E as [E|E].
    + left. now apply String.eqb_eq.
    + right. now apply HasSuffix_iff.
  - split; [discriminate|]. intros Hs. exfalso.
    apply orb_false_iff in E as [E1 E2].
    destruct Hs as [Hs|Hs].
    + apply String.eqb_neq in E1. contradiction.
    + apply HasSuffix_iff in Hs. congruence.
Qed.

End StringClaims.

(** ** Pages *)

Lemma find_map_update {A : Type} (f : A -> bool) (g : A -> A) (l : list A) :
  (forall x, f x = true -> f (g x) = true) ->
  List.find f (map (fun x => if f x then g x else x) l) = option_map g (List.find f l).
Proof.
  intros Hg. induction l as [|x l IH]; simpl; [reflexivity|].
  destruct (f x) eqn:E.
  - now rewrite (Hg x E).
  - now rewrite E.
Qed.

Section PageClaims.
Context `{GoLib}.

Lemma page_key_merge (siteID : Z) (h : string) (t : Z) (p e : page_row) :
  page_key siteID h p = true -> page_key siteID h (merge_page t p e) = true.
Proof. intros Hk. exact Hk. Qed.

(** C6, as amended.  When [upsertPage] succeeds for a key that already has a
    page, the stored title, description and language are replaced by the new
    values that are not empty and kept where the new value is empty; the
    text, the HTML, the status and the content type are always replaced by
    the new ones, the text also by an empty one. *)
Theorem upsertPage_keeps_title_description_lang_when_empty
    (c : conn) (db db' : DB) (siteID id : Z) (rawURL title description lang : string)
    (httpStatus : Z) (contentType html text : string) (p : page_row) :
  List.find (page_key siteID (sha256Hex rawURL)) (pages db) = Some p ->
  upsertPage c db siteID rawURL title description lang httpStatus contentType html text
    = ((id, None), db') ->
  exists p',
    List.find (page_key siteID (sha256Hex rawURL)) (pages db') = Some p'
    /\ id = p_id p /\ p_id p' = p_id p
    /\ p_title p' = (if (title =? "")%string then p_title p else Some title)
    /\ p_description p'
       = (if (description =? "")%string then p_description p else Some description)
    /\ p_lang p' = (if (lang =? "")%string then p_lang p else Some lang)
    /\ p_text p' = Some text
    /\ p_html p' = Some html
    /\ p_http_status p' = Some httpStatus
    /\ p_content_type p' = Some contentType.
Proof.
  intros Hfind Hup. unfold upsertPage in Hup.
  destruct (fails c); [discriminate|].
  destruct (negb (int4 httpStatus)); [discriminate|].
  cbv zeta in Hup. simpl p_lang in Hup. simpl p_content_type in Hup.
  destruct (negb (check_lang (NULLIF_empty lang) && check_content_type (Some contentType)));
    [discriminate|].
  rewrite Hfind in Hup. inversion Hup; subst id db'; clear Hup.
  eexists. split.
  - simpl pages.
    rewrite (find_map_update (page_key siteID (sha256Hex rawURL))
               (fun r => merge_page (now c) r _)).
    + rewrite Hfind. reflexivity.
    + intros x Hx. exact Hx.
  - simpl. unfold NULLIF_empty.
    repeat split; try reflexivity.
    + destruct (title =? "")%string; reflexivity.
    + destruct (description =? "")%string; reflexivity.
    + destruct (lang =? "")%string eqn:E; cbn; rewrite ?E; reflexivity.
Qed.

End PageClaims.

(** C6, the counterexample: the new fetch has an empty text and an empty
    title; the stored title stays, the stored text "Hi Hello" is replaced by
    the empty text. *)
Lemma upsertPage_empty_text_overwrites_stored_text :
  extractVisibleText "<p></p>" = ""
  /\ map p_text (pages example_pages_db) = [Some "Hi Hello"]
  /\ map p_text (pages (snd example_refetch)) = [Some ""]
  /\ map p_title (pages (snd example_refetch)) = [Some "Hi"].
Proof. vm_compute. repeat split. Qed.

(** The refetch of the example page: the title Hi stays, the text is replaced. *)
Lemma upsertPage_keeps_title_witness :
  exists p',
    List.find (page_key 1 (sha256Hex (H := exampleLib) "https://example.com/"))
      (pages (snd example_refetch)) = Some p'
    /\ 7%Z = p_id example_page /\ p_id p' = p_id example_page
    /\ p_title p' = (if ("" =? "")%string then p_title example_page else Some "")
    /\ p_description p'
       = (if ("" =? "")%string then p_description example_page else Some "")
    /\ p_lang p' = (if ("" =? "")%string then p_lang example_page else Some "")
    /\ p_text p' = Some ""
    /\ p_html p' = Some "<p></p>"
    /\ p_http_status p' = Some 200%Z
    /\ p_content_type p' = Some "text/html".
Proof.
  apply (upsertPage_keeps_title_description_lang_when_empty (H := exampleLib)
           (example_conn 2000) example_pages_db (snd example_refetch) 1 7
           "https://example.com/" "" "" "" 200 "text/html" "<p></p>" "" example_page).
  - reflexivity.
  - reflexivity.
Defined.

(** ** The enqueue statement and the handler *)

Section EnqueueFacts.
Context `{GoLib}.
Local Open Scope Z_scope.

Lemma insertIfNotExists_true (snapshot : list queue_row) (c : conn) (db db' : DB)
    (siteID : Z) (url urlHash : string) (priority : Z) (e : option pgerr) :
  insertIfNotExists snapshot c db siteID url urlHash priority = ((true, e), db') ->
  e = None
  /\ has_active snapshot siteID urlHash = false
  /\ has_active (crawl_queue db) siteID urlHash = false
  /\ crawl_queue db'
     = (crawl_queue db
        ++ [new_queue_row (crawl_queue_seq db + 1) c siteID url urlHash priority])%list.
Proof.
  unfold insertIfNotExists. intros Hi.
  repeat break_match_in Hi; try discriminate.
  inversion Hi; subst. auto.
Qed.

Lemma insertIfNotExists_false (snapshot : list queue_row) (c : conn) (db db' : DB)
    (siteID : Z) (url urlHash : string) (priority : Z) (e : option pgerr) :
  insertIfNotExists snapshot c db siteID url urlHash priority = ((false, e), db') ->
  crawl_queue db' = crawl_queue db.
Proof.
  unfold insertIfNotExists. intros Hi.
  repeat break_match_in Hi; try discriminate; inversion Hi; subst; reflexivity.
Qed.

Lemma ensureSite_crawl_queue (c : conn) (db : DB) (domain : string) (cfg : Config) :
  crawl_queue (snd (ensureSite c db domain cfg)) = crawl_queue db.
Proof.
  unfold ensureSite.
  repeat match goal with
         | |- context [if ?b then _ else _] => destruct b
         | |- context [match ?x with _ => _ end] => destruct x
         end; reflexivity.
Qed.

(** C10. When POST /api/enqueue answers that the URL was enqueued, the row
    it has put in the queue carries priority 0 if the body had no priority
    field, and the value of the field otherwise. *)
Theorem handleEnqueue_priority_default_zero
    (cs ce : conn) (cfg : Config) (req : EnqueueRequest) (db db' : DB)
    (v : EnqueueResponse) :
  handleEnqueue cs ce cfg "POST" (Some req) db = (HttpJSON 200 v, db') ->
  Enqueued v = true ->
  exists r,
    crawl_queue db' = (crawl_queue db ++ [r])%list
    /\ q_url r = resp_URL v
    /\ q_site_id r = resp_SiteID v
    /\ q_status r = StQueued
    /\ q_priority r = match req_Priority req with
                      | None => 0
                      | Some p => p
                      end.
Proof.
  intros Hh Henq. unfold handleEnqueue in Hh.
  simpl negb in Hh. cbv iota in Hh.
  repeat break_match_in Hh; try discriminate;
    inversion Hh; subst v db'; clear Hh; simpl in Henq; try discriminate.
  match goal with
  | He : enqueueIfNotExists _ _ _ _ _ _ = _ |- _ =>
      apply insertIfNotExists_true in He as (_ & _ & _ & Hq)
  end.
  match goal with
  | He : ensureSite ?c ?d ?h ?g = _ |- _ =>
      pose proof (ensureSite_crawl_queue c d h g) as Hs; rewrite He in Hs; simpl in Hs
  end.
  eexists. split.
  - rewrite Hq, Hs. reflexivity.
  - simpl. unfold priorityOf. destruct (req_Priority req); auto.
Qed.

End EnqueueFacts.

(** The request without a priority field, posted to a new database. *)
Lemma handleEnqueue_priority_witness :
  exists r,
    crawl_queue (snd example_enqueue) = (crawl_queue example_empty_db ++ [r])%list
    /\ q_url r = "https://example.com/"
    /\ q_site_id r = 1%Z
    /\ q_status r = StQueued
    /\ q_priority r = 0%Z.
Proof.
  apply (handleEnqueue_priority_default_zero (H := exampleLib)
           (example_conn 1000) (example_conn 1001) example_cfg example_request
           example_empty_db (snd example_enqueue)
           {| Enqueued := true; resp_SiteID := 1; resp_URL := "https://example.com/";
              resp_URLHash := sha256Hex (H := exampleLib) "https://example.com/";
              Message := "" |}).
  - vm_compute. reflexivity.
  - reflexivity.
Defined.

(** ** Deduplication of the queue *)

Lemma has_active_false_iff (rows : list queue_row) (siteID : Z) (urlHash : string) :
  has_active rows siteID urlHash = false <->
  forall r, In r rows -> same_key siteID urlHash r = true -> active r = false.
Proof.
  unfold has_active. split.
  - intros Hf r Hin Hk. destruct (active r) eqn:Ea; [|reflexivity].
    assert (existsb (fun r => same_key siteID urlHash r && active r) rows = true) as Ht.
    { apply existsb_exists. exists r. now rewrite Hk, Ea. }
    congruence.
  - intros Hall. destruct (existsb _ rows) eqn:E; [|reflexivity].
    apply existsb_exists in E as [r [Hin Hr]].
    apply andb_true_iff in Hr as [Hk Ha]. rewrite (Hall r Hin Hk) in Ha. discriminate.
Qed.

Lemma same_key_true (siteID : Z) (urlHash : string) (r : queue_row) :
  same_key siteID urlHash r = true <-> q_site_id r = siteID /\ q_url_hash r = urlHash.
Proof.
  unfold same_key. now rewrite andb_true_iff, Z.eqb_eq, String.eqb_eq.
Qed.

Lemma active_keys_app (l1 l2 : list queue_row) :
  active_keys (l1 ++ l2) = (active_keys l1 ++ active_keys l2)%list.
Proof. unfold active_keys. now rewrite filter_app, map_app. Qed.

Lemma not_in_active_keys (rows : list queue_row) (siteID : Z) (urlHash : string) :
  has_active rows siteID urlHash = false -> ~ In (siteID, urlHash) (active_keys rows).
Proof.
  intros Hf Hin. unfold active_keys in Hin.
  apply in_map_iff in Hin as [r [Hr Hin]]. apply filter_In in Hin as [Hin Ha].
  inversion Hr; subst.
  rewrite has_active_false_iff in Hf.
  assert (active r = false) as Hn.
  { apply Hf; [exact Hin|]. apply same_key_true. now split. }
  congruence.
Qed.

Lemma has_active_after_update (rows : list queue_row) (siteID : Z) (urlHash : string)
    (r0 : queue_row) (f : queue_row -> queue_row) :
  (forall r, active (f r) = false) ->
  (forall r, In r rows -> same_key siteID urlHash r = true -> active r = true ->
             q_id r = q_id r0) ->
  has_active (update_by_id (q_id r0) f rows) siteID urlHash = false.
Proof.
  intros Hf Honly. apply has_active_false_iff. intros x Hin Hk.
  unfold update_by_id in Hin. apply in_map_iff in Hin as [r [Hx Hin]].
  destruct (Z.eqb_spec (q_id r) (q_id r0)) as [E|E]; subst x.
  - apply Hf.
  - destruct (active r) eqn:Ea; [|reflexivity].
    exfalso. apply E. now apply Honly.
Qed.

Section Dedup.
Context `{GoLib}.
Local Open Scope Z_scope.

Lemma insertIfNotExists_inserts (snapshot : list queue_row) (c : conn) (db : DB)
    (siteID : Z) (url urlHash : string) (priority : Z) :
  fails c = false -> int4 priority = true -> site_exists db siteID = true ->
  has_active snapshot siteID urlHash = false ->
  has_active (crawl_queue db) siteID urlHash = false ->
  insertIfNotExists snapshot c db siteID url urlHash priority
  = ((true, None),
     set_crawl_queue db
       (crawl_queue db
        ++ [new_queue_row (crawl_queue_seq db + 1) c siteID url urlHash priority])%list
       (crawl_queue_seq db + 1)).
Proof.
  intros Hc Hp Hs Hsnap Hcur. unfold insertIfNotExists.
  now rewrite Hc, Hp, Hsnap, Hcur, Hs.
Qed.

Lemma insertIfNotExists_keeps_unique (snapshot : list queue_row) (c : conn) (db : DB)
    (siteID : Z) (url urlHash : string) (priority : Z) :
  unique_active (crawl_queue db) ->
  unique_active (crawl_queue (snd (insertIfNotExists snapshot c db siteID url urlHash priority))).
Proof.
  intros Hu.
  destruct (insertIfNotExists snapshot c db siteID url urlHash priority)
    as [[[|] e] db'] eqn:E; simpl.
  - apply insertIfNotExists_true in E as (_ & _ & Hcur & ->).
    unfold unique_active. rewrite active_keys_app.
    apply NoDup_app; [exact Hu | | ].
    + unfold active_keys. simpl. constructor; [intros []|constructor].
    + intros k Hk Hk'. unfold active_keys in Hk'. simpl in Hk'.
      destruct Hk' as [<-|[]]. revert Hk. now apply not_in_active_keys.
  - apply insertIfNotExists_false in E. now rewrite E.
Qed.

(** C2. [enqueueIfNotExists] for a site that exists, on a connection that
    works: with an active row of the same site and URL hash nothing is
    inserted and the answer is false; without one, one row is appended, queued
    and with no attempts, and the answer is true; once the one active row of
    the key is marked done or error the next call answers true again.  When
    other enqueues run at the same time, so that the subquery has read an
    older [snapshot] of the table: a row that is active when the new one would
    go in still stops it (the answer is false, by the unique index with an
    error); of two enqueues of the same URL that both read the table before
    either row is in, the first inserts and the second answers false; and the
    active rows never share a key. *)
Theorem enqueueIfNotExists_deduplicates (c : conn) (db : DB) (siteID : Z)
    (url urlHash : string) (priority : Z) :
  fails c = false -> int4 priority = true -> site_exists db siteID = true ->
  (has_active (crawl_queue db) siteID urlHash = true ->
     enqueueIfNotExists c db siteID url urlHash priority = ((false, None), db))
  /\ (has_active (crawl_queue db) siteID urlHash = false ->
      exists r db',
        enqueueIfNotExists c db siteID url urlHash priority = ((true, None), db')
        /\ crawl_queue db' = (crawl_queue db ++ [r])%list
        /\ q_status r = StQueued /\ q_attempts r = 0
        /\ q_site_id r = siteID /\ q_url_hash r = urlHash /\ q_url r = url
        /\ q_priority r = priority)
  /\ (forall (c' : conn) (r0 : queue_row) (msg : string) (retryAfter : Z),
        fails c' = false ->
        In r0 (crawl_queue db) ->
        (forall r, In r (crawl_queue db) -> same_key siteID urlHash r = true ->
                   active r = true -> q_id r = q_id r0) ->
        fst (fst (enqueueIfNotExists c (markQueueDone c' db (q_id r0))
                    siteID url urlHash priority)) = true
        /\ fst (fst (enqueueIfNotExists c (markQueueError c' db (q_id r0) msg retryAfter)
                       siteID url urlHash priority)) = true)
  /\ (forall snapshot,
        has_active (crawl_queue db) siteID urlHash = true ->
        exists e db',
          insertIfNotExists snapshot c db siteID url urlHash priority = ((false, e), db')
          /\ crawl_queue db' = crawl_queue db)
  /\ (forall (c2 : conn),
        fails c2 = false ->
        has_active (crawl_queue db) siteID urlHash = false ->
        exists r db1 db2,
          insertIfNotExists (crawl_queue db) c db siteID url urlHash priority
          = ((true, None), db1)
          /\ insertIfNotExists (crawl_queue db) c2 db1 siteID url urlHash priority
             = ((false, Some ErrUniqueViolation), db2)
          /\ crawl_queue db2 = (crawl_queue db ++ [r])%list)
  /\ (forall snapshot,
        unique_active (crawl_queue db) ->
        unique_active
          (crawl_queue (snd (insertIfNotExists snapshot c db siteID url urlHash priority)))).
Proof.
  intros Hc Hp Hs. split; [|split; [|split; [|split; [|split]]]].
  - intros Ha. unfold enqueueIfNotExists, insertIfNotExists. now rewrite Hc, Hp, Ha.
  - intros Ha. do 2 eexists. split.
    + unfold enqueueIfNotExists. now apply insertIfNotExists_inserts.
    + simpl. repeat split; reflexivity.
  - intros c' r0 msg retryAfter Hc' Hin Honly.
    unfold enqueueIfNotExists, markQueueDone, markQueueError. rewrite Hc'. split.
    + rewrite insertIfNotExists_inserts; auto; simpl;
        apply has_active_after_update; auto.
    + rewrite insertIfNotExists_inserts; auto; simpl;
        apply has_active_after_update; auto.
  - intros snapshot Ha. unfold insertIfNotExists. rewrite Hc, Hp.
    destruct (has_active snapshot siteID urlHash).
    + now exists None, db.
    + rewrite Ha. now eexists _, _.
  - intros c2 Hc2 Ha. do 3 eexists. split; [|split].
    + now apply insertIfNotExists_inserts.
    + unfold insertIfNotExists. rewrite Hc2, Hp, Ha. simpl negb. cbv iota.
      simpl crawl_queue. unfold has_active at 1. rewrite existsb_app. simpl existsb.
      unfold same_key at 2. simpl. rewrite Z.eqb_refl, String.eqb_refl. simpl.
      rewrite orb_true_r. reflexivity.
    + reflexivity.
  - intros snapshot. now apply insertIfNotExists_keeps_unique.
Qed.

End Dedup.

(** ** The claim of an item *)

Section ClaimFacts.
Local Open Scope Z_scope.

Lemma before_refl (a : queue_row) : before a a = true.
Proof.
  unfold before. rewrite Z.eqb_refl, Z.leb_refl. apply orb_true_r.
Qed.

Lemma before_iff (a b : queue_row) :
  before a b = true <->
  q_priority b < q_priority a \/ (q_priority a = q_priority b /\ q_id a <= q_id b).
Proof.
  unfold before. now rewrite orb_true_iff, andb_true_iff, Z.ltb_lt, Z.eqb_eq, Z.leb_le.
Qed.

Lemma before_trans (a b c : queue_row) :
  before a b = true -> before b c = true -> before a c = true.
Proof. rewrite !before_iff. lia. Qed.

Lemma before_total (a b : queue_row) :
  before a b = false -> before b a = true.
Proof.
  intros Hf. apply before_iff.
  destruct (before a b) eqn:E; [discriminate|].
  assert (~ (q_priority b < q_priority a
             \/ (q_priority a = q_priority b /\ q_id a <= q_id b))) as Hn.
  { intros Hc. apply before_iff in Hc. congruence. }
  lia.
Qed.

Lemma In_insert_row (x r : queue_row) (l : list queue_row) :
  In x (insert_row r l) <-> x = r \/ In x l.
Proof.
  induction l as [|y l IH]; simpl.
  - intuition.
  - destruct (before r y); simpl; [intuition|]. rewrite IH. intuition.
Qed.

Lemma In_order_by (x : queue_row) (l : list queue_row) :
  In x (order_by l) <-> In x l.
Proof.
  induction l as [|y l IH]; simpl; [reflexivity|].
  rewrite In_insert_row, IH. intuition.
Qed.

(** The first row of the ordered list is not after any other. *)
Lemma order_by_head (l : list queue_row) (r : queue_row) :
  hd_error (order_by l) = Some r ->
  In r l /\ forall x, In x l -> before r x = true.
Proof.
  revert r. induction l as [|a l IH]; intros r; simpl; [discriminate|].
  destruct (order_by l) as [|x s] eqn:E; simpl.
  - intros Hr. inversion Hr; subst a. split; [now left|].
    intros y [<-|Hy]; [apply before_refl|].
    apply In_order_by in Hy. rewrite E in Hy. destruct Hy.
  - destruct (IH x eq_refl) as [Hx Hmin].
    destruct (before a x) eqn:Hb; simpl; intros Hr; inversion Hr; subst r.
    + split; [now left|]. intros y [<-|Hy]; [apply before_refl|].
      apply (before_trans a x y); auto.
    + split; [now right|]. intros y [<-|Hy]; [now apply before_total|auto].
Qed.

Lemma order_by_empty (l : list queue_row) :
  hd_error (order_by l) = None -> l = [].
Proof.
  destruct l as [|a l]; [reflexivity|]. simpl.
  destruct (order_by l) as [|x s]; simpl; [discriminate|].
  destruct (before a x); discriminate.
Qed.

Lemma update_by_id_unique (f : queue_row -> queue_row) (r : queue_row)
    (l1 l2 : list queue_row) :
  NoDup (map q_id (l1 ++ r :: l2)) ->
  update_by_id (q_id r) f (l1 ++ r :: l2) = (l1 ++ f r :: l2)%list.
Proof.
  intros Hnd. unfold update_by_id. rewrite map_app. simpl. rewrite Z.eqb_refl.
  rewrite map_app in Hnd. simpl in Hnd.
  apply NoDup_remove_2 in Hnd.
  assert (forall l, ~ In (q_id r) (map q_id l) ->
                    map (fun x => if q_id x =? q_id r then f x else x) l = l) as Hsame.
  { induction l as [|x l IH]; simpl; [reflexivity|]. intros Hn.
    destruct (Z.eqb_spec (q_id x) (q_id r)) as [E|E]; [tauto|].
    rewrite IH; tauto. }
  rewrite !Hsame; [reflexivity| |]; intros Hin; apply Hnd, in_or_app; tauto.
Qed.

Lemma selectNext_some (t : Z) (locked : list Z) (rows : list queue_row) (r : queue_row) :
  selectNext t locked rows = Some r ->
  In r rows /\ eligible t r = true /\ is_locked locked r = false
  /\ forall x, In x rows -> eligible t x = true -> is_locked locked x = false ->
               before r x = true.
Proof.
  unfold selectNext. intros Hs. apply order_by_head in Hs as [Hin Hmin].
  apply filter_In in Hin as [Hin Hv]. apply andb_true_iff in Hv as [He Hl].
  apply negb_true_iff in Hl. repeat split; auto.
  intros x Hx Hex Hlx. apply Hmin. apply filter_In. split; [exact Hx|].
  now rewrite Hex, Hlx.
Qed.

Lemma selectNext_none (t : Z) (locked : list Z) (rows : list queue_row) :
  selectNext t locked rows = None ->
  forall x, In x rows -> eligible t x && negb (is_locked locked x) = false.
Proof.
  unfold selectNext. intros Hs x Hx. apply order_by_empty in Hs.
  destruct (eligible t x && negb (is_locked locked x)) eqn:E; [|reflexivity].
  assert (In x (filter (fun r => eligible t r && negb (is_locked locked r)) rows)) as Hin.
  { apply filter_In. now split. }
  rewrite Hs in Hin. destruct Hin.
Qed.

Lemma updToProcessing_fits (t id : Z) (rows : list queue_row) :
  (forall r, In r rows -> int4 (q_attempts r + 1) = true) ->
  updToProcessing t id rows = Some (update_by_id id (set_processing t) rows).
Proof.
  intros Hall. unfold updToProcessing.
  replace (forallb _ rows) with true; [reflexivity|].
  symmetry. apply forallb_forall. intros r Hr. rewrite (Hall r Hr). apply orb_true_r.
Qed.

End ClaimFacts.

Section ClaimClaims.
Context `{GoLib}.
Local Open Scope Z_scope.

Lemma visible_unlocked (tx : txctx) (r : queue_row) :
  tx_locked tx = [] -> visible tx r = eligible (tx_now tx) r.
Proof. intros Hl. unfold visible, is_locked. rewrite Hl. simpl. apply andb_true_r. Qed.

(** C1. On a connection that works, with the identifiers distinct (primary
    key) and the attempt counts below the bound of the column:
    either no row is queued, due and unlocked, and [pickAndProcessOne]
    returns false without an error and changes nothing; or the claim takes
    one such row [r], which has the highest priority among them and the
    smallest id among those of that priority, and commits the table in which
    exactly this row has become processing with one attempt more; the rest of
    [pickAndProcessOne] runs on that table. *)
Theorem pickAndProcessOne_claims_best_eligible (w : world) (cfg : Config) (st : state) :
  begin_fails (w_tx w) = false -> select_fails (w_tx w) = false ->
  update_fails (w_tx w) = false -> commit_fails (w_tx w) = false ->
  NoDup (map q_id (crawl_queue (st_db st))) ->
  (forall r, In r (crawl_queue (st_db st)) -> int4 (q_attempts r + 1) = true) ->
  ((forall r, In r (crawl_queue (st_db st)) -> visible (w_tx w) r = false)
   /\ pickAndProcessOne w cfg st = Returns ((false, None), st))
  \/
  (exists r l1 l2 db',
      crawl_queue (st_db st) = (l1 ++ r :: l2)%list
      /\ q_status r = StQueued
      /\ visible (w_tx w) r = true
      /\ (forall r', In r' (crawl_queue (st_db st)) -> visible (w_tx w) r' = true ->
            q_priority r' < q_priority r
            \/ (q_priority r' = q_priority r /\ q_id r <= q_id r'))
      /\ claimTx (w_tx w) (st_db st) = ((Some (item_of r), None), db')
      /\ crawl_queue db' = (l1 ++ set_processing (tx_now (w_tx w)) r :: l2)%list
      /\ q_status (set_processing (tx_now (w_tx w)) r) = StProcessing
      /\ q_attempts (set_processing (tx_now (w_tx w)) r) = q_attempts r + 1
      /\ sites db' = sites (st_db st) /\ pages db' = pages (st_db st)
      /\ page_links db' = page_links (st_db st)
      /\ pickAndProcessOne w cfg st
         = match processItem w cfg (item_of r) (set_db st db') with
           | Returns st' => Returns ((true, None), st')
           | Panics => Panics
           end).
Proof.
  intros Hb Hs Hu Hc Hnd Hatt.
  unfold pickAndProcessOne, claimTx. rewrite Hb, Hs.
  destruct (selectNext (tx_now (w_tx w)) (tx_locked (w_tx w)) (crawl_queue (st_db st)))
    as [r|] eqn:Hsel.
  - right. apply selectNext_some in Hsel as (Hin & Hel & Hlk & Hmin).
    destruct (in_split _ _ Hin) as (l1 & l2 & Hrows).
    rewrite Hu. simpl ID.
    rewrite (updToProcessing_fits _ _ _ Hatt), Hc.
    exists r, l1, l2. eexists. split; [exact Hrows|].
    split.
    { unfold eligible in Hel. destruct (q_status r); try discriminate. reflexivity. }
    split; [unfold visible; now rewrite Hel, Hlk|].
    split.
    { intros r' Hr' Hv. unfold visible in Hv. apply andb_true_iff in Hv as [He' Hl'].
      apply negb_true_iff in Hl'. specialize (Hmin r' Hr' He' Hl').
      apply before_iff in Hmin. lia. }
    split; [reflexivity|]. split.
    { simpl. rewrite Hrows in Hnd |- *. now apply update_by_id_unique. }
    repeat split; reflexivity.
  - left. split.
    + intros r Hr. unfold visible. now apply (selectNext_none _ _ _ Hsel).
    + reflexivity.
Qed.

End ClaimClaims.

(** The queue of three rows: the row 2 is claimed, the older of the two of
    priority 5. *)
Lemma pickAndProcessOne_claims_witness :
  fst (fst (claimTx (example_tx 5000) example_queue_db))
  = Some {| ID := 2; SiteID := 1; URL_ := "https://example.com/b" |}.
Proof.
  destruct (pickAndProcessOne_claims_best_eligible (H := exampleLib)
              (example_world net_timeout) example_cfg (example_state example_queue_db)
              eq_refl eq_refl eq_refl eq_refl)
    as [[Hnone _] | (r & l1 & l2 & db' & Hrows & Hq & Hv & Hbest & Hclaim & _)].
  - repeat constructor; simpl; intuition discriminate.
  - intros r [<-|[<-|[<-|[]]]]; reflexivity.
  - exfalso. specialize (Hnone (example_row 1 0 "https://example.com/a")).
    simpl in Hnone. discriminate Hnone. now left.
  - reflexivity.
Defined.

(** ** Errors and their backoff *)

Section ErrorClaims.
Context `{GoLib}.
Local Open Scope Z_scope.

Lemma markQueueError_backed_off (c : conn) (db : DB) (id : Z) (msg : string)
    (retryAfter : Z) :
  fails c = false ->
  backed_off id (now c + interval_of retryAfter) (crawl_queue db)
    (crawl_queue (markQueueError c db id msg retryAfter))
  /\ pages (markQueueError c db id msg retryAfter) = pages db.
Proof.
  intros Hc. unfold markQueueError. rewrite Hc. simpl. split; [|reflexivity].
  unfold backed_off, update_by_id. split; [apply length_map|].
  intros n r Hn. rewrite nth_error_map, Hn. simpl. eexists. split; [reflexivity|].
  destruct (q_id r =? id); simpl; auto 10.
Qed.

Lemma upsertPage_error_pages (c : conn) (db db1 : DB) (siteID : Z)
    (rawURL title description lang : string) (httpStatus : Z)
    (contentType html text : string) (x : Z) (e : pgerr) :
  upsertPage c db siteID rawURL title description lang httpStatus contentType html text
    = ((x, Some e), db1) ->
  pages db1 = pages db /\ crawl_queue db1 = crawl_queue db.
Proof.
  unfold upsertPage. intros Hu.
  repeat break_match_in Hu; try discriminate; inversion Hu; subst; auto.
Qed.

(** What [fetchHTML] reports as an error. *)
Lemma fetchHTML_error (net : network) (client : http_Client) (target : string)
    (maxBytes : Z) (userAgent : string) :
  snd (fetchHTML net client target maxBytes userAgent) <> None <->
  match net client userAgent target with
  | TransportError _ => True
  | Response status _ body broken =>
      status < 200 \/ 400 <= status
      \/ (broken = true /\ Z.of_nat (String.length body) < maxBytes)
  end.
Proof.
  unfold fetchHTML. destruct (net client userAgent target) as [e|s ct body broken].
  - simpl. split; [trivial | discriminate].
  - destruct (s <? 200) eqn:E1; [simpl; split; [lia | discriminate]|].
    destruct (400 <=? s) eqn:E2; [simpl; split; [lia | discriminate]|].
    simpl orb. cbv iota.
    destruct (broken && (Z.of_nat (String.length body) <? maxBytes)) eqn:E3; simpl.
    + split; [|discriminate]. intros _. apply andb_true_iff in E3 as [-> E3]. lia.
    + split; [congruence|]. intros [?|[?|[-> Hl]]]; simpl in E3; lia.
Qed.

(** C3. For an item [it] that has been claimed, when the final UPDATE of its
    status goes through: if the fetch fails (the request fails or times out,
    the status is outside 200..399, or the body breaks off) the item is
    marked error and due 5 minutes after that UPDATE; if the content type is
    not allowed it is marked error and due after 30 minutes, and no page is
    written; if [upsertPage] fails it is marked error and due after 10
    minutes.  The delay does not depend on the row: its attempt count is left
    as it is and does not enter the new next_try_at. *)
Theorem processItem_error_backoff (w : world) (cfg : Config) (it : queueItem)
    (st : state) (proxyURL : option URL) (pool : ProxyPool) :
  fails (w_mark w) = false ->
  Next (st_pool st) = Returns (proxyURL, pool) ->
  let client := buildHTTPClient proxyURL (HTMLFetchTimeout (Crawler cfg)) in
  let fetched := fetchHTML (w_net w) client (URL_ it) (HTMLMaxSize (Crawler cfg))
                   (UserAgent (Crawler cfg)) in
  let t := now (w_mark w) in
  let rows := crawl_queue (st_db st) in
  (snd fetched <> None <->
   match w_net w client (UserAgent (Crawler cfg)) (URL_ it) with
   | TransportError _ => True
   | Response status _ body broken =>
       status < 200 \/ 400 <= status
       \/ (broken = true /\ Z.of_nat (String.length body) < HTMLMaxSize (Crawler cfg))
   end)
  /\ (forall e, snd fetched = Some e ->
        exists st', processItem w cfg it st = Returns st'
          /\ backed_off (ID it) (t + 300000000) rows (crawl_queue (st_db st'))
          /\ pages (st_db st') = pages (st_db st))
  /\ (forall status ctype html,
        fetched = (status, ctype, html, None) ->
        isAllowedContentType ctype (ContentTypes (Crawler cfg)) = false ->
        exists st', processItem w cfg it st = Returns st'
          /\ backed_off (ID it) (t + 1800000000) rows (crawl_queue (st_db st'))
          /\ pages (st_db st') = pages (st_db st))
  /\ (forall status ctype html x e db1,
        fetched = (status, ctype, html, None) ->
        isAllowedContentType ctype (ContentTypes (Crawler cfg)) = true ->
        upsertPage (w_upsert w) (st_db st) (SiteID it) (URL_ it) (extractTitle html)
          (extractMetaDescription html) "" status ctype html (extractVisibleText html)
          = ((x, Some e), db1) ->
        exists st', processItem w cfg it st = Returns st'
          /\ backed_off (ID it) (t + 600000000) rows (crawl_queue (st_db st'))
          /\ pages (st_db st') = pages (st_db st)).
Proof.
  intros Hm Hnext client fetched t rows.
  split; [apply fetchHTML_error|].
  assert (forall msg d db, crawl_queue db = rows ->
            backed_off (ID it) (t + interval_of d) rows
              (crawl_queue (markQueueError (w_mark w) db (ID it) msg d))
            /\ pages (markQueueError (w_mark w) db (ID it) msg d) = pages db) as Hmark.
  { intros msg d db <-. now apply markQueueError_backed_off. }
  split; [|split].
  - intros e He. unfold processItem.
    destruct (getHostLimiter _ _ _ _) as [lim limiters]. rewrite Hnext.
    fold client. fold fetched.
    destruct fetched as [[[s ct] html] err]. simpl in He. subst err.
    eexists. split; [reflexivity|]. simpl st_db.
    destruct (Hmark ("fetch: " ++ e)%string (5 * Minute) (st_db st) eq_refl) as [Hb Hp].
    split; [exact Hb | exact Hp].
  - intros s ct html Hf Hct. unfold processItem.
    destruct (getHostLimiter _ _ _ _) as [lim limiters]. rewrite Hnext.
    fold client. fold fetched. rewrite Hf, Hct. simpl negb. cbv iota.
    eexists. split; [reflexivity|]. simpl st_db.
    destruct (Hmark ("content-type not allowed: " ++ ct)%string (30 * Minute)
                (st_db st) eq_refl) as [Hb Hp].
    split; [exact Hb | exact Hp].
  - intros s ct html x e db1 Hf Hct Hup. unfold processItem.
    destruct (getHostLimiter _ _ _ _) as [lim limiters]. rewrite Hnext.
    fold client. fold fetched. rewrite Hf, Hct. simpl negb. cbv iota. cbv zeta.
    rewrite Hup.
    destruct (upsertPage_error_pages _ _ _ _ _ _ _ _ _ _ _ _ _ _ Hup) as [Hp1 Hq1].
    eexists. split; [reflexivity|]. simpl st_db.
    destruct (Hmark ("store: " ++ pgerr_text e)%string (10 * Minute) db1 Hq1) as [Hb Hp].
    split; [exact Hb | exact (eq_trans Hp Hp1)].
Qed.

End ErrorClaims.

(** The item 2 of the example queue, on a network that times out. *)
Lemma processItem_error_backoff_witness :
  exists st',
    processItem (H := exampleLib) (example_world net_timeout) example_cfg example_item
      (example_state example_claimed_db) = Returns st'
    /\ backed_off 2 (7000 + 300000000) (crawl_queue example_claimed_db)
         (crawl_queue (st_db st'))
    /\ pages (st_db st') = pages example_claimed_db.
Proof.
  apply (proj1 (proj2 (processItem_error_backoff (H := exampleLib)
                         (example_world net_timeout) example_cfg example_item
                         (example_state example_claimed_db) None example_pool
                         eq_refl eq_refl)) "timeout"%string).
  reflexivity.
Defined.

(** ** The proxy pool *)

Section ProxyClaims.
Local Open Scope Z_scope.

Lemma int_index (k : Z) :
  1 <= k <= 2 ^ 63 -> int_sub (int_of_uint64 (AddUint64 (k - 1) 1)) 1 = k - 1.
Proof.
  intros Hk. unfold AddUint64, int_sub, int_of_uint64.
  assert (2 ^ 63 = 9223372036854775808) as E63 by reflexivity.
  assert (2 ^ 64 = 18446744073709551616) as E64 by reflexivity.
  rewrite E63 in *. rewrite E64.
  replace (k - 1 + 1) with k by lia.
  rewrite (Z.mod_small k) by lia.
  destruct (k <? 9223372036854775808) eqn:E.
  - apply Z.ltb_lt in E. rewrite Z.mod_small; lia.
  - apply Z.ltb_ge in E. assert (k = 9223372036854775808) as -> by lia.
    reflexivity.
Qed.

Lemma Next_at (rot : string) (ps : list URL) (k : Z) :
  ps <> [] -> 1 <= k <= 2 ^ 63 ->
  Next {| rotation := rot; proxies := ps; counter := k - 1 |}
  = Returns (nth_error ps (Z.to_nat ((k - 1) mod Z.of_nat (List.length ps))),
             {| rotation := rot; proxies := ps; counter := k |}).
Proof.
  intros Hne Hk. unfold Next. simpl proxies. simpl counter. simpl rotation.
  destruct ps as [|u0 ps0] eqn:Eps; [congruence|]. rewrite <- Eps in *.
  unfold Len. simpl proxies.
  assert (0 < Z.of_nat (List.length ps)) as Hn by (rewrite Eps; simpl; lia).
  rewrite (int_index k Hk).
  rewrite Z.rem_mod_nonneg by lia.
  pose proof (Z.mod_pos_bound (k - 1) (Z.of_nat (List.length ps)) Hn) as Hb.
  destruct (_ <? 0) eqn:E; [apply Z.ltb_lt in E; lia|].
  destruct (nth_error ps (Z.to_nat ((k - 1) mod Z.of_nat (List.length ps)))) as [u|] eqn:En.
  - f_equal. f_equal. f_equal. unfold AddUint64.
    replace (k - 1 + 1) with k by lia. apply Z.mod_small.
    assert (2 ^ 63 < 2 ^ 64) by reflexivity. lia.
  - apply nth_error_None in En. lia.
Qed.

(** C8. [Next] on an empty pool returns no proxy.  On a pool of n > 0
    proxies the k-th call, for k from 1 up to 2^63 (where the counter read as
    an int is still in step with the number of calls), returns the proxy at
    index (k-1) mod n; so k calls in a row on a new pool return the proxies
    in rotation, and with three proxies four calls return the first, the
    second, the third and the first again. *)
Theorem Next_round_robin :
  (forall p, proxies p = [] -> Next p = Returns (None, p))
  /\ (forall rot ps k, ps <> [] -> 1 <= k <= 2 ^ 63 ->
        Next {| rotation := rot; proxies := ps; counter := k - 1 |}
        = Returns (nth_error ps (Z.to_nat ((k - 1) mod Z.of_nat (List.length ps))),
                   {| rotation := rot; proxies := ps; counter := k |}))
  /\ (forall rot ps (k : nat), ps <> [] -> Z.of_nat k <= 2 ^ 63 ->
        callNext k {| rotation := rot; proxies := ps; counter := 0 |}
        = Returns (map (fun j => nth_error ps (j mod List.length ps)) (seq 0 k),
                   {| rotation := rot; proxies := ps; counter := Z.of_nat k |}))
  /\ (forall rot p1 p2 p3,
        callNext 4 {| rotation := rot; proxies := [p1; p2; p3]; counter := 0 |}
        = Returns ([Some p1; Some p2; Some p3; Some p1],
                   {| rotation := rot; proxies := [p1; p2; p3]; counter := 4 |})).
Proof.
  assert (forall rot ps (k : nat), ps <> [] -> Z.of_nat k <= 2 ^ 63 ->
            callNext k {| rotation := rot; proxies := ps; counter := 0 |}
            = Returns (map (fun j => nth_error ps (j mod List.length ps)) (seq 0 k),
                       {| rotation := rot; proxies := ps; counter := Z.of_nat k |})) as Hcalls.
  { intros rot ps k Hne. induction k as [|k IH]; intros Hk; [reflexivity|].
    simpl callNext. rewrite IH by lia.
    assert (Z.of_nat k = Z.of_nat (S k) - 1) as Hk1 by lia.
    rewrite Hk1, Next_at by (try lia; assumption).
    rewrite <- Hk1, seq_S, map_app. cbn [map Nat.add].
    replace (Z.to_nat (Z.of_nat k mod Z.of_nat (List.length ps)))
      with (k mod List.length ps)%nat; [reflexivity|].
    destruct ps as [|u ps]; [congruence|].
    rewrite <- Nat2Z.inj_mod. now rewrite Nat2Z.id. }
  split; [|split; [|split]].
  - intros p Hp. unfold Next. now rewrite Hp.
  - intros rot ps k. apply Next_at.
  - exact Hcalls.
  - intros rot p1 p2 p3. rewrite Hcalls; [reflexivity|discriminate|].
    assert (0 < 2 ^ 63) by reflexivity. simpl Z.of_nat. 
    assert (2 ^ 63 = 9223372036854775808) as -> by reflexivity. lia.
Qed.

End ProxyClaims.

(** Three proxies, the fourth call. *)
Lemma Next_round_robin_witness :
  Next
    {| rotation := "round_robin";
       proxies := [example_url "http" "proxy-1" ""; example_url "http" "proxy-2" "";
                   example_url "http" "proxy-3" ""];
       counter := 4 - 1 |}
  = Returns (Some (example_url "http" "proxy-1" ""),
             {| rotation := "round_robin";
                proxies := [example_url "http" "proxy-1" ""; example_url "http" "proxy-2" "";
                            example_url "http" "proxy-3" ""];
                counter := 4 |}).
Proof.
  apply (proj1 (proj2 Next_round_robin) "round_robin"%string
           [example_url "http" "proxy-1" ""; example_url "http" "proxy-2" "";
            example_url "http" "proxy-3" ""] 4%Z).
  - discriminate.
  - split; [lia|]. assert (2 ^ 63 = 9223372036854775808)%Z as -> by reflexivity. lia.
Defined.

(** The counter past 2^63: read as an int it is negative, the remainder is
    negative for a pool of three, and the index panics. *)
Lemma Next_counter_overflow (p1 p2 p3 : URL) :
  Next {| rotation := "round_robin"; proxies := [p1; p2; p3]; counter := 2 ^ 63 |} = Panics.
Proof. reflexivity. Qed.

(** ** Mutual exclusion of the workers *)

Section RaceFacts.
Local Open Scope Z_scope.

Lemma nth_error_set_nth {A : Type} (l : list A) (w w' : nat) (x old : A) :
  nth_error l w = Some old ->
  nth_error (set_nth w x l) w' = if Nat.eqb w' w then Some x else nth_error l w'.
Proof.
  revert w w'. induction l as [|y l IH]; intros [|w] [|w'] Hw; simpl in *;
    try discriminate; try reflexivity.
  now apply IH.
Qed.

Lemma In_set_nth {A : Type} (l : list A) (w : nat) (x y : A) :
  In y (set_nth w x l) -> y = x \/ In y l.
Proof.
  revert w. induction l as [|z l IH]; intros [|w]; simpl; try tauto.
  - intros [<-|Hy]; auto.
  - intros [<-|Hy]; auto. destruct (IH w Hy); auto.
Qed.

Lemma length_set_nth {A : Type} (l : list A) (w : nat) (x : A) :
  List.length (set_nth w x l) = List.length l.
Proof.
  revert w. induction l as [|z l IH]; intros [|w]; simpl; auto.
Qed.

Lemma In_locks (ws : list wstate) (i : Z) :
  In i (locks ws) <-> exists w r t, nth_error ws w = Some (Selected r t) /\ q_id r = i.
Proof.
  unfold locks. rewrite in_flat_map. split.
  - intros [s [Hs Hi]]. apply In_nth_error in Hs as [w Hw].
    destruct s; simpl in Hi; try tauto. destruct Hi as [<-|[]]. now exists w, r, t.
  - intros (w & r & t & Hw & <-). exists (Selected r t). split.
    + now apply nth_error_In in Hw.
    + now left.
Qed.

Lemma is_locked_true (locked : list Z) (r : queue_row) :
  is_locked locked r = true <-> In (q_id r) locked.
Proof.
  unfold is_locked. rewrite existsb_exists. split.
  - intros [i [Hi E]]. apply Z.eqb_eq in E. now subst.
  - intros Hi. exists (q_id r). split; [exact Hi | apply Z.eqb_refl].
Qed.

Lemma In_update_by_id (id : Z) (f : queue_row -> queue_row) (rows : list queue_row)
    (x : queue_row) :
  In x (update_by_id id f rows) ->
  In x rows \/ exists r, In r rows /\ q_id r = id /\ x = f r.
Proof.
  unfold update_by_id. intros Hx. apply in_map_iff in Hx as [r [Hr Hin]].
  destruct (Z.eqb_spec (q_id r) id); subst x; [right; now exists r | now left].
Qed.

Lemma update_by_id_keeps_ids (id : Z) (f : queue_row -> queue_row)
    (rows : list queue_row) (i : Z) :
  (forall r, q_id (f r) = q_id r) ->
  (exists x, In x rows /\ q_id x = i) ->
  exists x, In x (update_by_id id f rows) /\ q_id x = i.
Proof.
  intros Hf [x [Hx Hi]]. unfold update_by_id.
  exists (if q_id x =? id then f x else x). split.
  - apply in_map_iff. now exists x.
  - destruct (q_id x =? id); [now rewrite Hf | exact Hi].
Qed.

Lemma exclusive_drop (rows rows' : list queue_row) (ws : list wstate) (w : nat)
    (x old : wstate) :
  nth_error ws w = Some old ->
  (forall i, holds x = Some i -> holds old = Some i) ->
  exclusive {| sys_rows := rows; sys_workers := ws |} ->
  exclusive {| sys_rows := rows'; sys_workers := set_nth w x ws |}.
Proof.
  intros Hw Hx Hex w1 w2 i. simpl.
  rewrite !(nth_error_set_nth ws w _ x old Hw).
  intros H1 H2. apply (Hex w1 w2 i); simpl.
  - destruct (Nat.eqb_spec w1 w) as [->|]; [|exact H1].
    rewrite Hw. simpl in *. inversion H1. now rewrite (Hx i).
  - destruct (Nat.eqb_spec w2 w) as [->|]; [|exact H2].
    rewrite Hw. simpl in *. inversion H2. now rewrite (Hx i).
Qed.

End RaceFacts.

Section RaceInvariant.
Local Open Scope Z_scope.

Lemma In_update_by_id_cases (id : Z) (f : queue_row -> queue_row)
    (rows : list queue_row) (x : queue_row) :
  In x (update_by_id id f rows) ->
  (In x rows /\ q_id x <> id) \/ exists r, In r rows /\ q_id r = id /\ x = f r.
Proof.
  unfold update_by_id. intros Hx. apply in_map_iff in Hx as [r [Hr Hin]].
  destruct (Z.eqb_spec (q_id r) id); subst x; [right; now exists r | now left].
Qed.

Lemma inv_workers_change (rows : list queue_row) (ws : list wstate) (w : nat)
    (x old : wstate) :
  nth_error ws w = Some old ->
  (forall i, holds x = Some i -> holds old = Some i) ->
  (forall it, x <> Working it) ->
  race_inv {| sys_rows := rows; sys_workers := ws |} ->
  race_inv {| sys_rows := rows; sys_workers := set_nth w x ws |}.
Proof.
  intros Hw Hx Hnw (I1 & I2 & I3). split; [|split]; simpl in *.
  - intros w' it. rewrite (nth_error_set_nth ws w w' x old Hw).
    destruct (Nat.eqb_spec w' w); [intros E; inversion E; now elim (Hnw it)|].
    apply I1.
  - intros w' y i. rewrite (nth_error_set_nth ws w w' x old Hw).
    destruct (Nat.eqb_spec w' w); [|apply I2].
    intros E Hy. inversion E; subst y. apply (I2 w old i Hw). now apply Hx.
  - now apply (exclusive_drop rows rows ws w x old).
Qed.

Lemma inv_update (rows : list queue_row) (ws : list wstate) (w : nat)
    (x old : wstate) (id : Z) (f : queue_row -> queue_row) :
  nth_error ws w = Some old ->
  (forall i, holds x = Some i -> holds old = Some i) ->
  (forall r, q_id (f r) = q_id r) ->
  (forall r, q_status (f r) <> StQueued) ->
  (forall it, x = Working it -> ID it = id) ->
  race_inv {| sys_rows := rows; sys_workers := ws |} ->
  race_inv {| sys_rows := update_by_id id f rows; sys_workers := set_nth w x ws |}.
Proof.
  intros Hw Hx Hid Hst Hwk (I1 & I2 & I3). split; [|split]; simpl in *.
  - intros w' it. rewrite (nth_error_set_nth ws w w' x old Hw).
    intros Hn r Hr Hi.
    apply In_update_by_id_cases in Hr as [[Hr Hne]|(r0 & Hr0 & Hr0id & ->)];
      [|apply Hst].
    destruct (Nat.eqb_spec w' w).
    + inversion Hn; subst x. elim Hne. rewrite Hi. now apply Hwk.
    + now apply (I1 w' it Hn).
  - intros w' y i. rewrite (nth_error_set_nth ws w w' x old Hw).
    intros Hn Hy. apply update_by_id_keeps_ids; [exact Hid|].
    destruct (Nat.eqb_spec w' w).
    + inversion Hn; subst y. apply (I2 w old i Hw). now apply Hx.
    + now apply (I2 w' y i).
  - now apply (exclusive_drop rows _ ws w x old).
Qed.

Lemma step_keeps_inv (s s' : sys) : step s s' -> race_inv s -> race_inv s'.
Proof.
  intros Hstep Hinv. destruct Hstep.
  - (* select *)
    destruct Hinv as (I1 & I2 & I3). simpl in *.
    apply selectNext_some in H0 as (Hin & Hel & Hlk & _).
    assert (q_status r = StQueued) as Hq.
    { unfold eligible in Hel. destruct (q_status r); try discriminate. reflexivity. }
    assert (forall w' x, nth_error ws w' = Some x -> holds x <> Some (q_id r)) as Hfree.
    { intros w' x Hx Hh. destruct x as [|r2 t2|it|]; simpl in Hh; try discriminate.
      - inversion Hh as [E].
        assert (is_locked (locks ws) r = true) as Hl.
        { apply is_locked_true, In_locks. now exists w', r2, t2. }
        congruence.
      - inversion Hh as [E]. now apply (I1 w' it Hx r Hin). }
    split; [|split]; simpl.
    + intros w' it. rewrite (nth_error_set_nth ws w w' _ Idle H).
      destruct (Nat.eqb_spec w' w); [discriminate|]. apply I1.
    + intros w' y i. rewrite (nth_error_set_nth ws w w' _ Idle H).
      destruct (Nat.eqb_spec w' w); [|apply I2].
      intros E Hy. inversion E; subst y. simpl in Hy. inversion Hy; subst i.
      now exists r.
    + intros w1 w2 i. simpl.
      rewrite !(nth_error_set_nth ws w _ _ Idle H).
      destruct (Nat.eqb_spec w1 w) as [->|N1]; destruct (Nat.eqb_spec w2 w) as [->|N2];
        simpl; intros H1 H2; auto.
      * inversion H1; subst i.
        destruct (nth_error ws w2) as [x|] eqn:Ex; [|discriminate].
        simpl in H2. inversion H2. now elim (Hfree w2 x Ex).
      * inversion H2; subst i.
        destruct (nth_error ws w1) as [x|] eqn:Ex; [|discriminate].
        simpl in H1. inversion H1. now elim (Hfree w1 x Ex).
      * now apply (I3 w1 w2 i).
  - (* empty *)
    apply (inv_workers_change rows ws w Sleeping Idle); auto; discriminate.
  - (* commit *)
    unfold updToProcessing in H0.
    destruct (forallb _ rows); [|discriminate]. inversion H0; subst rows'.
    apply (inv_update rows ws w (Working (item_of r)) (Selected r t)); auto.
    + discriminate.
    + intros it E. now inversion E.
  - (* rollback *)
    apply (inv_workers_change rows ws w Sleeping (Selected r t)); auto; discriminate.
  - (* done *)
    apply (inv_update rows ws w Idle (Working it)); auto; discriminate.
  - (* error *)
    apply (inv_update rows ws w Idle (Working it)); auto; discriminate.
  - (* the status update is lost *)
    apply (inv_workers_change rows ws w Idle (Working it)); auto; discriminate.
  - (* wake *)
    apply (inv_workers_change rows ws w Idle Sleeping); auto; discriminate.
  - (* insert *)
    destruct Hinv as (I1 & I2 & I3). split; [|split]; simpl in *.
    + intros w it Hw x Hx Hi. apply in_app_or in Hx as [Hx|[<-|[]]].
      * now apply (I1 w it Hw).
      * destruct (I2 w (Working it) (ID it) Hw eq_refl) as [y [Hy Hyi]].
        elim (H y Hy). congruence.
    + intros w x i Hw Hx. destruct (I2 w x i Hw Hx) as [y [Hy Hyi]].
      exists y. split; [apply in_or_app; now left | exact Hyi].
    + exact I3.
Qed.

Lemma steps_keep_inv (s s' : sys) : steps s s' -> race_inv s -> race_inv s'.
Proof.
  induction 1 as [|s1 s2 s3 _ IH Hst]; [auto|].
  intros Hinv. apply (step_keeps_inv s2 s3 Hst). now apply IH.
Qed.

Lemma claim_step_is_step (s s' : sys) : claim_step s s' -> step s s'.
Proof. destruct 1; econstructor; eauto. Qed.

Lemma claim_steps_are_steps (s s' : sys) : claim_steps s s' -> steps s s'.
Proof.
  induction 1 as [|s1 s2 s3 _ IH Hst]; [constructor|].
  eapply steps_step; [exact IH | now apply claim_step_is_step].
Qed.

(** With no item held at the start, the invariant holds at the start. *)
Lemma race_inv_init (s : sys) :
  (forall w x, nth_error (sys_workers s) w = Some x -> holds x = None) ->
  race_inv s.
Proof.
  intros Hnone. split; [|split].
  - intros w it Hw. specialize (Hnone w _ Hw). discriminate.
  - intros w x i Hw Hx. rewrite (Hnone w x Hw) in Hx. discriminate.
  - intros w1 w2 i H1 H2.
    destruct (nth_error (sys_workers s) w1) as [x|] eqn:E; [|discriminate].
    simpl in H1. rewrite (Hnone w1 x E) in H1. discriminate.
Qed.

End RaceInvariant.

(** ** A race for one queued row *)

Section SingleRow.
Local Open Scope Z_scope.

Lemma count_set_nth (P : wstate -> bool) (ws : list wstate) (w : nat) (x old : wstate) :
  nth_error ws w = Some old ->
  (count P (set_nth w x ws) + (if P old then 1 else 0)
   = count P ws + (if P x then 1 else 0))%nat.
Proof.
  unfold count. revert w. induction ws as [|y ws IH]; intros [|w] Hw; simpl in *;
    try discriminate.
  - inversion Hw; subst y. destruct (P old), (P x); simpl; lia.
  - specialize (IH w Hw). destruct (P y); simpl; lia.
Qed.

Lemma count_classes (ws : list wstate) :
  (List.length ws
   = count is_idle ws + count is_selected ws + count is_working ws + count is_sleeping ws)%nat.
Proof.
  unfold count. induction ws as [|x ws IH]; simpl; [reflexivity|].
  destruct x; simpl; lia.
Qed.

Lemma count_finished (ws : list wstate) :
  forallb finished ws = true -> count is_idle ws = O /\ count is_selected ws = O.
Proof.
  unfold count. induction ws as [|x ws IH]; simpl; [auto|].
  intros Hf. apply andb_true_iff in Hf as [Hx Hf]. destruct (IH Hf) as [Hi Hs].
  destruct x; simpl in *; try discriminate; auto.
Qed.

Lemma count_repeat_idle (P : wstate -> bool) (n : nat) :
  P Idle = false -> count P (repeat Idle n) = O.
Proof.
  intros HP. unfold count. induction n as [|n IH]; simpl; [reflexivity|].
  now rewrite HP.
Qed.

Lemma locks_none (ws : list wstate) : count is_selected ws = O -> locks ws = [].
Proof.
  unfold count, locks. induction ws as [|x ws IH]; simpl; [reflexivity|].
  destruct x; simpl; auto; discriminate.
Qed.

Lemma locks_some (r0 : queue_row) (ws : list wstate) :
  (forall r t, In (Selected r t) ws -> r = r0) ->
  (0 < count is_selected ws)%nat ->
  In (q_id r0) (locks ws).
Proof.
  unfold count, locks. induction ws as [|x ws IH]; simpl; [lia|].
  intros Hall Hc.
  destruct x as [|r t|it|]; simpl in *;
    try (apply IH; [intros r' t' Hin; apply (Hall r' t'); now right | exact Hc]).
  left. now rewrite (Hall r t (or_introl eq_refl)).
Qed.

Lemma claimed_working (r0 : queue_row) (ws : list wstate) :
  (forall it, In (Working it) ws -> it = item_of r0) ->
  count (claimed (q_id r0)) ws = count is_working ws.
Proof.
  unfold count. induction ws as [|x ws IH]; simpl; [reflexivity|].
  intros Hall. destruct x as [|r t|it|]; simpl; auto.
  rewrite (Hall it (or_introl eq_refl)). simpl. rewrite Z.eqb_refl. simpl.
  now rewrite IH by auto.
Qed.

Lemma selectNext_single (t : Z) (locked : list Z) (r0 : queue_row) :
  q_status r0 = StQueued -> q_next_try_at r0 = None ->
  selectNext t locked [r0] = if is_locked locked r0 then None else Some r0.
Proof.
  intros Hq Hn. unfold selectNext, eligible. simpl. rewrite Hq, Hn. simpl.
  now destruct (is_locked locked r0).
Qed.

Lemma selectNext_processing (t t' : Z) (locked : list Z) (r0 : queue_row) :
  selectNext t locked [set_processing t' r0] = None.
Proof. reflexivity. Qed.

Lemma claim_step_keeps_single (r0 : queue_row) (s s' : sys) :
  q_status r0 = StQueued -> q_next_try_at r0 = None ->
  claim_step s s' -> single_inv r0 s -> single_inv r0 s'.
Proof.
  intros Hq Hn Hstep Hinv. destruct Hstep as [rows ws w t r Hw Hsel
                                              | rows ws w t Hw Hsel
                                              | rows rows' ws w t r Hw Hupd].
  - (* select *)
    destruct Hinv as [(Hrows & HcW & HcS & Hsl & Hall)|(t' & Hrows & _)];
      simpl in *; subst rows.
    + rewrite (selectNext_single _ _ _ Hq Hn) in Hsel.
      destruct (is_locked (locks ws) r0) eqn:El; [discriminate|].
      inversion Hsel; subst r.
      assert (count is_selected ws = O) as Hs0.
      { destruct (count is_selected ws) eqn:E; [reflexivity|].
        assert (In (q_id r0) (locks ws)) as Hin by (apply locks_some; auto; lia).
        apply is_locked_true in Hin. congruence. }
      left. simpl.
      pose proof (count_set_nth is_working ws w (Selected r0 t) Idle Hw) as C1.
      pose proof (count_set_nth is_selected ws w (Selected r0 t) Idle Hw) as C2.
      simpl in C1, C2.
      repeat split; try lia.
      intros r t1 Hin. apply In_set_nth in Hin as [E|Hin]; [now inversion E|].
      now apply (Hall r t1).
    + rewrite selectNext_processing in Hsel. discriminate.
  - (* empty *)
    pose proof (count_set_nth is_working ws w Sleeping Idle Hw) as C1.
    pose proof (count_set_nth is_selected ws w Sleeping Idle Hw) as C2.
    simpl in C1, C2.
    destruct Hinv as [(Hrows & HcW & HcS & Hsl & Hall)|(t' & Hrows & HcW & HcS & Hall)];
      simpl in *; subst rows.
    + rewrite (selectNext_single _ _ _ Hq Hn) in Hsel.
      destruct (is_locked (locks ws) r0) eqn:El; [|discriminate].
      assert (count is_selected ws <> O) as Hs1.
      { intros E. rewrite (locks_none ws E) in El. discriminate. }
      left. simpl. repeat split; try lia.
      intros r t1 Hin. apply In_set_nth in Hin as [E|Hin]; [discriminate|].
      now apply (Hall r t1).
    + right. exists t'. simpl. repeat split; try lia.
      intros it Hin. apply In_set_nth in Hin as [E|Hin]; [discriminate|].
      now apply Hall.
  - (* commit *)
    pose proof (count_set_nth is_working ws w (Working (item_of r)) (Selected r t) Hw) as C1.
    pose proof (count_set_nth is_selected ws w (Working (item_of r)) (Selected r t) Hw) as C2.
    simpl in C1, C2.
    destruct Hinv as [(Hrows & HcW & HcS & Hsl & Hall)|(t' & Hrows & HcW & HcS & Hall)];
      simpl in *; subst rows.
    + assert (r = r0) as -> by (apply (Hall r t); now apply nth_error_In in Hw).
      unfold updToProcessing in Hupd. destruct (forallb _ [r0]); [|discriminate].
      inversion Hupd; subst rows'. right. exists t. simpl. rewrite Z.eqb_refl.
      repeat split; try lia.
      intros it Hin. apply In_set_nth in Hin as [E|Hin]; [now inversion E|].
      exfalso. assert (0 < count is_working ws)%nat; [|lia].
      unfold count. clear - Hin. induction ws as [|x ws IH]; simpl in *; [tauto|].
      destruct Hin as [->|Hin]; simpl; [lia|]. specialize (IH Hin).
      destruct (is_working x); simpl; lia.
    + exfalso. assert (0 < count is_selected ws)%nat; [|lia].
      apply nth_error_In in Hw. unfold count. clear - Hw.
      induction ws as [|x ws IH]; simpl in *; [tauto|].
      destruct Hw as [->|Hin]; simpl; [lia|]. specialize (IH Hin).
      destruct (is_selected x); simpl; lia.
Qed.

Lemma claim_steps_keep_single (r0 : queue_row) (s s' : sys) :
  q_status r0 = StQueued -> q_next_try_at r0 = None ->
  claim_steps s s' -> single_inv r0 s -> single_inv r0 s'.
Proof.
  intros Hq Hn. induction 1 as [|s1 s2 s3 _ IH Hst]; [auto|].
  intros Hinv. apply (claim_step_keeps_single r0 s2 s3 Hq Hn Hst). now apply IH.
Qed.

Lemma claim_steps_length (s s' : sys) :
  claim_steps s s' -> List.length (sys_workers s') = List.length (sys_workers s).
Proof.
  induction 1 as [|s1 s2 s3 _ IH Hst]; [reflexivity|].
  rewrite <- IH. destruct Hst; simpl; apply length_set_nth.
Qed.

Lemma claim_steps_trans (s1 s2 s3 : sys) :
  claim_steps s1 s2 -> claim_steps s2 s3 -> claim_steps s1 s3.
Proof.
  intros H12 H23. induction H23 as [|s2 s3 s4 _ IH Hst]; [exact H12|].
  eapply claim_steps_step; [now apply IH | exact Hst].
Qed.

(** A worker that has not finished its claim is idle or holds a lock. *)
Lemma unfinished_worker (ws : list wstate) :
  forallb finished ws = false ->
  exists w, nth_error ws w = Some Idle \/ exists r t, nth_error ws w = Some (Selected r t).
Proof.
  induction ws as [|x ws IH]; simpl; [discriminate|].
  intros Hf. destruct x; simpl in Hf.
  - exists O. now left.
  - exists O. right. now exists r, t.
  - destruct (IH Hf) as [w Hw]. now exists (S w).
  - destruct (IH Hf) as [w Hw]. now exists (S w).
Qed.

(** Progress: while a worker has not finished, one of them can take a step
    of the claim, unless the UPDATE would push the attempt count out of
    int4. *)
Lemma claim_step_exists (r0 : queue_row) (s : sys) :
  q_status r0 = StQueued -> q_next_try_at r0 = None -> int4 (q_attempts r0 + 1) = true ->
  single_inv r0 s -> forallb finished (sys_workers s) = false ->
  exists s', claim_step s s' /\ (pending s' < pending s)%nat.
Proof.
  intros Hq Hn Hint Hinv Hf. destruct s as [rows ws]. simpl in Hf.
  destruct (unfinished_worker ws Hf) as [w [Hw|(r & t & Hw)]].
  - destruct (selectNext 0 (locks ws) rows) as [r|] eqn:Hsel.
    + eexists. split; [apply (claim_select rows ws w 0 r Hw Hsel)|].
      unfold pending. simpl.
      pose proof (count_set_nth is_idle ws w (Selected r 0) Idle Hw) as C1.
      pose proof (count_set_nth is_selected ws w (Selected r 0) Idle Hw) as C2.
      simpl in C1, C2. lia.
    + eexists. split; [apply (claim_empty rows ws w 0 Hw Hsel)|].
      unfold pending. simpl.
      pose proof (count_set_nth is_idle ws w Sleeping Idle Hw) as C1.
      pose proof (count_set_nth is_selected ws w Sleeping Idle Hw) as C2.
      simpl in C1, C2. lia.
  - assert (0 < count is_selected ws)%nat as Hpos.
    { apply nth_error_In in Hw. unfold count. clear - Hw.
      induction ws as [|x ws IH]; simpl in *; [tauto|].
      destruct Hw as [->|Hin]; simpl; [lia|]. specialize (IH Hin).
      destruct (is_selected x); simpl; lia. }
    destruct Hinv as [(Hrows & HcW & HcS & Hsl & Hall)|(t' & Hrows & HcW & HcS & Hall)];
      simpl in *; [|lia].
    subst rows.
    assert (r = r0) as -> by (apply (Hall r t); now apply nth_error_In in Hw).
    assert (updToProcessing t (q_id r0) [r0]
            = Some (update_by_id (q_id r0) (set_processing t) [r0])) as Hupd.
    { unfold updToProcessing. simpl. now rewrite Hint, orb_true_r. }
    eexists. split; [apply (claim_commit [r0] _ ws w t r0 Hw Hupd)|].
    unfold pending. simpl.
    pose proof (count_set_nth is_idle ws w (Working (item_of r0)) (Selected r0 t) Hw) as C1.
    pose proof (count_set_nth is_selected ws w (Working (item_of r0)) (Selected r0 t) Hw)
      as C2.
    simpl in C1, C2. lia.
Qed.

(** Every run of the race can be continued until all workers have finished
    their claim. *)
Lemma claim_steps_finish (r0 : queue_row) (s : sys) :
  q_status r0 = StQueued -> q_next_try_at r0 = None -> int4 (q_attempts r0 + 1) = true ->
  single_inv r0 s ->
  exists s', claim_steps s s' /\ forallb finished (sys_workers s') = true.
Proof.
  intros Hq Hn Hint. remember (pending s) as m eqn:Hm. revert s Hm.
  induction m as [m IH] using lt_wf_ind. intros s Hm Hinv.
  destruct (forallb finished (sys_workers s)) eqn:Hf.
  - exists s. split; [apply claim_steps_refl | exact Hf].
  - destruct (claim_step_exists r0 s Hq Hn Hint Hinv Hf) as (s1 & Hst & Hlt).
    destruct (IH (pending s1) ltac:(lia) s1 eq_refl
                 (claim_step_keeps_single r0 s s1 Hq Hn Hst Hinv)) as (s2 & Hrun & Hfin).
    exists s2. split; [|exact Hfin].
    eapply claim_steps_trans; [|exact Hrun].
    eapply claim_steps_step; [apply claim_steps_refl | exact Hst].
Qed.

End SingleRow.

Section RaceClaims.
Local Open Scope Z_scope.

Lemma holders_le_1 (ws : list wstate) (i : Z) :
  (forall w1 w2,
     option_map holds (nth_error ws w1) = Some (Some i) ->
     option_map holds (nth_error ws w2) = Some (Some i) -> w1 = w2) ->
  (holders i ws <= 1)%nat.
Proof.
  unfold holders.
  set (P := fun s : wstate => match holds s with Some j => j =? i | None => false end).
  induction ws as [|x ws IH]; intros Hex; simpl; [lia|].
  assert (List.length (filter P ws) <= 1)%nat as Hrest.
  { apply IH. intros w1 w2 H1 H2.
    specialize (Hex (S w1) (S w2) H1 H2). now inversion Hex. }
  destruct (P x) eqn:Px; [|exact Hrest].
  simpl. assert (filter P ws = []) as ->; [|simpl; lia].
  destruct (filter P ws) as [|y l] eqn:E; [reflexivity|]. exfalso.
  assert (In y (filter P ws)) as Hy by (rewrite E; now left).
  apply filter_In in Hy as [Hy Hh]. apply In_nth_error in Hy as [k Hk].
  unfold P in Px, Hh.
  destruct (holds x) as [jx|] eqn:Ex; [|discriminate].
  destruct (holds y) as [jy|] eqn:Ey; [|discriminate].
  apply Z.eqb_eq in Px, Hh. subst jx jy.
  specialize (Hex O (S k)). simpl in Hex. rewrite Ex, Hk in Hex. simpl in Hex.
  rewrite Ey in Hex. specialize (Hex eq_refl eq_refl). discriminate.
Qed.

(** C4. In every state that workers reach from one in which no item is held,
    by any interleaving of their claims, commits, rollbacks and status
    updates and of inserts of new rows, no item is held by two workers: the
    number of workers holding an item is at most one.  And when n workers race
    for a single queued row, each calling [pickAndProcessOne] once: whenever
    all of them have finished their claim, exactly one has claimed the row,
    the n - 1 others have found no row, and the row is processing; and every
    such run can be continued until all of them have finished, as long as
    the attempt count of the row stays within int4. *)
Theorem workers_claim_exclusively :
  (forall s0 s,
     (forall w x, nth_error (sys_workers s0) w = Some x -> holds x = None) ->
     steps s0 s ->
     exclusive s /\ forall i, (holders i (sys_workers s) <= 1)%nat)
  /\
  (forall r0 n s,
     q_status r0 = StQueued -> q_next_try_at r0 = None ->
     claim_steps {| sys_rows := [r0]; sys_workers := repeat Idle n |} s ->
     exclusive s
     /\ (forallb finished (sys_workers s) = true -> (0 < n)%nat ->
         count (claimed (q_id r0)) (sys_workers s) = 1%nat
         /\ count is_sleeping (sys_workers s) = (n - 1)%nat
         /\ exists t, sys_rows s = [set_processing t r0])
     /\ (int4 (q_attempts r0 + 1) = true ->
         exists s', claim_steps s s' /\ forallb finished (sys_workers s') = true)).
Proof.
  split.
  - intros s0 s Hinit Hsteps.
    destruct (steps_keep_inv s0 s Hsteps (race_inv_init s0 Hinit)) as (_ & _ & Hex).
    split; [exact Hex|]. intros i. apply holders_le_1. intros w1 w2. apply Hex.
  - intros r0 n s Hq Hn Hsteps.
    assert (single_inv r0 {| sys_rows := [r0]; sys_workers := repeat Idle n |}) as Hsingle.
    { left. simpl. rewrite !count_repeat_idle by reflexivity.
      repeat split; auto. intros r t Hin. apply repeat_spec in Hin. discriminate. }
    split; [|split].
    + assert (race_inv {| sys_rows := [r0]; sys_workers := repeat Idle n |}) as Hinit.
      { apply race_inv_init. simpl. intros w x Hw. apply nth_error_In in Hw.
        apply repeat_spec in Hw. now subst x. }
      apply claim_steps_are_steps in Hsteps.
      now destruct (steps_keep_inv _ _ Hsteps Hinit) as (_ & _ & Hex).
    + intros Hfin Hpos.
      assert (single_inv r0 {| sys_rows := [r0]; sys_workers := repeat Idle n |}) as Hinit.
      { left. simpl. rewrite !count_repeat_idle by reflexivity.
        repeat split; auto. intros r t Hin. apply repeat_spec in Hin. discriminate. }
      pose proof (claim_steps_keep_single r0 _ _ Hq Hn Hsteps Hinit) as Hinv.
      pose proof (claim_steps_length _ _ Hsteps) as Hlen. simpl in Hlen.
      rewrite repeat_length in Hlen.
      pose proof (count_classes (sys_workers s)) as Hsum.
      destruct (count_finished _ Hfin) as [Hi0 Hs0].
      destruct Hinv as [(Hrows & HcW & HcS & Hsl & Hall)|(t & Hrows & HcW & HcS & Hall)].
      * specialize (Hsl Hs0). lia.
      * rewrite (claimed_working r0 _ Hall). repeat split; try lia. now exists t.
    + intros Hint. apply (claim_steps_finish r0 s Hq Hn Hint).
      exact (claim_steps_keep_single r0 _ _ Hq Hn Hsteps Hsingle).
Qed.

End RaceClaims.

Lemma race_run :
  claim_steps {| sys_rows := [race_row]; sys_workers := repeat Idle 2 |} race_end.
Proof.
  eapply claim_steps_step; [eapply claim_steps_step; [eapply claim_steps_step|]|].
  - apply claim_steps_refl.
  - apply (claim_select [race_row] [Idle; Idle] 0 10 race_row); reflexivity.
  - apply (claim_empty [race_row] [Selected race_row 10; Idle] 1 11); reflexivity.
  - apply (claim_commit [race_row] [set_processing 10 race_row]
             [Selected race_row 10; Sleeping] 0 10 race_row); reflexivity.
Qed.

(** Two workers race for the row 1: worker 0 claims it, worker 1 finds no
    row. *)
Lemma workers_claim_exclusively_witness :
  exclusive race_end
  /\ count (claimed (q_id race_row)) (sys_workers race_end) = 1%nat
  /\ count is_sleeping (sys_workers race_end) = (2 - 1)%nat
  /\ exists t, sys_rows race_end = [set_processing t race_row].
Proof.
  destruct (proj2 workers_claim_exclusively race_row 2%nat race_end
              eq_refl eq_refl race_run) as (Hex & Hfin & _).
  split; [exact Hex|]. apply Hfin; [reflexivity | lia].
Defined.

(** The claim function is the SELECT step followed by the commit step. *)
Lemma claimTx_select_commit (tx : txctx) (db db' : DB) (it : queueItem) (e : option pgerr) :
  claimTx tx db = ((Some it, e), db') ->
  exists r,
    selectNext (tx_now tx) (tx_locked tx) (crawl_queue db) = Some r
    /\ it = item_of r
    /\ updToProcessing (tx_now tx) (q_id r) (crawl_queue db) = Some (crawl_queue db').
Proof.
  unfold claimTx. intros Hc.
  repeat break_match_in Hc; try discriminate.
  inversion Hc; subst. eexists. repeat split; eauto.
Qed.

(** ** Links stay in the domain of the site *)

Section LinkClaims.
Context `{GoLib}.
Local Open Scope Z_scope.

Lemma inSeen_true (seen : list string) (s : string) :
  inSeen seen s = true <-> In s seen.
Proof.
  unfold inSeen. rewrite existsb_exists. split.
  - intros [x [Hx E]]. apply String.eqb_eq in E. now subst.
  - intros Hs. exists s. split; [exact Hs | apply String.eqb_refl].
Qed.

Lemma insertPageLink_crawl_queue (c : conn) (db : DB) (fromPageID : Z)
    (toURL toURLHash : string) :
  crawl_queue (snd (insertPageLink c db fromPageID toURL toURLHash)) = crawl_queue db.
Proof.
  unfold insertPageLink.
  repeat match goal with
         | |- context [if ?b then _ else _] => destruct b
         end; reflexivity.
Qed.

Lemma linkStep_seen (lc ec : conn) (siteID : Z) (siteDomain : string) (fromPageID : Z)
    (base : URL) (st : linkState) (m : list string) (s : string) :
  In s (ls_seen (linkStep lc ec siteID siteDomain fromPageID base st m)) <->
  In s (ls_seen st) \/ exists abs, accepted base siteDomain m abs /\ url_String abs = s.
Proof.
  unfold linkStep, accepted.
  destruct (resolveHref base m) as [abs|] eqn:Er.
  2:{ split; [auto|]. intros [Hs|[abs [[E _] _]]]; [auto|discriminate]. }
  destruct (isInDomain (Host abs) siteDomain) eqn:Ed; simpl negb; cbv iota.
  2:{ split; [auto|]. intros [Hs|[a [[E D] _]]]; [auto|]. inversion E; subst. congruence. }
  destruct (inSeen (ls_seen st) (url_String abs)) eqn:Es.
  - apply inSeen_true in Es. split; [auto|].
    intros [Hs|[a [[E D] Hu]]]; [auto|]. inversion E; subst. exact Es.
  - assert (forall st', ls_seen st' = (ls_seen st ++ [url_String abs])%list ->
              (In s (ls_seen st') <->
               In s (ls_seen st) \/
               exists a, (Some abs = Some a /\ isInDomain (Host a) siteDomain = true)
                         /\ url_String a = s)) as Hgen.
    { intros st' ->. rewrite in_app_iff. simpl. split.
      - intros [Hs|[Hs|[]]]; [auto|]. right. now exists abs.
      - intros [Hs|[a [[E D] Hu]]]; [auto|]. inversion E; subst. auto. }
    destruct (enqueueIfNotExists _ _ _ _ _ _) as [[[|] [e|]] db2]; apply Hgen; reflexivity.
Qed.

Lemma linkStep_queue (lc ec : conn) (siteID : Z) (siteDomain : string) (fromPageID : Z)
    (base : URL) (st : linkState) (m : list string) :
  let st' := linkStep lc ec siteID siteDomain fromPageID base st m in
  crawl_queue (ls_db st') = crawl_queue (ls_db st)
  \/ exists r abs,
       crawl_queue (ls_db st') = (crawl_queue (ls_db st) ++ [r])%list
       /\ accepted base siteDomain m abs
       /\ q_url r = url_String abs /\ q_site_id r = siteID
       /\ q_priority r = 0 /\ q_status r = StQueued.
Proof.
  unfold linkStep, accepted.
  destruct (resolveHref base m) as [abs|] eqn:Er; [|now left].
  destruct (isInDomain (Host abs) siteDomain) eqn:Ed; simpl negb; cbv iota; [|now left].
  destruct (inSeen (ls_seen st) (url_String abs)); [now left|].
  destruct (enqueueIfNotExists _ _ _ _ _ _) as [[ok e] db2] eqn:Ee.
  pose proof (insertPageLink_crawl_queue lc (ls_db st) fromPageID (url_String abs)
                (sha256Hex (url_String abs))) as Hl.
  destruct ok.
  - apply insertIfNotExists_true in Ee as (-> & _ & _ & Hq). simpl.
    right. eexists _, abs. rewrite Hq, Hl. repeat split; auto.
  - apply insertIfNotExists_false in Ee. left.
    destruct e; simpl; now rewrite Ee, Hl.
Qed.

Lemma linkLoop_seen (lc ec : nat -> conn) (siteID : Z) (siteDomain : string)
    (fromPageID : Z) (base : URL) (matches : list (list string)) :
  forall (i : nat) (st : linkState) (s : string),
    In s (ls_seen (linkLoop lc ec siteID siteDomain fromPageID base i matches st)) <->
    In s (ls_seen st)
    \/ exists m abs, In m matches /\ accepted base siteDomain m abs /\ url_String abs = s.
Proof.
  induction matches as [|m rest IH]; intros i st s; simpl.
  - split; [auto|]. intros [Hs|(m & abs & [] & _)]. exact Hs.
  - rewrite IH, linkStep_seen. split.
    + intros [[Hs|[abs [Ha Hu]]]|(m' & abs & Hin & Ha & Hu)]; [now left| |].
      * right. exists m, abs. auto.
      * right. exists m', abs. auto.
    + intros [Hs|(m' & abs & [<-|Hin] & Ha & Hu)]; [now left; left| |].
      * left. right. now exists abs.
      * right. now exists m', abs.
Qed.

Lemma linkLoop_queue (lc ec : nat -> conn) (siteID : Z) (siteDomain : string)
    (fromPageID : Z) (base : URL) (matches : list (list string)) :
  forall (i : nat) (st : linkState),
  exists added,
    crawl_queue (ls_db (linkLoop lc ec siteID siteDomain fromPageID base i matches st))
    = (crawl_queue (ls_db st) ++ added)%list
    /\ forall r, In r added ->
         q_site_id r = siteID /\ q_priority r = 0 /\ q_status r = StQueued
         /\ exists m abs, In m matches /\ accepted base siteDomain m abs
                          /\ q_url r = url_String abs.
Proof.
  induction matches as [|m rest IH]; intros i st; simpl.
  - exists []. split; [now rewrite app_nil_r | intros r []].
  - destruct (IH (S i) (linkStep (lc i) (ec i) siteID siteDomain fromPageID base st m))
      as [added [Hq Hall]].
    destruct (linkStep_queue (lc i) (ec i) siteID siteDomain fromPageID base st m)
      as [Hsame|(r & abs & Hone & Ha & Hu & Hs & Hp & Hst)].
    + exists added. split; [now rewrite Hq, Hsame|].
      intros r Hr. destruct (Hall r Hr) as (? & ? & ? & m' & abs & ? & ? & ?).
      repeat split; auto. exists m', abs. auto.
    + exists (r :: added). split.
      * rewrite Hq, Hone, <- app_assoc. reflexivity.
      * intros x [<-|Hx].
        -- repeat split; auto. exists m, abs. auto.
        -- destruct (Hall x Hx) as (? & ? & ? & m' & abs' & ? & ? & ?).
           repeat split; auto. exists m', abs'. auto.
Qed.

End LinkClaims.

(** ** The title: the patterns against the words of the specification *)

Section MatcherFacts.
Import regexp.

Lemma lowerByte_not_gt (a : ascii) :
  (strings.lowerByte a =? ">")%char = (a =? ">")%char.
Proof. destruct a as [[] [] [] [] [] [] [] []]; reflexivity. Qed.

Lemma lowerByte_not_lt (a : ascii) :
  (strings.lowerByte a =? "<")%char = (a =? "<")%char.
Proof. destruct a as [[] [] [] [] [] [] [] []]; reflexivity. Qed.


Lemma plain_cons (c : ascii) (l : string) :
  plain (String c l) = true ->
  (strings.lowerByte c =? "s")%char = false
  /\ (strings.lowerByte c =? "k")%char = false
  /\ plain l = true.
Proof.
  unfold plain. simpl. intros Hp. apply andb_true_iff in Hp as [H1 H2].
  apply negb_true_iff, orb_false_iff in H1 as [H1 H1'].
  apply negb_true_iff, orb_false_iff in H2 as [H2 H2'].
  repeat split; auto. now rewrite H1', H2'.
Qed.

(** A plain literal matches as [prefix_ci] says. *)
Lemma matchLit_plain (k : string -> option result) (l s : string) :
  plain l = true ->
  matchLit k l s
  = if prefix_ci l s
    then done k (strings.take (String.length l) s) (strings.drop (String.length l) s)
    else None.
Proof.
  revert s. induction l as [|c l IH]; intros s Hp.
  - simpl. unfold done. destruct s; reflexivity.
  - apply plain_cons in Hp as (Hs & Hk & Hp).
    destruct s as [|a s]; [reflexivity|].
    cbn [matchLit foldRune prefix_ci].
    rewrite (Ascii.eqb_sym (strings.lowerByte c) (strings.lowerByte a)).
    destruct (strings.lowerByte a =? strings.lowerByte c)%char.
    + rewrite (IH s Hp). simpl andb.
      destruct (prefix_ci l s); [|reflexivity].
      unfold done. simpl String.length. simpl strings.take. simpl strings.drop.
      destruct (k (strings.drop (String.length l) s)); reflexivity.
    + rewrite Hs, Hk. reflexivity.
Qed.

(** A run of bytes other than [>], followed by a continuation that needs a
    [>]: the run ends at the first [>]. *)
Lemma greedy_until_gt (k : string -> option result) (s : string) :
  (forall t, k t <> None -> exists t', t = String ">" t') ->
  greedy k notGt s
  = match cut_byte ">" s with
    | Some (b, rest) => done k b (String ">" rest)
    | None => None
    end.
Proof.
  intros Hk.
  assert (forall a t, (a =? ">")%char = false -> k (String a t) = None) as Hno.
  { intros a t Ha. destruct (k (String a t)) eqn:E; [|reflexivity].
    destruct (Hk (String a t)) as [t' Ht']; [congruence|].
    inversion Ht'; subst. now rewrite Ascii.eqb_refl in Ha. }
  induction s as [|a s IH]; simpl.
  - unfold done. destruct (k "") eqn:E; [|reflexivity].
    destruct (Hk "") as [t' Ht']; [congruence|discriminate].
  - assert (notGt a = negb (a =? ">")%char) as -> by reflexivity.
    destruct (a =? ">")%char eqn:Ea; simpl.
    + apply Ascii.eqb_eq in Ea. now subst a.
    + rewrite IH. destruct (cut_byte ">" s) as [[b rest]|].
      * unfold done. destruct (k (String ">" rest)); [reflexivity|].
        now rewrite (Hno a s Ea).
      * unfold done. now rewrite (Hno a s Ea).
Qed.

(** The shortest text followed by a plain literal: it ends at the first
    place where the literal stands. *)
Lemma lazy_until_lit (l : string) (s : string) :
  plain l = true ->
  option_map (fun x => (fst x, snd (snd x))) (lazy (matchItems [Lit l]) any s)
  = option_map (fun x => (fst x, snd x)) (cut_ci l s).
Proof.
  intros Hp.
  assert (forall t, matchItems [Lit l] t
                    = if prefix_ci l t
                      then Some (strings.take (String.length l) t ++ "", [],
                                 strings.drop (String.length l) t)
                      else None) as Hk.
  { intros t. cbn [matchItems matchItem]. rewrite (matchLit_plain _ l t Hp).
    destruct (prefix_ci l t); reflexivity. }
  induction s as [|a s IH].
  - cbn [lazy cut_ci]. rewrite Hk. destruct (prefix_ci l ""); reflexivity.
  - cbn [lazy cut_ci]. rewrite Hk.
    destruct (prefix_ci l (String a s)); [reflexivity|].
    unfold any at 1. unfold cons_char.
    destruct (lazy (matchItems [Lit l]) any s) as [[m r]|];
      destruct (cut_ci l s) as [[b r']|]; simpl in *; try discriminate; try reflexivity.
    inversion IH; subst. reflexivity.
Qed.

End MatcherFacts.

Section TitlePattern.
Import regexp.







End TitlePattern.

Section TitleSearch.
Import regexp.











End TitleSearch.

Section Replace.
Import regexp.

Lemma matchItems_cons (it : item) (re : list item) (s : string) :
  matchItems (it :: re) s
  = match matchItem it (matchItems re) s with
    | Some (m, (w, caps, rest)) => Some (m ++ w, caps, rest)
    | None => None
    end.
Proof. reflexivity. Qed.

Lemma greedy_all (c : ascii -> bool) (s : string) :
  greedy (matchItems []) c s
  = Some (run c s, ("", [], strings.drop (String.length (run c s)) s)).
Proof.
  induction s as [|a s IH]; [reflexivity|]. cbn [greedy run].
  destruct (c a); [|reflexivity]. now rewrite IH.
Qed.

Lemma matchItems_spaceSeq (s : string) :
  matchItems spaceSeq s
  = match s with
    | "" => None
    | String a s' =>
        if space a
        then Some (String a (run space s') ++ "", [],
                   strings.drop (String.length (run space s')) s')
        else None
    end.
Proof.
  unfold spaceSeq. cbn [matchItems matchItem]. destruct s as [|a s]; [reflexivity|].
  destruct (space a); [|reflexivity]. now rewrite greedy_all.
Qed.

(** [spaceSeq.ReplaceAllString(s, " ")] collapses the runs of white space;
    the second equation is the loop inside a run. *)
Lemma replace_spaceSeq (s : string) :
  replaceFrom spaceSeq " " O s = spec_collapse false s
  /\ replaceFrom spaceSeq " " (String.length (run space s)) s = spec_collapse true s.
Proof.
  induction s as [|a s [IHa IHb]]; [split; reflexivity|].
  assert (replaceFrom spaceSeq " " O (String a s) = spec_collapse false (String a s)) as HA.
  { cbn [replaceFrom spec_collapse]. rewrite matchItems_spaceSeq.
    destruct (space a).
    - rewrite append_nil_r. cbn [String.length]. rewrite IHb. reflexivity.
    - now rewrite IHa. }
  split; [exact HA|].
  cbn [run]. destruct (space a) eqn:Ea.
  - cbn [String.length replaceFrom spec_collapse]. now rewrite Ea.
  - cbn [String.length]. rewrite HA. cbn [spec_collapse]. now rewrite Ea.
Qed.

Lemma hasByte_cut (c : ascii) (s : string) :
  strings.hasByte c s = match cut_byte c s with Some _ => true | None => false end.
Proof.
  induction s as [|a s IH]; simpl; [reflexivity|].
  destruct (a =? c)%char; [reflexivity|]. simpl. rewrite IH.
  now destruct (cut_byte c s) as [[b r]|].
Qed.

Lemma matchItems_gt (t : string) :
  matchItems [Lit ">"] t
  = match t with
    | String a t' => if (a =? ">")%char then Some (String a "" ++ "", [], t') else None
    | "" => None
    end.
Proof.
  cbn [matchItems matchItem]. rewrite matchLit_plain by reflexivity.
  destruct t as [|a t]; [reflexivity|]. cbn [prefix_ci].
  change (strings.lowerByte ">") with ">"%char.
  rewrite Ascii.eqb_sym, lowerByte_not_gt.
  destruct (a =? ">")%char; reflexivity.
Qed.

(** What the tag pattern matches at the head of [s]: nothing, or a text of
    two bytes more than stand before the first [>] after the [<]. *)
Lemma matchItems_rmTags (s : string) :
  option_map (fun r => String.length (fst (fst r))) (matchItems rmTags s)
  = match s with
    | "" => None
    | String a s' =>
        if (a =? "<")%char && opens_tag s'
        then Some (S (S (String.length (before_gt s'))))
        else None
    end.
Proof.
  unfold rmTags. rewrite matchItems_cons. cbn [matchItem].
  rewrite matchLit_plain by reflexivity.
  destruct s as [|a s]; [reflexivity|]. cbn [prefix_ci].
  change (strings.lowerByte "<") with "<"%char.
  rewrite Ascii.eqb_sym, lowerByte_not_lt.
  destruct (a =? "<")%char; [|reflexivity]. simpl andb.
  unfold done. simpl strings.take. simpl strings.drop.
  rewrite matchItems_cons. cbn [matchItem].
  destruct s as [|b s]; [reflexivity|].
  unfold opens_tag, before_gt. cbn [cut_byte strings.hasByte].
  assert (notGt b = negb (b =? ">")%char) as -> by reflexivity.
  destruct (b =? ">")%char; [reflexivity|]. simpl negb. simpl orb. cbv iota.
  rewrite greedy_until_gt.
  - rewrite hasByte_cut.
    destruct (cut_byte ">" s) as [[b' rest]|]; [|reflexivity].
    unfold done. rewrite matchItems_gt. rewrite Ascii.eqb_refl. simpl.
    rewrite !length_append. simpl. f_equal. lia.
  - intros t Ht. rewrite matchItems_gt in Ht. destruct t as [|x t]; [now elim Ht|].
    destruct (x =? ">")%char eqn:Ex; [|now elim Ht].
    apply Ascii.eqb_eq in Ex. subst. now exists t.
Qed.

(** [rmTags.ReplaceAllString(s, " ")] puts a space for every tag; the second
    equation is the loop inside a tag. *)
Lemma replace_rmTags (s : string) :
  replaceFrom rmTags " " O s = spec_strip_tags false s
  /\ (strings.hasByte ">" s = true ->
      replaceFrom rmTags " " (S (String.length (before_gt s))) s = spec_strip_tags true s).
Proof.
  induction s as [|a s [IHa IHb]]; [split; [reflexivity|discriminate]|].
  assert (replaceFrom rmTags " " O (String a s) = spec_strip_tags false (String a s)) as HA.
  { cbn [replaceFrom spec_strip_tags].
    pose proof (matchItems_rmTags (String a s)) as Hm. cbv beta iota in Hm.
    destruct ((a =? "<")%char && opens_tag s) eqn:Eo.
    - destruct (matchItems rmTags (String a s)) as [[[w caps] rest]|]; [|discriminate].
      simpl in Hm. inversion Hm as [Hl]. rewrite Hl.
      rewrite IHb; [reflexivity|].
      apply andb_true_iff in Eo as [_ Eo]. unfold opens_tag in Eo.
      destruct s; [discriminate|]. now apply andb_true_iff in Eo as [_ Eo].
    - destruct (matchItems rmTags (String a s)); [discriminate|]. now rewrite IHa. }
  split; [exact HA|].
  intros Hh. unfold before_gt. cbn [cut_byte spec_strip_tags].
  simpl in Hh. destruct (a =? ">")%char eqn:Ea.
  - cbn [String.length replaceFrom]. simpl negb. exact IHa.
  - simpl in Hh. rewrite hasByte_cut in Hh. specialize (IHb).
    unfold before_gt in IHb. rewrite hasByte_cut in IHb.
    destruct (cut_byte ">" s) as [[b r]|]; [|discriminate].
    cbn [String.length replaceFrom]. simpl negb. now apply IHb.
Qed.

End Replace.

Lemma take_all (n : nat) (t : string) :
  (String.length t <= n)%nat -> strings.take n t = t.
Proof.
  revert t. induction n as [|n IH]; intros [|a t] Hl; simpl in *; try reflexivity; try lia.
  rewrite IH; [reflexivity | lia].
Qed.

Lemma capBytes_take (n : nat) (t : string) : capBytes n t = strings.take n t.
Proof.
  unfold capBytes. destruct (Nat.ltb_spec n (String.length t)); [reflexivity|].
  symmetry. now apply take_all.
Qed.

Section TitleClaim.
Context `{GoLib}.


End TitleClaim.


(** The first enqueue of the root of example.com. *)
Lemma enqueueIfNotExists_deduplicates_witness :
  exists r db',
    enqueueIfNotExists (example_conn 1000) example_site_db 1
      "https://example.com/" (sha256Hex (H := exampleLib) "https://example.com/") 0
    = ((true, None), db')
    /\ crawl_queue db' = (crawl_queue example_site_db ++ [r])%list
    /\ q_status r = StQueued /\ q_attempts r = 0%Z
    /\ q_site_id r = 1%Z
    /\ q_url_hash r = sha256Hex (H := exampleLib) "https://example.com/"
    /\ q_url r = "https://example.com/"
    /\ q_priority r = 0%Z.
Proof.
  apply (proj1 (proj2 (enqueueIfNotExists_deduplicates
                         (example_conn 1000) example_site_db 1 "https://example.com/"
                         (sha256Hex (H := exampleLib) "https://example.com/") 0
                         eq_refl eq_refl eq_refl))).
  reflexivity.
Defined.

(** ** The scenario of the specification, run *)

(** One cycle on the queue that holds https://example.com/: the page is
    stored with the title Hi, the item is done after one attempt, and the
    link /about is queued with priority 0. *)
Example scenario_one_cycle :
  summary (pickAndProcessOne (H := exampleLib) (example_world scenario_net) example_cfg
             (example_state scenario_db))
  = Some ((true, None),
          [(1, "https://example.com/", 0, StDone, 1, None);
           (2, "https://example.com/about", 0, StQueued, 0, None)]%Z,
          [Some "Hi"]).
Proof. vm_compute. reflexivity. Qed.

(** A PDF against the allow-list text/html: the item is marked error, due 30
    minutes after the update at 7000, and no page is stored. *)
Example scenario_pdf_rejected :
  summary (pickAndProcessOne (H := exampleLib) (example_world net_pdf) example_cfg
             (example_state scenario_db))
  = Some ((true, None),
          [(1, "https://example.com/", 0, StError, 1, Some (7000 + 1800000000))]%Z,
          []).
Proof. vm_compute. reflexivity. Qed.

(** A timeout: the item is due 5 minutes after the update. *)
Example scenario_timeout :
  summary (pickAndProcessOne (H := exampleLib) (example_world net_timeout) example_cfg
             (example_state scenario_db))
  = Some ((true, None),
          [(1, "https://example.com/", 0, StError, 1, Some (7000 + 300000000))]%Z,
          []).
Proof. vm_compute. reflexivity. Qed.

(** ** utils.go *)

Section HostFacts.
Context `{GoLib}.

(** X1. [isHostAllowed]: the host, as it is given, equals an entry of the
    whitelist or ends with a dot and the entry, the entry being lower-cased
    and trimmed; an entry that is blank after trimming allows nothing, and so
    does the empty list. *)
Theorem isHostAllowed_exact_or_subdomain (host : string) (whitelist : list string) :
  isHostAllowed host whitelist = true <->
  exists d, In d whitelist
    /\ strings.ToLower (strings.TrimSpace d) <> ""
    /\ (host = strings.ToLower (strings.TrimSpace d)
        \/ exists p, host = p ++ "." ++ strings.ToLower (strings.TrimSpace d)).
Proof.
  induction whitelist as [|d rest IH]; cbn [isHostAllowed In].
  - split; [discriminate | intros (d & [] & _)].
  - destruct (strings.ToLower (strings.TrimSpace d) =? "") eqn:Ee.
    + apply String.eqb_eq in Ee. rewrite IH. split.
      * intros (x & Hin & Hx). exists x. auto.
      * intros (x & [<-|Hin] & Hne & Hx); [congruence|]. exists x. auto.
    + apply String.eqb_neq in Ee.
      destruct ((host =? strings.ToLower (strings.TrimSpace d))
                || strings.HasSuffix host ("." ++ strings.ToLower (strings.TrimSpace d)))
        eqn:Em.
      * split; [intros _|reflexivity]. exists d. split; [now left|]. split; [exact Ee|].
        apply orb_true_iff in Em as [Em|Em].
        -- left. now apply String.eqb_eq.
        -- right. now apply HasSuffix_iff.
      * apply orb_false_iff in Em as [E1 E2]. rewrite IH. split.
        -- intros (x & Hin & Hx). exists x. auto.
        -- intros (x & [<-|Hin] & Hne & Hx); [|exists x; auto].
           exfalso. destruct Hx as [Hx|Hx].
           ++ apply String.eqb_neq in E1. contradiction.
           ++ apply HasSuffix_iff in Hx. congruence.
Qed.


Lemma RuneSelf_false (c : ascii) :
  strings.RuneSelf c = false -> (nat_of_ascii c < 128)%nat.
Proof. unfold strings.RuneSelf. intros E. now apply Nat.leb_gt in E. Qed.

Lemma space2_ascii (a b : ascii) : strings.RuneSelf a = false -> strings.space2 a b = false.
Proof.
  intros Ha. apply RuneSelf_false in Ha. unfold strings.space2.
  destruct (Nat.eqb_spec (nat_of_ascii a) 194); [lia | reflexivity].
Qed.

Lemma space3_ascii (a b c : ascii) :
  strings.RuneSelf a = false -> strings.space3 a b c = false.
Proof.
  intros Ha. apply RuneSelf_false in Ha. unfold strings.space3. cbv zeta.
  destruct (Nat.eqb_spec (nat_of_ascii a) 225); [lia|].
  destruct (Nat.eqb_spec (nat_of_ascii a) 226); [lia|].
  destruct (Nat.eqb_spec (nat_of_ascii a) 227); [lia|]. reflexivity.
Qed.

Lemma plainHostByte_spec (c : ascii) :
  plainHostByte c = true ->
  strings.RuneSelf c = false /\ strings.isUpper c = false
  /\ strings.asciiSpace c = false /\ (c =? ":")%char = false.
Proof.
  unfold plainHostByte. rewrite !andb_true_iff, !negb_true_iff. tauto.
Qed.

Lemma allBytes_app (P : ascii -> bool) (a b : string) :
  allBytes P (a ++ b) = allBytes P a && allBytes P b.
Proof.
  induction a as [|c a IH]; simpl; [reflexivity|]. now rewrite IH, andb_assoc.
Qed.

Lemma allBytes_rev (P : ascii -> bool) (s : string) :
  allBytes P (strings.rev s) = allBytes P s.
Proof.
  induction s as [|c s IH]; simpl; [reflexivity|].
  rewrite allBytes_app, IH. simpl. rewrite andb_true_r. apply andb_comm.
Qed.

Lemma rev_app (a b : string) : strings.rev (a ++ b) = strings.rev b ++ strings.rev a.
Proof.
  induction a as [|c a IH]; simpl; [now rewrite append_nil_r|].
  now rewrite IH, append_assoc.
Qed.

Lemma rev_rev (s : string) : strings.rev (strings.rev s) = s.
Proof.
  induction s as [|c s IH]; simpl; [reflexivity|]. now rewrite rev_app, IH.
Qed.

Lemma TrimLeftSpace_plain (s : string) :
  allBytes plainHostByte s = true -> strings.TrimLeftSpace s = s.
Proof.
  destruct s as [|a s]; [reflexivity|]. simpl. intros Hs.
  apply andb_true_iff in Hs as [Ha _].
  apply plainHostByte_spec in Ha as (Hr & _ & Hsp & _). rewrite Hsp.
  destruct s as [|b s]; [reflexivity|]. rewrite (space2_ascii a b Hr).
  destruct s as [|c s]; [reflexivity|]. now rewrite (space3_ascii a b c Hr).
Qed.

Lemma TrimLeftSpaceRev_plain (s : string) :
  allBytes plainHostByte s = true -> strings.TrimLeftSpaceRev s = s.
Proof.
  destruct s as [|a s]; [reflexivity|]. simpl. intros Hs.
  apply andb_true_iff in Hs as [Ha Hs].
  apply plainHostByte_spec in Ha as (_ & _ & Hsp & _). rewrite Hsp.
  destruct s as [|b s]; [reflexivity|]. simpl in Hs.
  apply andb_true_iff in Hs as [Hb Hs].
  apply plainHostByte_spec in Hb as (Hrb & _).
  rewrite (space2_ascii b a Hrb).
  destruct s as [|c s]; [reflexivity|]. simpl in Hs.
  apply andb_true_iff in Hs as [Hc _].
  apply plainHostByte_spec in Hc as (Hrc & _).
  now rewrite (space3_ascii c b a Hrc).
Qed.

Lemma TrimSpace_plain (s : string) :
  allBytes plainHostByte s = true -> strings.TrimSpace s = s.
Proof.
  intros Hs. unfold strings.TrimSpace, strings.TrimRightSpace.
  rewrite (TrimLeftSpace_plain s Hs), TrimLeftSpaceRev_plain, rev_rev; [reflexivity|].
  now rewrite allBytes_rev.
Qed.

Lemma ToLower_plain (s : string) :
  allBytes plainHostByte s = true -> strings.ToLower s = s.
Proof.
  intros Hs. unfold strings.ToLower.
  assert (strings.isASCII s = true /\ strings.mapBytes strings.lowerByte s = s) as [-> ->];
    [|reflexivity].
  induction s as [|c s IH]; simpl; [auto|]. simpl in Hs.
  apply andb_true_iff in Hs as [Hc Hs]. destruct (IH Hs) as [-> ->].
  apply plainHostByte_spec in Hc as (-> & Hu & _). unfold strings.lowerByte. now rewrite Hu.
Qed.

Lemma Contains_colon_plain (s : string) :
  allBytes plainHostByte s = true -> strings.Contains s ":" = false.
Proof.
  induction s as [|c s IH]; [reflexivity|]. cbn [strings.Contains allBytes]. intros Hs.
  apply andb_true_iff in Hs as [Hc Hs]. rewrite (IH Hs), orb_false_r.
  apply plainHostByte_spec in Hc as (_ & _ & _ & Hc).
  destruct (String.prefix ":" (String c s)) eqn:Ep; [|reflexivity].
  apply prefix_iff in Ep as [r Hr]. inversion Hr; subst c. discriminate Hc.
Qed.

Lemma length_drop (n : nat) (s : string) :
  String.length (strings.drop n s) = (String.length s - n)%nat.
Proof.
  revert s; induction n as [|n IH]; intros [|a s]; simpl; try reflexivity. apply IH.
Qed.

(** X2. On a host name of plain bytes [normalizeHost] takes off one trailing dot
    and then one leading www. and does nothing else, so it returns the name
    as it is exactly when the name has neither. *)
Theorem normalizeHost_plain (h : string) :
  allBytes plainHostByte h = true ->
  normalizeHost h = strings.TrimPrefix (strings.TrimSuffix h ".") "www."
  /\ (normalizeHost h = h <->
      strings.HasSuffix h "." = false /\ strings.HasPrefix h "www." = false).
Proof.
  intros Hh.
  assert (normalizeHost h = strings.TrimPrefix (strings.TrimSuffix h ".") "www.") as Heq.
  { unfold normalizeHost. cbv zeta.
    rewrite (TrimSpace_plain h Hh), (ToLower_plain h Hh), (Contains_colon_plain h Hh).
    reflexivity. }
  split; [exact Heq|]. rewrite Heq. unfold strings.TrimSuffix, strings.TrimPrefix.
  destruct (strings.HasSuffix h ".") eqn:Es.
  - split; [|intros [E _]; discriminate]. intros E. exfalso.
    apply HasSuffix_iff in Es as [p Hp].
    assert (String.length (strings.take (String.length h - String.length ".") h)
            < String.length h)%nat as Hlt.
    { rewrite length_take. subst h. rewrite length_append. simpl. lia. }
    destruct (strings.HasPrefix _ "www.").
    + apply (f_equal String.length) in E. rewrite length_drop in E. lia.
    + apply (f_equal String.length) in E. lia.
  - destruct (strings.HasPrefix h "www.") eqn:Ep.
    + split; [|intros [_ E]; discriminate]. intros E. exfalso.
      apply HasPrefix_iff in Ep as [r Hr].
      apply (f_equal String.length) in E. rewrite length_drop in E.
      subst h. rewrite length_append in E. simpl in E. lia.
    + split; auto.
Qed.

Lemma hexDigit_isHex (k : nat) : (k < 16)%nat -> isHexDigit (hexDigit k) = true.
Proof. intros Hk. do 16 (destruct k as [|k]; [reflexivity|]). lia. Qed.

Lemma hexDigit_inj (j k : nat) :
  (j < 16)%nat -> (k < 16)%nat -> hexDigit j = hexDigit k -> j = k.
Proof.
  intros Hj Hk E.
  assert (forall n, (n < 16)%nat ->
            (if (nat_of_ascii (hexDigit n) <? 58)%nat then nat_of_ascii (hexDigit n) - 48
             else nat_of_ascii (hexDigit n) - 87)%nat = n) as Hval.
  { intros n Hn. do 16 (destruct n as [|n]; [reflexivity|]). lia. }
  rewrite <- (Hval j Hj), <- (Hval k Hk), E. reflexivity.
Qed.

Lemma byte_lt_256 (c : ascii) : (nat_of_ascii c < 256)%nat.
Proof. apply nat_ascii_bounded. Qed.

Lemma hex_EncodeToString_inj (a b : string) :
  hex_EncodeToString a = hex_EncodeToString b -> a = b.
Proof.
  revert b. induction a as [|c a IH]; intros [|d b] E; cbn [hex_EncodeToString] in E;
    try discriminate; [reflexivity|].
  injection E as E1 E2 E3.
  pose proof (byte_lt_256 c). pose proof (byte_lt_256 d).
  assert (nat_of_ascii c / 16 < 16)%nat by (apply Nat.Div0.div_lt_upper_bound; lia).
  assert (nat_of_ascii d / 16 < 16)%nat by (apply Nat.Div0.div_lt_upper_bound; lia).
  assert (nat_of_ascii c mod 16 < 16)%nat by (apply Nat.mod_upper_bound; lia).
  assert (nat_of_ascii d mod 16 < 16)%nat by (apply Nat.mod_upper_bound; lia).
  assert (nat_of_ascii c / 16 = nat_of_ascii d / 16)%nat as D1
    by (apply hexDigit_inj; assumption).
  assert (nat_of_ascii c mod 16 = nat_of_ascii d mod 16)%nat as D2
    by (apply hexDigit_inj; assumption).
  f_equal; [|now apply IH].
  rewrite <- (ascii_nat_embedding c), <- (ascii_nat_embedding d). f_equal.
  pose proof (Nat.div_mod_eq (nat_of_ascii c) 16) as Dc.
  pose proof (Nat.div_mod_eq (nat_of_ascii d) 16) as Dd.
  rewrite Dc, Dd, D1, D2. reflexivity.
Qed.

(** X3. [sha256Hex] writes every byte of the digest as two digits of 0-9a-f, so
    its text is twice as long as the digest and two inputs have the same text
    exactly when they have the same digest. *)
Theorem sha256Hex_two_digits_per_byte (a b : string) :
  String.length (sha256Hex a) = (2 * String.length (sha256_Sum256 a))%nat
  /\ allBytes isHexDigit (sha256Hex a) = true
  /\ (sha256Hex a = sha256Hex b <-> sha256_Sum256 a = sha256_Sum256 b).
Proof.
  unfold sha256Hex. split; [|split].
  - induction (sha256_Sum256 a) as [|c s IH]; [reflexivity|].
    cbn [hex_EncodeToString String.length]. rewrite IH. lia.
  - induction (sha256_Sum256 a) as [|c s IH]; [reflexivity|].
    cbn [hex_EncodeToString allBytes]. pose proof (byte_lt_256 c).
    assert (nat_of_ascii c / 16 < 16)%nat by (apply Nat.Div0.div_lt_upper_bound; lia).
    assert (nat_of_ascii c mod 16 < 16)%nat by (apply Nat.mod_upper_bound; lia).
    rewrite !hexDigit_isHex, IH by assumption. reflexivity.
  - split; [apply hex_EncodeToString_inj | now intros ->].
Qed.

End HostFacts.

Lemma normalizeHost_plain_witness :
  normalizeHost (H := exampleLib) "www.example.com."
  = strings.TrimPrefix (strings.TrimSuffix "www.example.com." ".") "www."
  /\ (normalizeHost (H := exampleLib) "www.example.com." = "www.example.com." <->
      strings.HasSuffix "www.example.com." "." = false
      /\ strings.HasPrefix "www.example.com." "www." = false).
Proof. apply (normalizeHost_plain (H := exampleLib) "www.example.com."). reflexivity. Defined.

(** ** The statements keep the constraints of the schema *)

Section SchemaFacts.
Context `{GoLib}.
Local Open Scope Z_scope.

Lemma keyed_seq {A : Type} (id : A -> Z) (rows : list A) (seq seq' : Z) :
  seq <= seq' -> keyed id rows seq -> keyed id rows seq'.
Proof.
  intros Hle [Hnd Hb]. split; [exact Hnd|]. intros r Hr. specialize (Hb r Hr). lia.
Qed.

Lemma keyed_app {A : Type} (id : A -> Z) (rows : list A) (seq : Z) (r : A) :
  keyed id rows seq -> id r = seq + 1 -> keyed id (rows ++ [r]) (seq + 1).
Proof.
  intros [Hnd Hb] Hr. split.
  - rewrite map_app. simpl. apply NoDup_app.
    + exact Hnd.
    + constructor; [intros [] | constructor].
    + intros x Hx [E|[]]. apply in_map_iff in Hx as (y & <- & Hy).
      specialize (Hb y Hy). lia.
  - intros x Hx. apply in_app_iff in Hx as [Hx|[<-|[]]]; [|lia].
    specialize (Hb x Hx). lia.
Qed.

Lemma keyed_map {A : Type} (id : A -> Z) (f : A -> A) (rows : list A) (seq : Z) :
  (forall r, id (f r) = id r) -> keyed id rows seq -> keyed id (map f rows) seq.
Proof.
  intros Hf [Hnd Hb]. split.
  - rewrite map_map. rewrite (map_ext _ id); [exact Hnd | exact Hf].
  - intros x Hx. apply in_map_iff in Hx as (y & <- & Hy). rewrite Hf. now apply Hb.
Qed.


Lemma site_exists_iff (db : DB) (i : Z) :
  site_exists db i = true <-> In i (map s_id (sites db)).
Proof.
  unfold site_exists. rewrite existsb_exists, in_map_iff. split.
  - intros (s & Hs & E). apply Z.eqb_eq in E. now exists s.
  - intros (s & E & Hs). exists s. split; [exact Hs | now apply Z.eqb_eq].
Qed.

Lemma page_exists_iff (db : DB) (i : Z) :
  page_exists db i = true <-> In i (map p_id (pages db)).
Proof.
  unfold page_exists. rewrite existsb_exists, in_map_iff. split.
  - intros (s & Hs & E). apply Z.eqb_eq in E. now exists s.
  - intros (s & E & Hs). exists s. split; [exact Hs | now apply Z.eqb_eq].
Qed.

(** A statement that keeps the sites and the pages, or adds to them, keeps
    the foreign keys of the rows. *)
Lemma rows_ok_mono (db db' : DB) :
  (forall i, In i (map s_id (sites db)) -> In i (map s_id (sites db'))) ->
  (forall i, In i (map p_id (pages db)) -> In i (map p_id (pages db'))) ->
  (forall r, queue_row_ok db r -> queue_row_ok db' r)
  /\ (forall p, page_row_ok db p -> page_row_ok db' p)
  /\ (forall l, link_row_ok db l -> link_row_ok db' l).
Proof.
  intros Hs Hp. unfold queue_row_ok, page_row_ok, link_row_ok.
  split; [|split].
  - intros r (H1 & H2). split; [|exact H2]. apply site_exists_iff, Hs, site_exists_iff, H1.
  - intros p (H1 & H2). split; [|exact H2]. apply site_exists_iff, Hs, site_exists_iff, H1.
  - intros l H1. apply page_exists_iff, Hp, page_exists_iff, H1.
Qed.

Lemma find_domain_none (domain : string) (ss : list site_row) :
  List.find (fun s => (s_domain s =? domain)%string) ss = None ->
  ~ In domain (map s_domain ss).
Proof.
  intros Hf Hin. apply in_map_iff in Hin as (s & E & Hs).
  apply (find_none _ _ Hf) in Hs. simpl in Hs. rewrite E, String.eqb_refl in Hs.
  discriminate.
Qed.

Lemma NoDup_snoc {A : Type} (l : list A) (x : A) :
  NoDup l -> ~ In x l -> NoDup (l ++ [x]).
Proof.
  intros Hl Hx. apply NoDup_app; [exact Hl | constructor; [intros [] | constructor] |].
  intros a Ha [<-|[]]. contradiction.
Qed.

Lemma ensureSite_schema (c : conn) (db : DB) (domain : string) (cfg : Config) :
  schema_ok db -> schema_ok (snd (ensureSite c db domain cfg)).
Proof.
  intros Hok. unfold ensureSite.
  destruct (fails c); [exact Hok|].
  destruct (int4 (RPSPerHost (Crawler cfg)) && int4 (RPSBurst (Crawler cfg))
            && int4 (DepthLimit (Crawler cfg))) eqn:Eint; [|exact Hok].
  apply andb_true_iff in Eint as [Eint E3]. apply andb_true_iff in Eint as [E1 E2].
  simpl negb. cbv iota zeta.
  destruct Hok as [Hsk Hsd Hsr Hqk Hqa Hqr Hpk Hpu Hpr Hlk Hlu Hlr].
  destruct (List.find _ (sites db)) as [s|] eqn:Ef; simpl snd.
  - set (touch := fun r : site_row => if (s_domain r =? domain)%string then _ else r).
    assert (forall r, s_id (touch r) = s_id r) as Tid
      by (intros r; unfold touch; destruct (s_domain r =? domain)%string; reflexivity).
    assert (forall r, s_domain (touch r) = s_domain r) as Tdom
      by (intros r; unfold touch; destruct (s_domain r =? domain)%string; reflexivity).
    assert (map s_id (map touch (sites db)) = map s_id (sites db)) as Eids
      by (rewrite map_map; now apply map_ext).
    destruct (rows_ok_mono db (set_sites db (map touch (sites db)) (sites_seq db + 1)))
      as (Mq & Mp & Ml); [simpl; now rewrite Eids | auto |].
    constructor; simpl; try assumption.
    + apply keyed_seq with (sites_seq db); [lia|]. now apply keyed_map.
    + rewrite map_map. now rewrite (map_ext _ s_domain).
    + apply Forall_forall. intros x Hx. apply in_map_iff in Hx as (y & <- & Hy).
      rewrite Forall_forall in Hsr. specialize (Hsr y Hy). unfold touch, site_row_ok in *.
      destruct (s_domain y =? domain)%string; simpl; exact Hsr.
    + eapply Forall_impl; [exact Mq | exact Hqr].
    + eapply Forall_impl; [exact Mp | exact Hpr].
  - match goal with
    | |- schema_ok (set_sites db (sites db ++ [?x]) _) => set (row := x)
    end.
    destruct (rows_ok_mono db (set_sites db (sites db ++ [row]) (sites_seq db + 1)))
      as (Mq & Mp & Ml);
      [simpl; intros i Hi; rewrite map_app; apply in_app_iff; now left | auto |].
    constructor; simpl; try assumption.
    + now apply keyed_app.
    + rewrite map_app. simpl. apply NoDup_snoc; [exact Hsd | now apply find_domain_none].
    + apply Forall_app. split; [exact Hsr|]. constructor; [|constructor].
      unfold site_row_ok. simpl. auto.
    + eapply Forall_impl; [exact Mq | exact Hqr].
    + eapply Forall_impl; [exact Mp | exact Hpr].
Qed.


Lemma insertIfNotExists_schema (snapshot : list queue_row) (c : conn) (db : DB)
    (siteID : Z) (url urlHash : string) (priority : Z) :
  schema_ok db ->
  schema_ok (snd (insertIfNotExists snapshot c db siteID url urlHash priority)).
Proof.
  intros Hok.
  pose proof (insertIfNotExists_keeps_unique snapshot c db siteID url urlHash priority
                (ok_queue_active db Hok)) as Hu.
  revert Hu. unfold insertIfNotExists.
  destruct (fails c); [intros _; exact Hok|].
  destruct (int4 priority) eqn:Ep; [|intros _; exact Hok]. simpl negb. cbv iota.
  destruct (has_active snapshot siteID urlHash); [intros _; exact Hok|]. cbv zeta.
  destruct Hok as [Hsk Hsd Hsr Hqk Hqa Hqr Hpk Hpu Hpr Hlk Hlu Hlr].
  assert (keyed q_id (crawl_queue db) (crawl_queue_seq db + 1)) as Hk1
    by (apply keyed_seq with (crawl_queue_seq db); [lia | exact Hqk]).
  destruct (has_active (crawl_queue db) siteID urlHash);
    [intros _; constructor; simpl; assumption|].
  destruct (site_exists db siteID) eqn:Es; simpl negb; cbv iota;
    [|intros _; constructor; simpl; assumption].
  simpl snd. intros Hu. constructor; simpl; try assumption.
  - now apply keyed_app.
  - apply Forall_app. split; [exact Hqr|]. constructor; [|constructor].
    unfold queue_row_ok. simpl. auto.
Qed.

Lemma active_keys_update_inactive (id : Z) (f : queue_row -> queue_row)
    (rows : list queue_row) (k : Z * string) :
  (forall r, active (f r) = false) ->
  In k (active_keys (update_by_id id f rows)) -> In k (active_keys rows).
Proof.
  intros Hf. unfold active_keys, update_by_id.
  induction rows as [|r rows IH]; simpl; [auto|].
  destruct (q_id r =? id).
  - rewrite Hf. intros Hin. destruct (active r); [right|]; now apply IH.
  - destruct (active r); simpl; [intros [E|Hin]; [now left | right; now apply IH] | exact IH].
Qed.

Lemma unique_active_update_inactive (id : Z) (f : queue_row -> queue_row)
    (rows : list queue_row) :
  (forall r, active (f r) = false) ->
  unique_active rows -> unique_active (update_by_id id f rows).
Proof.
  intros Hf. unfold unique_active.
  induction rows as [|r rows IH]; [auto|].
  change (update_by_id id f (r :: rows))
    with ((if q_id r =? id then f r else r) :: update_by_id id f rows).
  unfold active_keys in *. cbn [filter map].
  destruct (q_id r =? id).
  - rewrite Hf. destruct (active r); [intros Hn; inversion Hn; auto | exact IH].
  - destruct (active r); [|exact IH]. cbn [map]. intros Hn. inversion Hn as [|? ? Hni Hnd]; subst.
    constructor; [|now apply IH]. intros Hin. apply Hni.
    now apply (active_keys_update_inactive id f rows _ Hf).
Qed.

Lemma update_by_id_rows_ok (db : DB) (id : Z) (f : queue_row -> queue_row)
    (rows : list queue_row) :
  (forall r, In r rows -> queue_row_ok db r -> q_id r = id -> queue_row_ok db (f r)) ->
  Forall (queue_row_ok db) rows -> Forall (queue_row_ok db) (update_by_id id f rows).
Proof.
  intros Hf Hall. unfold update_by_id. apply Forall_forall. intros x Hx.
  apply in_map_iff in Hx as (r & <- & Hr). rewrite Forall_forall in Hall.
  destruct (Z.eqb_spec (q_id r) id); auto.
Qed.

Lemma update_by_id_keyed (id : Z) (f : queue_row -> queue_row) (rows : list queue_row)
    (seq : Z) :
  (forall r, q_id (f r) = q_id r) -> keyed q_id rows seq ->
  keyed q_id (update_by_id id f rows) seq.
Proof.
  intros Hf. unfold update_by_id. apply keyed_map. intros r.
  destruct (q_id r =? id); auto.
Qed.

Lemma markQueueError_schema (c : conn) (db : DB) (id : Z) (msg : string) (retryAfter : Z) :
  schema_ok db -> schema_ok (markQueueError c db id msg retryAfter).
Proof.
  intros Hok. unfold markQueueError. destruct (fails c); [exact Hok|].
  destruct Hok as [Hsk Hsd Hsr Hqk Hqa Hqr Hpk Hpu Hpr Hlk Hlu Hlr].
  constructor; simpl; try assumption.
  - now apply update_by_id_keyed.
  - now apply unique_active_update_inactive.
  - apply update_by_id_rows_ok; [|exact Hqr]. intros r _ Hr _. exact Hr.
Qed.

Lemma markQueueDone_schema (c : conn) (db : DB) (id : Z) :
  schema_ok db -> schema_ok (markQueueDone c db id).
Proof.
  intros Hok. unfold markQueueDone. destruct (fails c); [exact Hok|].
  destruct Hok as [Hsk Hsd Hsr Hqk Hqa Hqr Hpk Hpu Hpr Hlk Hlu Hlr].
  constructor; simpl; try assumption.
  - now apply update_by_id_keyed.
  - now apply unique_active_update_inactive.
  - apply update_by_id_rows_ok; [|exact Hqr]. intros r _ Hr _. exact Hr.
Qed.

(** The UPDATE of the claim turns a queued row into a processing one: the
    keys of the active rows stay as they are. *)
Lemma active_keys_set_processing (t id : Z) (rows : list queue_row) :
  (forall r, In r rows -> q_id r = id -> active r = true) ->
  active_keys (update_by_id id (set_processing t) rows) = active_keys rows.
Proof.
  unfold active_keys, update_by_id. induction rows as [|r rows IH]; intros Hq; [reflexivity|].
  assert (forall x, In x rows -> q_id x = id -> active x = true) as Hq'
    by (intros x Hx; apply Hq; now right).
  specialize (IH Hq'). simpl.
  destruct (Z.eqb_spec (q_id r) id) as [E|E].
  - rewrite (Hq r (or_introl eq_refl) E).
    change (active (set_processing t r)) with true. simpl. now rewrite IH.
  - destruct (active r); simpl; now rewrite IH.
Qed.

Lemma claimTx_schema (tx : txctx) (db : DB) :
  schema_ok db -> schema_ok (snd (claimTx tx db)).
Proof.
  intros Hok. unfold claimTx.
  destruct (begin_fails tx); [exact Hok|].
  destruct (select_fails tx); [exact Hok|].
  destruct (selectNext _ _ _) as [r|] eqn:Hsel; [|exact Hok].
  destruct (update_fails tx); [exact Hok|]. simpl ID.
  destruct (updToProcessing _ _ _) as [rows|] eqn:Hupd; [|exact Hok].
  destruct (commit_fails tx); [exact Hok|]. simpl snd.
  unfold updToProcessing in Hupd.
  destruct (forallb _ (crawl_queue db)) eqn:Hfit; [|discriminate].
  inversion Hupd; subst rows; clear Hupd.
  rewrite forallb_forall in Hfit.
  apply selectNext_some in Hsel as (Hin & Hel & _).
  destruct Hok as [Hsk Hsd Hsr Hqk Hqa Hqr Hpk Hpu Hpr Hlk Hlu Hlr].
  assert (forall x, In x (crawl_queue db) -> q_id x = q_id r -> x = r) as Hsame.
  { intros x Hx E. destruct Hqk as [Hnd _].
    apply in_split in Hin as (l1 & l2 & Hl). rewrite Hl in Hnd, Hx.
    rewrite map_app in Hnd. simpl in Hnd. apply NoDup_remove_2 in Hnd.
    apply in_app_iff in Hx as [Hx|[Hx|Hx]]; [|now symmetry|];
      exfalso; apply Hnd, in_app_iff; [left|right];
      rewrite <- E; now apply in_map. }
  constructor; simpl; try assumption.
  - now apply update_by_id_keyed.
  - unfold unique_active. rewrite active_keys_set_processing; [exact Hqa|].
    intros x Hx E. rewrite (Hsame x Hx E). unfold eligible in Hel. unfold active.
    destruct (q_status r); try discriminate. reflexivity.
  - apply update_by_id_rows_ok; [|exact Hqr]. intros x Hx (Hs & Hp & Ha) E.
    unfold queue_row_ok. simpl. repeat split; try assumption.
    specialize (Hfit x Hx). rewrite E, Z.eqb_refl in Hfit. exact Hfit.
Qed.


Lemma find_page_key_none (siteID : Z) (urlHash : string) (ps : list page_row) :
  List.find (page_key siteID urlHash) ps = None -> ~ In (siteID, urlHash) (page_keys ps).
Proof.
  intros Hf Hin. apply in_map_iff in Hin as (p & E & Hp).
  apply (find_none _ _ Hf) in Hp. unfold page_key in Hp. inversion E; subst.
  rewrite Z.eqb_refl, String.eqb_refl in Hp. discriminate.
Qed.

Lemma upsertPage_schema (c : conn) (db : DB) (siteID : Z)
    (rawURL title description lang : string) (httpStatus : Z)
    (contentType html text : string) :
  schema_ok db ->
  schema_ok (snd (upsertPage c db siteID rawURL title description lang httpStatus
                    contentType html text)).
Proof.
  intros Hok. unfold upsertPage. cbv zeta.
  destruct (fails c); [exact Hok|].
  destruct (int4 httpStatus) eqn:Eint; [|exact Hok]. simpl negb. cbv iota.
  cbn [p_lang p_content_type].
  destruct Hok as [Hsk Hsd Hsr Hqk Hqa Hqr Hpk Hpu Hpr Hlk Hlu Hlr].
  assert (keyed p_id (pages db) (pages_seq db + 1)) as Hk1
    by (apply keyed_seq with (pages_seq db); [lia | exact Hpk]).
  destruct (check_lang (NULLIF_empty lang) && _)
    eqn:Echk; simpl negb; cbv iota; [|constructor; simpl; assumption].
  apply andb_true_iff in Echk as [Elang Ect].
  destruct (List.find _ (pages db)) as [p|] eqn:Ef.
  - simpl snd.
    match goal with
    | |- schema_ok (set_pages db (map ?u (pages db)) _) => set (upd := u)
    end.
    assert (forall r, p_id (upd r) = p_id r) as Uid
      by (intros r; unfold upd; destruct (page_key _ _ r); reflexivity).
    assert (forall r, (p_site_id (upd r), p_url_hash (upd r)) = (p_site_id r, p_url_hash r))
      as Ukey by (intros r; unfold upd; destruct (page_key _ _ r); reflexivity).
    assert (map p_id (map upd (pages db)) = map p_id (pages db)) as Eids
      by (rewrite map_map; apply map_ext; exact Uid).
    destruct (rows_ok_mono db (set_pages db (map upd (pages db)) (pages_seq db + 1)))
      as (Mq & Mp & Ml); [auto | simpl; now rewrite Eids |].
    constructor; simpl; try assumption.
    + now apply keyed_map.
    + unfold page_keys in *. rewrite map_map.
      erewrite map_ext; [exact Hpu | exact Ukey].
    + apply Forall_forall. intros x Hx. apply in_map_iff in Hx as (r & <- & Hr).
      rewrite Forall_forall in Hpr. destruct (Hpr r Hr) as (R1 & R2 & R3 & R4).
      unfold upd. destruct (page_key _ _ r); [|now apply Hpr].
      unfold page_row_ok. simpl. repeat split; try assumption.
      unfold NULLIF_empty in *. destruct (lang =? "")%string eqn:El; simpl.
      * exact R2.
      * rewrite El. exact Elang.
    + eapply Forall_impl; [exact Ml | exact Hlr].
  - destruct (site_exists db siteID) eqn:Es; simpl negb; cbv iota;
      [|constructor; simpl; assumption].
    simpl snd.
    match goal with
    | |- schema_ok (set_pages db (pages db ++ [?x]) _) => set (e := x)
    end.
    destruct (rows_ok_mono db (set_pages db (pages db ++ [e]) (pages_seq db + 1)))
      as (Mq & Mp & Ml);
      [auto | simpl; intros i Hi; rewrite map_app; apply in_app_iff; now left |].
    constructor; simpl; try assumption.
    + now apply keyed_app.
    + unfold page_keys. rewrite map_app. simpl.
      apply NoDup_snoc; [exact Hpu | now apply find_page_key_none].
    + apply Forall_app. split; [exact Hpr|]. constructor; [|constructor].
      unfold page_row_ok. simpl. auto.
    + eapply Forall_impl; [exact Ml | exact Hlr].
Qed.

Lemma insertPageLink_schema (c : conn) (db : DB) (fromPageID : Z)
    (toURL toURLHash : string) :
  schema_ok db -> schema_ok (snd (insertPageLink c db fromPageID toURL toURLHash)).
Proof.
  intros Hok. unfold insertPageLink. cbv zeta.
  destruct (fails c); [exact Hok|].
  destruct Hok as [Hsk Hsd Hsr Hqk Hqa Hqr Hpk Hpu Hpr Hlk Hlu Hlr].
  assert (keyed l_id (page_links db) (page_links_seq db + 1)) as Hk1
    by (apply keyed_seq with (page_links_seq db); [lia | exact Hlk]).
  destruct (existsb _ (page_links db)) eqn:Eex; [constructor; simpl; assumption|].
  destruct (page_exists db fromPageID) eqn:Ep; simpl negb; cbv iota;
    [|constructor; simpl; assumption].
  simpl snd. constructor; simpl; try assumption.
  - now apply keyed_app.
  - unfold link_keys. rewrite map_app. simpl. apply NoDup_snoc; [exact Hlu|].
    intros Hin. apply in_map_iff in Hin as (l & E & Hl). inversion E; subst.
    assert (existsb (fun l0 => (l_from_page_id l0 =? l_from_page_id l)
                               && (l_to_url_hash l0 =? l_to_url_hash l)%string)
              (page_links db) = true) as Ht.
    { apply existsb_exists. exists l. split; [exact Hl|].
      now rewrite Z.eqb_refl, String.eqb_refl. }
    congruence.
  - apply Forall_app. split; [exact Hlr|]. constructor; [|constructor].
    unfold link_row_ok. simpl. exact Ep.
Qed.


Lemma linkStep_schema (lc ec : conn) (siteID : Z) (siteDomain : string) (fromPageID : Z)
    (base : URL) (st : linkState) (m : list string) :
  schema_ok (ls_db st) ->
  schema_ok (ls_db (linkStep lc ec siteID siteDomain fromPageID base st m)).
Proof.
  intros Hok. unfold linkStep.
  destruct (resolveHref base m) as [abs|]; [|exact Hok].
  destruct (isInDomain (Host abs) siteDomain); simpl negb; cbv iota; [|exact Hok].
  destruct (inSeen (ls_seen st) (url_String abs)); [exact Hok|]. cbv zeta.
  pose proof (insertIfNotExists_schema
                (crawl_queue (snd (insertPageLink lc (ls_db st) fromPageID (url_String abs)
                                     (sha256Hex (url_String abs)))))
                ec _ siteID (url_String abs) (sha256Hex (url_String abs)) 0
                (insertPageLink_schema lc (ls_db st) fromPageID (url_String abs)
                   (sha256Hex (url_String abs)) Hok)) as Hq.
  unfold enqueueIfNotExists.
  destruct (insertIfNotExists _ _ _ _ _ _ _) as [[[|] [e|]] db2]; exact Hq.
Qed.

Lemma linkLoop_schema (lc ec : nat -> conn) (siteID : Z) (siteDomain : string)
    (fromPageID : Z) (base : URL) (matches : list (list string)) :
  forall (i : nat) (st : linkState),
    schema_ok (ls_db st) ->
    schema_ok (ls_db (linkLoop lc ec siteID siteDomain fromPageID base i matches st)).
Proof.
  induction matches as [|m rest IH]; intros i st Hok; simpl; [exact Hok|].
  apply IH. now apply linkStep_schema.
Qed.

Lemma extractAndEnqueueLinks_schema (lc ec : nat -> conn) (db : DB) (siteID : Z)
    (siteDomain : string) (fromPageID : Z) (baseURL html : string) :
  schema_ok db ->
  schema_ok (snd (extractAndEnqueueLinks lc ec db siteID siteDomain fromPageID baseURL html)).
Proof.
  intros Hok. unfold extractAndEnqueueLinks.
  destruct (url_Parse baseURL) as [base|]; [|exact Hok].
  simpl snd. now apply linkLoop_schema.
Qed.

Lemma processItem_schema (w : world) (cfg : Config) (it : queueItem) (st st' : state) :
  schema_ok (st_db st) -> processItem w cfg it st = Returns st' -> schema_ok (st_db st').
Proof.
  intros Hok. unfold processItem.
  destruct (getHostLimiter _ _ _ _) as [lim limiters].
  destruct (Next (st_pool st)) as [[proxyURL pool]|]; [|discriminate].
  cbv zeta.
  destruct (fetchHTML _ _ _ _ _) as [[[status ctype] html] [e|]].
  - intros E. inversion E; subst st'. simpl. now apply markQueueError_schema.
  - destruct (isAllowedContentType ctype _); simpl negb; cbv iota.
    2:{ intros E. inversion E; subst st'. simpl. now apply markQueueError_schema. }
    pose proof (upsertPage_schema (w_upsert w) (st_db st) (SiteID it) (URL_ it)
                  (extractTitle html) (extractMetaDescription html) "" status ctype html
                  (extractVisibleText html) Hok) as Hup.
    destruct (upsertPage _ _ _ _ _ _ _ _ _ _ _) as [[pageID [e|]] db1]; simpl snd in Hup.
    + intros E. inversion E; subst st'. simpl. now apply markQueueError_schema.
    + intros E. inversion E; subst st'. simpl. apply markQueueDone_schema.
      destruct (getSiteDomain _ _ _) as [siteDomain [e|]]; [exact Hup|].
      now apply extractAndEnqueueLinks_schema.
Qed.

(** X4. One call of [pickAndProcessOne] leaves a database that meets every
    constraint of the schema: no statement of the worker (the claim, the page
    upsert, the link inserts, the enqueues, the final status update) can be
    stopped by a primary key, and the rows it leaves satisfy the unique
    indexes, the foreign keys, the CHECKs and the integer ranges. *)
Theorem pickAndProcessOne_keeps_schema (w : world) (cfg : Config) (st st' : state)
    (r : bool * option pgerr) :
  schema_ok (st_db st) ->
  pickAndProcessOne w cfg st = Returns (r, st') ->
  schema_ok (st_db st').
Proof.
  intros Hok. unfold pickAndProcessOne.
  pose proof (claimTx_schema (w_tx w) (st_db st) Hok) as Hc.
  destruct (claimTx (w_tx w) (st_db st)) as [[[it|] e] db1]; simpl snd in Hc.
  - destruct (processItem w cfg it (set_db st db1)) as [st1|] eqn:Hp; [|discriminate].
    intros E. inversion E; subst. apply (processItem_schema w cfg it (set_db st db1) _ Hc Hp).
  - destruct e as [e|]; [destruct (strings.Contains _ _)|];
      intros E; inversion E; subst; exact Hok.
Qed.

(** X5. The handler of POST /api/enqueue leaves a database that meets every
    constraint of the schema, whatever it answers. *)
Theorem handleEnqueue_keeps_schema (cs ce : conn) (cfg : Config) (method : string)
    (body : option EnqueueRequest) (db : DB) :
  schema_ok db -> schema_ok (snd (handleEnqueue cs ce cfg method body db)).
Proof.
  intros Hok. unfold handleEnqueue.
  destruct (negb (method =? "POST")%string); [exact Hok|].
  destruct body as [req|]; [|exact Hok].
  destruct (strings.TrimSpace (req_URL req) =? "")%string; [exact Hok|].
  destruct (url_Parse _) as [parsed|]; [|exact Hok].
  destruct ((Scheme parsed =? "")%string || (Host parsed =? "")%string); [exact Hok|].
  cbv zeta.
  destruct (normalizeHost _ =? "")%string; [exact Hok|].
  destruct (_ && negb (isHostAllowed _ _)); [exact Hok|].
  pose proof (ensureSite_schema cs db (normalizeHost (Host (set_Fragment parsed ""))) cfg Hok)
    as Hs.
  destruct (ensureSite _ _ _ _) as [[siteID [e|]] db1]; simpl snd in Hs; [exact Hs|].
  match goal with
  | |- context [enqueueIfNotExists ?c ?d ?i ?u ?h ?p] =>
      pose proof (insertIfNotExists_schema (crawl_queue d) c d i u h p Hs) as Hq;
      unfold enqueueIfNotExists
  end.
  destruct (insertIfNotExists _ _ _ _ _ _ _) as [[enq [e|]] db2]; exact Hq.
Qed.

End SchemaFacts.

Section SettledFacts.
Local Open Scope Z_scope.

Lemma rows_of_update_other (i id : Z) (f : queue_row -> queue_row) (rows : list queue_row) :
  id <> i -> (forall r, q_id (f r) = q_id r) ->
  rows_of i (update_by_id id f rows) = rows_of i rows.
Proof.
  intros Hne Hf. unfold rows_of, update_by_id.
  induction rows as [|r rows IH]; simpl; [reflexivity|]. rewrite IH.
  destruct (Z.eqb_spec (q_id r) id) as [E|E]; [|reflexivity].
  rewrite Hf. destruct (Z.eqb_spec (q_id r) i); [lia | reflexivity].
Qed.

Lemma In_rows_of (i : Z) (rows : list queue_row) (r : queue_row) :
  In r (rows_of i rows) <-> In r rows /\ q_id r = i.
Proof. unfold rows_of. rewrite filter_In, Z.eqb_eq. reflexivity. Qed.


Lemma settled_change (i : Z) (rows rows' : list queue_row) (ws : list wstate)
    (w : nat) (old new : wstate) :
  settled i {| sys_rows := rows; sys_workers := ws |} ->
  rows_of i rows' = rows_of i rows ->
  nth_error ws w = Some old -> holds new <> Some i ->
  settled i {| sys_rows := rows'; sys_workers := set_nth w new ws |}.
Proof.
  intros (Hex & Hst & Hw) Hrows Hold Hnew. simpl in *. split; [|split]; simpl.
  - destruct Hex as (r & Hr & E). exists r. apply In_rows_of. rewrite Hrows.
    now apply In_rows_of.
  - intros r Hr E. apply (Hst r); [|exact E].
    assert (In r (rows_of i rows')) as Hin by now apply In_rows_of.
    rewrite Hrows in Hin. now apply In_rows_of in Hin.
  - intros w' x Hx. rewrite (nth_error_set_nth ws w w' new old Hold) in Hx.
    destruct (Nat.eqb w' w); [inversion Hx; now subst | now apply (Hw w' x)].
Qed.

Lemma settled_holder (i : Z) (s : sys) (w : nat) (x : wstate) (j : Z) :
  settled i s -> nth_error (sys_workers s) w = Some x -> holds x = Some j -> j <> i.
Proof.
  intros (_ & _ & Hw) Hx Hh E. subst j. exact (Hw w x Hx Hh).
Qed.

Lemma step_keeps_settled (i : Z) (s s' : sys) :
  step s s' -> settled i s ->
  settled i s' /\ rows_of i (sys_rows s') = rows_of i (sys_rows s).
Proof.
  intros Hstep Hs.
  destruct Hstep as [rows ws w t r Hw Hsel | rows ws w t Hw Hsel
                    | rows rows' ws w t r Hw Hupd | rows ws w t r Hw
                    | rows ws w t it Hw | rows ws w t it msg next Hw
                    | rows ws w it Hw | rows ws w Hw | rows ws r Hfresh]; simpl.
  - split; [|reflexivity]. apply (settled_change i rows rows ws w Idle); auto.
    simpl. intros E. inversion E as [Ei].
    apply selectNext_some in Hsel as (Hin & Hel & _).
    destruct Hs as (_ & Hst & _). destruct (Hst r Hin Ei) as [D|D];
      unfold eligible in Hel; rewrite D in Hel; discriminate.
  - split; [|reflexivity]. apply (settled_change i rows rows ws w Idle); auto. discriminate.
  - assert (q_id r <> i) as Hne by (apply (settled_holder i _ w _ _ Hs Hw); reflexivity).
    unfold updToProcessing in Hupd. destruct (forallb _ rows); [|discriminate].
    inversion Hupd; subst rows'.
    assert (rows_of i (update_by_id (q_id r) (set_processing t) rows) = rows_of i rows)
      as Hr by (apply rows_of_update_other; auto).
    split; [|exact Hr]. apply (settled_change i rows _ ws w (Selected r t)); auto.
    simpl. congruence.
  - split; [|reflexivity].
    apply (settled_change i rows rows ws w (Selected r t)); auto. discriminate.
  - assert (ID it <> i) as Hne by (apply (settled_holder i _ w _ _ Hs Hw); reflexivity).
    assert (rows_of i (update_by_id (ID it) (set_done t) rows) = rows_of i rows)
      as Hr by (apply rows_of_update_other; auto).
    split; [|exact Hr]. apply (settled_change i rows _ ws w (Working it)); auto. discriminate.
  - assert (ID it <> i) as Hne by (apply (settled_holder i _ w _ _ Hs Hw); reflexivity).
    assert (rows_of i (update_by_id (ID it) (set_error msg next t) rows) = rows_of i rows)
      as Hr by (apply rows_of_update_other; auto).
    split; [|exact Hr]. apply (settled_change i rows _ ws w (Working it)); auto. discriminate.
  - split; [|reflexivity].
    apply (settled_change i rows rows ws w (Working it)); auto. discriminate.
  - split; [|reflexivity].
    apply (settled_change i rows rows ws w Sleeping); auto. discriminate.
  - assert (rows_of i (rows ++ [r]) = rows_of i rows) as Hr.
    { unfold rows_of. rewrite filter_app. simpl.
      destruct (Z.eqb_spec (q_id r) i) as [E|E]; [|apply app_nil_r].
      exfalso. destruct Hs as ((x & Hx & Ex) & _). simpl in Hx.
      apply (Hfresh x Hx). congruence. }
    split; [|exact Hr]. destruct Hs as (Hex & Hst & Hwk). simpl in *.
    split; [|split]; simpl.
    + destruct Hex as (x & Hx & E). exists x. split; [apply in_app_iff; now left | exact E].
    + intros x Hx E. apply (Hst x); [|exact E].
      assert (In x (rows_of i (rows ++ [r]))) as Hin by now apply In_rows_of.
      rewrite Hr in Hin. now apply In_rows_of in Hin.
    + exact Hwk.
Qed.

Lemma steps_keep_settled (i : Z) (s s' : sys) :
  steps s s' -> settled i s ->
  settled i s' /\ rows_of i (sys_rows s') = rows_of i (sys_rows s).
Proof.
  induction 1 as [s|s1 s2 s3 _ IH Hst]; intros Hs; [now split|].
  destruct (IH Hs) as [H2 R2].
  destruct (step_keeps_settled i s2 s3 Hst H2) as [H3 R3].
  split; [exact H3 | now rewrite R3].
Qed.

Lemma marked_is_settled (rows : list queue_row) (ws : list wstate) (w : nat)
    (it : queueItem) (f : queue_row -> queue_row) :
  (forall r, q_id (f r) = q_id r) ->
  (forall r, q_status (f r) = StDone \/ q_status (f r) = StError) ->
  race_inv {| sys_rows := rows; sys_workers := ws |} ->
  nth_error ws w = Some (Working it) ->
  settled (ID it) {| sys_rows := update_by_id (ID it) f rows;
                     sys_workers := set_nth w Idle ws |}.
Proof.
  intros Hid Hst (_ & Hrow & Hex) Hw. simpl in *. split; [|split]; simpl.
  - destruct (Hrow w (Working it) (ID it) Hw eq_refl) as (r & Hr & E).
    apply update_by_id_keeps_ids; [exact Hid | now exists r].
  - intros r Hr E. apply In_update_by_id_cases in Hr as [[_ Hne]|(r0 & _ & _ & ->)];
      [contradiction | apply Hst].
  - intros w' x Hx Hh. rewrite (nth_error_set_nth ws w w' Idle _ Hw) in Hx.
    destruct (Nat.eqb_spec w' w) as [E|E]; [inversion Hx; subst; discriminate|].
    apply E. apply (Hex w' w (ID it)); simpl;
      [rewrite Hx; simpl; now rewrite Hh | rewrite Hw; reflexivity].
Qed.

(** X6. An item that is done or error and that no worker holds stays as it is in
    every run of the workers: its rows are never changed again and no worker
    ever holds it again, so a row marked error is not retried, whatever its
    next_try_at.  And an item is settled as soon as the worker that holds it
    has marked it done or error. *)
Theorem settled_items_are_never_claimed_again :
  (forall i s s',
     steps s s' -> settled i s ->
     settled i s' /\ rows_of i (sys_rows s') = rows_of i (sys_rows s))
  /\ (forall rows ws w it t msg next,
        race_inv {| sys_rows := rows; sys_workers := ws |} ->
        nth_error ws w = Some (Working it) ->
        settled (ID it) {| sys_rows := update_by_id (ID it) (set_error msg next t) rows;
                           sys_workers := set_nth w Idle ws |}
        /\ settled (ID it) {| sys_rows := update_by_id (ID it) (set_done t) rows;
                              sys_workers := set_nth w Idle ws |}).
Proof.
  split; [exact steps_keep_settled|].
  intros rows ws w it t msg next Hinv Hw.
  split; apply marked_is_settled; auto.
Qed.

End SettledFacts.

(** ** The statements of the queue, the sites and the links, one after another *)

Section StatementFacts.
Context `{GoLib}.
Local Open Scope Z_scope.

Lemma claimTx_takes_queued (tx : txctx) (db db' : DB) (it : queueItem) (e : option pgerr) :
  claimTx tx db = ((Some it, e), db') ->
  exists r, In r (crawl_queue db) /\ q_id r = ID it /\ q_status r = StQueued.
Proof.
  intros Hc. apply claimTx_select_commit in Hc as (r & Hsel & -> & _).
  apply selectNext_some in Hsel as (Hin & Hel & _).
  exists r. repeat split; auto. unfold eligible in Hel.
  destruct (q_status r); try discriminate. reflexivity.
Qed.

(** X7. A row that [markQueueError] or [markQueueDone] has marked is not the row
    that the next claim takes, at whatever time the claim is made and
    whatever next_try_at the row was given: the claim takes queued rows
    only. *)
Theorem marked_rows_are_not_claimed (c : conn) (db db' : DB) (id : Z) (msg : string)
    (retryAfter : Z) (tx : txctx) (it : queueItem) (e : option pgerr) :
  fails c = false ->
  claimTx tx (markQueueError c db id msg retryAfter) = ((Some it, e), db')
  \/ claimTx tx (markQueueDone c db id) = ((Some it, e), db') ->
  ID it <> id.
Proof.
  intros Hc Hclaim E.
  destruct Hclaim as [Hclaim|Hclaim]; apply claimTx_takes_queued in Hclaim as (r & Hr & Ei & Hq).
  - unfold markQueueError in Hr. rewrite Hc in Hr. simpl in Hr.
    apply In_update_by_id_cases in Hr as [[_ Hne]|(r0 & _ & _ & ->)];
      [congruence | discriminate Hq].
  - unfold markQueueDone in Hr. rewrite Hc in Hr. simpl in Hr.
    apply In_update_by_id_cases in Hr as [[_ Hne]|(r0 & _ & _ & ->)];
      [congruence | discriminate Hq].
Qed.

(** X8. When [pickAndProcessOne] answers false, with or without an error, it has
    changed nothing: the claim was rolled back, or there was none.  It
    answers false without an error exactly when the transaction could begin
    and its SELECT found no row; and what it answers with true is never an
    error. *)
Theorem pickAndProcessOne_false_changes_nothing (w : world) (cfg : Config) (st st' : state)
    (ok : bool) (e : option pgerr) :
  pickAndProcessOne w cfg st = Returns ((ok, e), st') ->
  (ok = false ->
     st' = st
     /\ (e = None <->
         begin_fails (w_tx w) = false /\ select_fails (w_tx w) = false
         /\ selectNext (tx_now (w_tx w)) (tx_locked (w_tx w)) (crawl_queue (st_db st))
            = None))
  /\ (ok = true -> e = None).
Proof.
  unfold pickAndProcessOne, claimTx.
  destruct (begin_fails (w_tx w)).
  { simpl. intros E; inversion E; subst. split; [|discriminate]. intros _.
    split; [reflexivity|]. split; [discriminate | intros (? & _); discriminate]. }
  destruct (select_fails (w_tx w)).
  { simpl. intros E; inversion E; subst. split; [|discriminate]. intros _.
    split; [reflexivity|]. split; [discriminate | intros (_ & ? & _); discriminate]. }
  destruct (selectNext _ _ _) as [r|] eqn:Hsel.
  2:{ simpl. intros E; inversion E; subst. split; [|discriminate]. intros _.
      split; [reflexivity|]. split; auto. }
  destruct (update_fails (w_tx w)).
  { simpl. intros E; inversion E; subst. split; [|discriminate]. intros _.
    split; [reflexivity|]. split; [discriminate | intros (_ & _ & ?); discriminate]. }
  simpl ID. destruct (updToProcessing _ _ _) as [rows|].
  2:{ simpl. intros E; inversion E; subst. split; [|discriminate]. intros _.
      split; [reflexivity|]. split; [discriminate | intros (_ & _ & ?); discriminate]. }
  destruct (commit_fails (w_tx w)).
  { simpl. intros E; inversion E; subst. split; [|discriminate]. intros _.
    split; [reflexivity|]. split; [discriminate | intros (_ & _ & ?); discriminate]. }
  destruct (processItem _ _ _ _); [|discriminate].
  intros E; inversion E; subst. split; [discriminate | reflexivity].
Qed.


Lemma find_site_by_id (ss : list site_row) (s : site_row) :
  NoDup (map s_id ss) -> In s ss ->
  List.find (fun x => s_id x =? s_id s) ss = Some s.
Proof.
  induction ss as [|x ss IH]; intros Hnd Hin; [destruct Hin|].
  simpl in *. inversion Hnd as [|? ? Hni Hnd']; subst.
  destruct Hin as [->|Hin]; [now rewrite Z.eqb_refl|].
  destruct (Z.eqb_spec (s_id x) (s_id s)) as [E|E]; [|now apply IH].
  exfalso. apply Hni. rewrite E. now apply in_map.
Qed.

Lemma find_site_snoc (ss : list site_row) (row : site_row) :
  (forall x, In x ss -> s_id x <> s_id row) ->
  List.find (fun x => s_id x =? s_id row) (ss ++ [row]) = Some row.
Proof.
  induction ss as [|x ss IH]; intros Hne; simpl.
  - now rewrite Z.eqb_refl.
  - destruct (Z.eqb_spec (s_id x) (s_id row)) as [E|E].
    + exfalso. apply (Hne x); [now left | exact E].
    + apply IH. intros y Hy. apply Hne. now right.
Qed.

Lemma find_domain_map (domain : string) (f : site_row -> site_row) (ss : list site_row) :
  (forall r, s_domain (f r) = s_domain r) ->
  List.find (fun s => (s_domain s =? domain)%string) (map f ss)
  = option_map f (List.find (fun s => (s_domain s =? domain)%string) ss).
Proof.
  intros Hf. induction ss as [|x ss IH]; simpl; [reflexivity|].
  rewrite Hf. destruct (s_domain x =? domain)%string; [reflexivity | exact IH].
Qed.

Lemma find_domain_snoc (domain : string) (ss : list site_row) (row : site_row) :
  List.find (fun s => (s_domain s =? domain)%string) ss = None ->
  s_domain row = domain ->
  List.find (fun s => (s_domain s =? domain)%string) (ss ++ [row]) = Some row.
Proof.
  intros Hf Hd. induction ss as [|x ss IH]; simpl in *.
  - now rewrite Hd, String.eqb_refl.
  - destruct (s_domain x =? domain)%string; [discriminate | now apply IH].
Qed.

Lemma ensureSite_getSiteDomain (c c1 : conn) (db db' : DB) (domain : string)
    (cfg : Config) (id : Z) :
  keyed s_id (sites db) (sites_seq db) ->
  ensureSite c db domain cfg = ((id, None), db') ->
  fails c1 = false ->
  getSiteDomain c1 db' id = (domain, None).
Proof.
  intros [Hnd Hb] Hens Hc1. unfold ensureSite in Hens.
  destruct (fails c); [discriminate|].
  destruct (negb _); [discriminate|]. cbv zeta in Hens.
  destruct (List.find _ (sites db)) as [s|] eqn:Ef.
  - inversion Hens; subst id db'; clear Hens.
    pose proof (find_some _ _ Ef) as [Hin Hdom]. simpl in Hdom.
    apply String.eqb_eq in Hdom.
    match goal with
    | |- context [set_sites db (map ?u _) _] => set (touch := u)
    end.
    assert (forall r, s_id (touch r) = s_id r) as Tid
      by (intros r; unfold touch; destruct (s_domain r =? domain)%string; reflexivity).
    assert (forall r, s_domain (touch r) = s_domain r) as Tdom
      by (intros r; unfold touch; destruct (s_domain r =? domain)%string; reflexivity).
    unfold getSiteDomain. rewrite Hc1. simpl sites.
    assert (List.find (fun x => s_id x =? s_id s) (map touch (sites db)) = Some (touch s))
      as Hfind.
    { rewrite <- (Tid s). apply find_site_by_id.
      - rewrite map_map. now rewrite (map_ext _ s_id) by exact Tid.
      - now apply in_map. }
    rewrite Hfind. now rewrite Tdom, Hdom.
  - inversion Hens; subst id db'; clear Hens.
    match goal with
    | |- context [set_sites db (sites db ++ [?x]) _] => set (row := x)
    end.
    unfold getSiteDomain. rewrite Hc1. simpl sites.
    change (sites_seq db + 1) with (s_id row).
    rewrite find_site_snoc; [reflexivity|].
    intros x Hx. specialize (Hb x Hx). simpl. lia.
Qed.

Lemma ensureSite_again (c c2 : conn) (db db' : DB) (domain : string)
    (cfg cfg2 : Config) (id : Z) :
  ensureSite c db domain cfg = ((id, None), db') ->
  fails c2 = false ->
  int4 (RPSPerHost (Crawler cfg2)) = true -> int4 (RPSBurst (Crawler cfg2)) = true ->
  int4 (DepthLimit (Crawler cfg2)) = true ->
  fst (ensureSite c2 db' domain cfg2) = (id, None)
  /\ map s_id (sites (snd (ensureSite c2 db' domain cfg2))) = map s_id (sites db')
  /\ map s_rps_limit (sites (snd (ensureSite c2 db' domain cfg2)))
     = map s_rps_limit (sites db').
Proof.
  intros Hens Hc2 I1 I2 I3. unfold ensureSite in Hens.
  destruct (fails c); [discriminate|].
  destruct (negb _); [discriminate|]. cbv zeta in Hens.
  assert (forall d' s',
            List.find (fun s => (s_domain s =? domain)%string) (sites d') = Some s' ->
            fst (ensureSite c2 d' domain cfg2) = (s_id s', None)
            /\ map s_id (sites (snd (ensureSite c2 d' domain cfg2))) = map s_id (sites d')
            /\ map s_rps_limit (sites (snd (ensureSite c2 d' domain cfg2)))
               = map s_rps_limit (sites d')) as Hagain.
  { intros d' s' Hf. unfold ensureSite. rewrite Hc2, I1, I2, I3. simpl negb. cbv iota zeta.
    rewrite Hf. simpl. rewrite !map_map. split; [reflexivity|].
    split; apply map_ext; intros a; destruct (s_domain a =? domain)%string; reflexivity. }
  destruct (List.find _ (sites db)) as [s|] eqn:Ef.
  - inversion Hens; subst id db'; clear Hens.
    match goal with
    | |- context [set_sites db (map ?u _) _] => set (touch := u)
    end.
    assert (forall r, s_id (touch r) = s_id r) as Tid
      by (intros r; unfold touch; destruct (s_domain r =? domain)%string; reflexivity).
    assert (forall r, s_domain (touch r) = s_domain r) as Tdom
      by (intros r; unfold touch; destruct (s_domain r =? domain)%string; reflexivity).
    rewrite <- (Tid s). apply Hagain. simpl sites.
    rewrite (find_domain_map domain touch _ Tdom), Ef. reflexivity.
  - inversion Hens; subst id db'; clear Hens.
    match goal with
    | |- context [set_sites db (sites db ++ [?x]) _] => set (row := x)
    end.
    change (sites_seq db + 1) with (s_id row). apply Hagain. simpl sites.
    now apply find_domain_snoc.
Qed.

(** X9. [ensureSite] and [getSiteDomain] agree: the identifier that [ensureSite]
    returns for a domain is the identifier under which [getSiteDomain] finds
    that domain, and a later [ensureSite] for the same domain returns the
    same identifier and adds no site and changes no stored rate limit,
    whatever the configuration then says. *)
Theorem ensureSite_getSiteDomain_round_trip (c c1 c2 : conn) (db db' : DB)
    (domain : string) (cfg cfg2 : Config) (id : Z) :
  keyed s_id (sites db) (sites_seq db) ->
  ensureSite c db domain cfg = ((id, None), db') ->
  fails c1 = false -> fails c2 = false ->
  int4 (RPSPerHost (Crawler cfg2)) = true -> int4 (RPSBurst (Crawler cfg2)) = true ->
  int4 (DepthLimit (Crawler cfg2)) = true ->
  getSiteDomain c1 db' id = (domain, None)
  /\ fst (ensureSite c2 db' domain cfg2) = (id, None)
  /\ map s_id (sites (snd (ensureSite c2 db' domain cfg2))) = map s_id (sites db')
  /\ map s_rps_limit (sites (snd (ensureSite c2 db' domain cfg2)))
     = map s_rps_limit (sites db').
Proof.
  intros Hkey Hens Hc1 Hc2 I1 I2 I3. split.
  - exact (ensureSite_getSiteDomain c c1 db db' domain cfg id Hkey Hens Hc1).
  - exact (ensureSite_again c c2 db db' domain cfg cfg2 id Hens Hc2 I1 I2 I3).
Qed.

(** X10. [insertPageLink] twice for the same page and hash leaves the links as
    the first call left them (ON CONFLICT DO NOTHING), and the second call
    reports an error only if the page is missing. *)
Theorem insertPageLink_twice (c1 c2 : conn) (db : DB) (fromPageID : Z)
    (toURL toURL' toURLHash : string) :
  fails c1 = false -> fails c2 = false ->
  let db1 := snd (insertPageLink c1 db fromPageID toURL toURLHash) in
  page_links (snd (insertPageLink c2 db1 fromPageID toURL' toURLHash)) = page_links db1
  /\ (fst (insertPageLink c2 db1 fromPageID toURL' toURLHash) = None
      <-> page_exists db fromPageID = true
          \/ existsb (fun l => (l_from_page_id l =? fromPageID)
                               && (l_to_url_hash l =? toURLHash)%string) (page_links db)
             = true).
Proof.
  intros Hc1 Hc2. cbv zeta. unfold insertPageLink. rewrite Hc1, Hc2. cbv zeta.
  destruct (existsb _ (page_links db)) eqn:Eex.
  - simpl snd. simpl page_links. rewrite Eex. simpl. split; [reflexivity|]. split; auto.
  - destruct (page_exists db fromPageID) eqn:Ep; simpl negb; cbv iota; simpl snd.
    + simpl page_links. rewrite existsb_app. simpl.
      rewrite Z.eqb_refl, String.eqb_refl. simpl. rewrite orb_true_r. simpl.
      split; [reflexivity|]. split; auto.
    + simpl page_links. rewrite Eex.
      change (page_exists (set_page_links db (page_links db) (page_links_seq db + 1))
                fromPageID) with (page_exists db fromPageID).
      rewrite Ep. simpl. split; [reflexivity|].
      split; [discriminate | intros [?|?]; discriminate].
Qed.

End StatementFacts.

(** ** What a statement leaves alone *)

Section FrameFacts.
Context `{GoLib}.
Local Open Scope Z_scope.

Lemma insertPageLink_frame (c : conn) (db : DB) (fromPageID : Z) (toURL toURLHash : string) :
  let db' := snd (insertPageLink c db fromPageID toURL toURLHash) in
  sites db' = sites db /\ pages db' = pages db /\ crawl_queue db' = crawl_queue db
  /\ (page_links db' = page_links db
      \/ exists l, page_links db' = (page_links db ++ [l])%list).
Proof.
  cbv zeta. unfold insertPageLink.
  repeat match goal with
         | |- context [if ?b then _ else _] => destruct b
         end; simpl; repeat split; auto.
  right. eexists. reflexivity.
Qed.

Lemma insertIfNotExists_frame (snapshot : list queue_row) (c : conn) (db : DB)
    (siteID : Z) (url urlHash : string) (priority : Z) :
  let db' := snd (insertIfNotExists snapshot c db siteID url urlHash priority) in
  sites db' = sites db /\ pages db' = pages db /\ page_links db' = page_links db.
Proof.
  cbv zeta. unfold insertIfNotExists.
  repeat match goal with
         | |- context [if ?b then _ else _] => destruct b
         end; simpl; auto.
Qed.

Lemma markQueueDone_frame (c : conn) (db : DB) (id : Z) :
  sites (markQueueDone c db id) = sites db /\ pages (markQueueDone c db id) = pages db
  /\ page_links (markQueueDone c db id) = page_links db.
Proof. unfold markQueueDone. destruct (fails c); simpl; auto. Qed.

Lemma linkStep_frame (lc ec : conn) (siteID : Z) (siteDomain : string) (fromPageID : Z)
    (base : URL) (st : linkState) (m : list string) :
  let st' := linkStep lc ec siteID siteDomain fromPageID base st m in
  sites (ls_db st') = sites (ls_db st) /\ pages (ls_db st') = pages (ls_db st).
Proof.
  cbv zeta. unfold linkStep.
  destruct (resolveHref base m) as [abs|]; [|auto].
  destruct (isInDomain (Host abs) siteDomain); simpl negb; cbv iota; [|auto].
  destruct (inSeen (ls_seen st) (url_String abs)); [auto|]. cbv zeta.
  destruct (insertPageLink_frame lc (ls_db st) fromPageID (url_String abs)
              (sha256Hex (url_String abs))) as (L1 & L2 & _).
  match goal with
  | |- context [enqueueIfNotExists ?c ?d ?i ?u ?h ?p] =>
      destruct (insertIfNotExists_frame (crawl_queue d) c d i u h p) as (Q1 & Q2 & _);
      unfold enqueueIfNotExists
  end.
  destruct (insertIfNotExists _ _ _ _ _ _ _) as [[[|] [e|]] db2]; simpl in *;
    split; congruence.
Qed.

Lemma linkLoop_frame (lc ec : nat -> conn) (siteID : Z) (siteDomain : string)
    (fromPageID : Z) (base : URL) (matches : list (list string)) :
  forall (i : nat) (st : linkState),
    let st' := linkLoop lc ec siteID siteDomain fromPageID base i matches st in
    sites (ls_db st') = sites (ls_db st) /\ pages (ls_db st') = pages (ls_db st).
Proof.
  induction matches as [|m rest IH]; intros i st; simpl; [auto|].
  destruct (IH (S i) (linkStep (lc i) (ec i) siteID siteDomain fromPageID base st m))
    as [I1 I2].
  destruct (linkStep_frame (lc i) (ec i) siteID siteDomain fromPageID base st m) as [S1 S2].
  split; congruence.
Qed.

Lemma extractAndEnqueueLinks_frame (lc ec : nat -> conn) (db : DB) (siteID : Z)
    (siteDomain : string) (fromPageID : Z) (baseURL html : string) :
  let db' := snd (extractAndEnqueueLinks lc ec db siteID siteDomain fromPageID baseURL html) in
  sites db' = sites db /\ pages db' = pages db.
Proof.
  cbv zeta. unfold extractAndEnqueueLinks.
  destruct (url_Parse baseURL) as [base|]; [|auto]. simpl snd.
  apply (linkLoop_frame lc ec siteID siteDomain fromPageID base _ O
           {| ls_db := db; ls_seen := []; ls_enqueued := 0 |}).
Qed.

End FrameFacts.

(** ** The link loop: what it counts *)

Section LinkCounts.
Context `{GoLib}.
Local Open Scope Z_scope.

(** One round of the loop either changes nothing, or adds one URL to [seen]
    that was not there, at most one link row, and at most one queue row,
    which is counted. *)
Lemma linkStep_counts (lc ec : conn) (siteID : Z) (siteDomain : string) (fromPageID : Z)
    (base : URL) (st : linkState) (m : list string) :
  let st' := linkStep lc ec siteID siteDomain fromPageID base st m in
  st' = st
  \/ exists final,
       ls_seen st' = (ls_seen st ++ [final])%list /\ ~ In final (ls_seen st)
       /\ (List.length (page_links (ls_db st')) <= S (List.length (page_links (ls_db st))))%nat
       /\ ((ls_enqueued st' = ls_enqueued st
            /\ crawl_queue (ls_db st') = crawl_queue (ls_db st))
           \/ (ls_enqueued st' = ls_enqueued st + 1
               /\ exists r, crawl_queue (ls_db st') = (crawl_queue (ls_db st) ++ [r])%list
                            /\ q_url r = final /\ q_url_hash r = sha256Hex final
                            /\ q_attempts r = 0)).
Proof.
  cbv zeta. unfold linkStep.
  destruct (resolveHref base m) as [abs|]; [|now left].
  destruct (isInDomain (Host abs) siteDomain); simpl negb; cbv iota; [|now left].
  destruct (inSeen (ls_seen st) (url_String abs)) eqn:Es; [now left|]. cbv zeta.
  right. exists (url_String abs).
  assert (~ In (url_String abs) (ls_seen st)) as Hni
    by (intros Hin; apply inSeen_true in Hin; congruence).
  destruct (insertPageLink_frame lc (ls_db st) fromPageID (url_String abs)
              (sha256Hex (url_String abs))) as (_ & _ & Lq & Ll).
  set (db1 := snd (insertPageLink lc (ls_db st) fromPageID (url_String abs)
                     (sha256Hex (url_String abs)))) in *.
  assert (List.length (page_links db1) <= S (List.length (page_links (ls_db st))))%nat
    as Hlen.
  { destruct Ll as [->|[l ->]]; [lia|]. rewrite length_app. simpl. lia. }
  destruct (insertIfNotExists_frame (crawl_queue db1) ec db1 siteID (url_String abs)
              (sha256Hex (url_String abs)) 0) as (_ & _ & Ql).
  unfold enqueueIfNotExists.
  destruct (insertIfNotExists _ _ _ _ _ _ _) as [[ok e] db2] eqn:Ee. simpl in Ql.
  destruct ok.
  - apply insertIfNotExists_true in Ee as (-> & _ & _ & Hq). simpl.
    repeat split; auto; [congruence|]. right. split; [reflexivity|].
    eexists. rewrite Hq, Lq. repeat split.
  - apply insertIfNotExists_false in Ee.
    destruct e; simpl; (repeat split; auto; [congruence|]); left; split; congruence.
Qed.

Lemma linkLoop_counts (lc ec : nat -> conn) (siteID : Z) (siteDomain : string)
    (fromPageID : Z) (base : URL) (matches : list (list string)) :
  forall (i : nat) (st : linkState),
    NoDup (ls_seen st) ->
    let st' := linkLoop lc ec siteID siteDomain fromPageID base i matches st in
    exists added fresh,
      crawl_queue (ls_db st') = (crawl_queue (ls_db st) ++ added)%list
      /\ ls_seen st' = (ls_seen st ++ fresh)%list
      /\ NoDup (ls_seen st')
      /\ ls_enqueued st' = ls_enqueued st + Z.of_nat (List.length added)
      /\ (List.length added <= List.length fresh <= List.length matches)%nat
      /\ (List.length (page_links (ls_db st'))
          <= List.length (page_links (ls_db st)) + List.length fresh)%nat
      /\ NoDup (map q_url added)
      /\ forall r, In r added ->
           In (q_url r) fresh /\ q_url_hash r = sha256Hex (q_url r) /\ q_attempts r = 0.
Proof.
  induction matches as [|m rest IH]; intros i st Hnd; cbn [linkLoop]; cbv zeta.
  - exists [], []. rewrite !app_nil_r. simpl. conjs; auto; try lia; try constructor.
    all: try (intros r []).
  - destruct (linkStep_counts (lc i) (ec i) siteID siteDomain fromPageID base st m)
      as [Hsame|(final & Hseen & Hni & Hlinks & Hq)].
    + rewrite Hsame. destruct (IH (S i) st Hnd)
        as (added & fresh & Q & S1 & N & E & L & PL & NU & R).
      exists added, fresh. conjs; auto; simpl; lia.
    + set (st1 := linkStep (lc i) (ec i) siteID siteDomain fromPageID base st m) in *.
      assert (NoDup (ls_seen st1)) as Hnd1
        by (rewrite Hseen; now apply NoDup_snoc).
      destruct (IH (S i) st1 Hnd1) as (added & fresh & Q & S1 & N & E & L & PL & NU & R).
      assert (NoDup (ls_seen st ++ final :: fresh)) as N'
        by (rewrite S1, Hseen, <- app_assoc in N; exact N).
      destruct Hq as [[He Hq]|[He (r & Hq & Hu & Hh & Ha)]].
      * exists added, (final :: fresh).
        rewrite Q, S1, Hq, Hseen, E, He, <- app_assoc. simpl.
        conjs; auto; try lia.
        intros x Hx. destruct (R x Hx) as (R1 & R2 & R3). auto.
      * exists (r :: added), (final :: fresh).
        rewrite Q, S1, Hq, Hseen, E, He, <- !app_assoc. simpl.
        conjs; auto; try lia.
        -- constructor; [|exact NU]. intros Hin.
           apply in_map_iff in Hin as (x & Ex & Hx). destruct (R x Hx) as (Hf & _).
           apply NoDup_remove_2 in N'. apply N', in_app_iff. right. congruence.
        -- intros x [<-|Hx].
           ++ conjs; [now left | congruence | assumption].
           ++ destruct (R x Hx) as (R1 & R2 & R3). auto.
Qed.


(** X11. [extractAndEnqueueLinks] counts what it does: the first number it returns
    is the number of rows it has added to the queue, the second the number of
    distinct links it has accepted, which is at most the number of matches of
    the href pattern and bounds the link rows added.  The rows added have
    distinct URLs, carry the SHA-256 of their URL as hash and no attempt; the
    sites and the pages are left as they were. *)
Theorem extractAndEnqueueLinks_counts (lc ec : nat -> conn) (db : DB) (siteID : Z)
    (siteDomain : string) (fromPageID : Z) (baseURL html : string) :
  let r := extractAndEnqueueLinks lc ec db siteID siteDomain fromPageID baseURL html in
  let enqueued := fst (fst (fst r)) in
  let total := snd (fst (fst r)) in
  exists added,
    crawl_queue (snd r) = (crawl_queue db ++ added)%list
    /\ enqueued = Z.of_nat (List.length added)
    /\ enqueued <= total
       <= Z.of_nat (List.length (regexp.FindAllStringSubmatch reHref html))
    /\ Z.of_nat (List.length (page_links (snd r)))
       <= Z.of_nat (List.length (page_links db)) + total
    /\ NoDup (map q_url added)
    /\ (forall x, In x added -> q_url_hash x = sha256Hex (q_url x) /\ q_attempts x = 0)
    /\ sites (snd r) = sites db /\ pages (snd r) = pages db.
Proof.
  cbv zeta.
  destruct (extractAndEnqueueLinks_frame lc ec db siteID siteDomain fromPageID baseURL html)
    as [Fs Fp].
  revert Fs Fp. unfold extractAndEnqueueLinks.
  destruct (url_Parse baseURL) as [base|].
  2:{ intros _ _. exists []. simpl. rewrite app_nil_r. conjs; auto; try lia; try constructor.
      all: try (intros x []). }
  simpl fst. simpl snd. intros Fs Fp.
  destruct (linkLoop_counts lc ec siteID siteDomain fromPageID base
              (regexp.FindAllStringSubmatch reHref html) O
              {| ls_db := db; ls_seen := []; ls_enqueued := 0 |} (NoDup_nil _))
    as (added & fresh & Q & S1 & N & E & L & PL & NU & R).
  simpl in Q, S1, E, PL. exists added. rewrite S1.
  conjs; auto; try lia.
  intros x Hx. destruct (R x Hx) as (_ & R2 & R3). auto.
Qed.

End LinkCounts.

(** ** The handler of POST /api/enqueue *)

Section HandlerFacts.
Context `{GoLib}.
Local Open Scope Z_scope.

Lemma ensureSite_frame (c : conn) (db : DB) (domain : string) (cfg : Config) :
  let db' := snd (ensureSite c db domain cfg) in
  crawl_queue db' = crawl_queue db /\ pages db' = pages db
  /\ page_links db' = page_links db.
Proof.
  cbv zeta. unfold ensureSite.
  destruct (fails c); [auto|]. destruct (negb _); [auto|]. cbv zeta.
  destruct (List.find _ _); simpl; auto.
Qed.

(** X12. An answer of [handleEnqueue] that is an error carries the status 405 (the
    method is not POST), 400, 403 or 500; with any of the first three the
    database is left as it was, and with none of the four has a row been
    added to the queue, the pages or the links. *)
Theorem handleEnqueue_errors_add_nothing (cs ce : conn) (cfg : Config) (method : string)
    (body : option EnqueueRequest) (db db' : DB) (code : Z) (msg : string) :
  handleEnqueue cs ce cfg method body db = (HttpError code msg, db') ->
  (code = 405 \/ code = 400 \/ code = 403 \/ code = 500)
  /\ (code = 405 <-> method <> "POST")
  /\ (code <> 500 -> db' = db)
  /\ crawl_queue db' = crawl_queue db /\ pages db' = pages db
  /\ page_links db' = page_links db.
Proof.
  unfold handleEnqueue.
  destruct (method =? "POST")%string eqn:Em; simpl negb; cbv iota.
  2:{ apply String.eqb_neq in Em. intros E; inversion E; subst.
      conjs; auto; try lia. split; auto. }
  apply String.eqb_eq in Em.
  assert (forall c : Z, c <> 405 -> (c = 405 <-> method <> "POST")) as H405
    by (intros c Hc; split; [contradiction | intros Hm; contradiction]).
  destruct body as [req|]; [|intros E; inversion E; subst; conjs; auto; try lia; apply H405; lia].
  destruct (strings.TrimSpace (req_URL req) =? "")%string;
    [intros E; inversion E; subst; conjs; auto; try lia; apply H405; lia|].
  destruct (url_Parse _) as [parsed|]; [|intros E; inversion E; subst; conjs; auto; try lia; apply H405; lia].
  destruct ((Scheme parsed =? "")%string || (Host parsed =? "")%string);
    [intros E; inversion E; subst; conjs; auto; try lia; apply H405; lia|].
  cbv zeta.
  destruct (normalizeHost _ =? "")%string;
    [intros E; inversion E; subst; conjs; auto; try lia; apply H405; lia|].
  destruct (_ && negb (isHostAllowed _ _));
    [intros E; inversion E; subst; conjs; auto; try lia; apply H405; lia|].
  destruct (ensureSite_frame cs db (normalizeHost (Host (set_Fragment parsed ""))) cfg)
    as (Sq & Sp & Sl).
  destruct (ensureSite _ _ _ _) as [[siteID [e|]] db1]; simpl snd in *.
  { intros E; inversion E; subst. conjs; auto; try lia. apply H405; lia. }
  match goal with
  | |- context [enqueueIfNotExists ?c ?d ?i ?u ?h ?p] =>
      destruct (insertIfNotExists_frame (crawl_queue d) c d i u h p) as (_ & Qp & Ql);
      unfold enqueueIfNotExists
  end.
  destruct (insertIfNotExists _ _ _ _ _ _ _) as [[enq [e|]] db2] eqn:Ee; [|discriminate].
  intros E; inversion E; subst. simpl snd in *.
  assert (crawl_queue db' = crawl_queue db1) as Qq.
  { destruct enq.
    - apply insertIfNotExists_true in Ee as (Enone & _). discriminate.
    - now apply insertIfNotExists_false in Ee. }
  conjs; auto; try lia; try congruence. apply H405; lia.
Qed.


Lemma insertIfNotExists_duplicate (snapshot : list queue_row) (c : conn) (db db' : DB)
    (siteID : Z) (url urlHash : string) (priority : Z) :
  insertIfNotExists snapshot c db siteID url urlHash priority = ((false, None), db') ->
  has_active snapshot siteID urlHash = true /\ db' = db.
Proof.
  unfold insertIfNotExists.
  destruct (fails c); [discriminate|]. destruct (negb _); [discriminate|].
  destruct (has_active snapshot siteID urlHash); [intros E; inversion E; auto|].
  cbv zeta. destruct (has_active (crawl_queue db) siteID urlHash); [discriminate|].
  destruct (negb _); discriminate.
Qed.

Lemma has_active_snoc (rows : list queue_row) (c : conn) (id siteID : Z)
    (url urlHash : string) (priority : Z) :
  has_active (rows ++ [new_queue_row id c siteID url urlHash priority]) siteID urlHash = true.
Proof.
  unfold has_active. rewrite existsb_app. simpl. unfold same_key. simpl.
  rewrite Z.eqb_refl, String.eqb_refl. simpl. apply orb_true_r.
Qed.

Lemma getSiteDomain_sites (c : conn) (db db' : DB) (i : Z) :
  sites db' = sites db -> getSiteDomain c db' i = getSiteDomain c db i.
Proof. intros E. unfold getSiteDomain. now rewrite E. Qed.

(** X13. When [handleEnqueue] answers with a JSON body, the status is 200 and the
    request was a POST with a URL that parses to a scheme and a host.  The
    URL answered is that URL without its fragment and with the normalised
    host, its hash is the SHA-256 of that text, the host passes the whitelist
    if there is one, the site answered is the site of that host, and the URL
    is then active in the queue of that site, whether this call inserted it
    or an earlier one; a duplicate leaves the queue as it was. *)
Theorem handleEnqueue_accepted (cs ce : conn) (cfg : Config) (method : string)
    (body : option EnqueueRequest) (db db' : DB) (code : Z) (v : EnqueueResponse) :
  keyed s_id (sites db) (sites_seq db) ->
  handleEnqueue cs ce cfg method body db = (HttpJSON code v, db') ->
  code = 200 /\ method = "POST"
  /\ exists req parsed,
       body = Some req
       /\ url_Parse (strings.TrimSpace (req_URL req)) = Some parsed
       /\ Scheme parsed <> "" /\ Host parsed <> ""
       /\ normalizeHost (Host parsed) <> ""
       /\ (WhitelistDomains (Crawler cfg) = []
           \/ isHostAllowed (normalizeHost (Host parsed)) (WhitelistDomains (Crawler cfg))
              = true)
       /\ resp_URL v
          = url_String (set_Host (set_Fragment parsed "") (normalizeHost (Host parsed)))
       /\ resp_URLHash v = sha256Hex (resp_URL v)
       /\ (forall c, fails c = false ->
             getSiteDomain c db' (resp_SiteID v) = (normalizeHost (Host parsed), None))
       /\ has_active (crawl_queue db') (resp_SiteID v) (resp_URLHash v) = true
       /\ (Enqueued v = false ->
             crawl_queue db' = crawl_queue db
             /\ Message v = "duplicate (already queued or processing)").
Proof.
  intros Hkey. unfold handleEnqueue.
  destruct (method =? "POST")%string eqn:Em; simpl negb; cbv iota; [|discriminate].
  apply String.eqb_eq in Em.
  destruct body as [req|]; [|discriminate].
  destruct (strings.TrimSpace (req_URL req) =? "")%string; [discriminate|].
  destruct (url_Parse _) as [parsed|] eqn:Eparse; [|discriminate].
  destruct ((Scheme parsed =? "")%string || (Host parsed =? "")%string) eqn:Esh;
    [discriminate|].
  apply orb_false_iff in Esh as [Es Eh].
  apply String.eqb_neq in Es. apply String.eqb_neq in Eh.
  cbv zeta. change (Host (set_Fragment parsed "")) with (Host parsed).
  destruct (normalizeHost (Host parsed) =? "")%string eqn:Enh; [discriminate|].
  apply String.eqb_neq in Enh.
  destruct (_ && negb (isHostAllowed _ _)) eqn:Ewl; [discriminate|].
  assert (WhitelistDomains (Crawler cfg) = []
          \/ isHostAllowed (normalizeHost (Host parsed)) (WhitelistDomains (Crawler cfg))
             = true) as Hwl.
  { apply andb_false_iff in Ewl as [E|E].
    - left. destruct (WhitelistDomains (Crawler cfg)); [reflexivity|].
      simpl in E. discriminate.
    - right. now apply negb_false_iff in E. }
  destruct (ensureSite_frame cs db (normalizeHost (Host parsed)) cfg) as (Sq & _).
  destruct (ensureSite cs db (normalizeHost (Host parsed)) cfg)
    as [[siteID [e|]] db1] eqn:Ens; [discriminate|]. simpl snd in Sq.
  match goal with
  | |- context [enqueueIfNotExists ?c ?d ?i ?u ?h ?p] =>
      destruct (insertIfNotExists_frame (crawl_queue d) c d i u h p) as (Qs & _);
      unfold enqueueIfNotExists
  end.
  destruct (insertIfNotExists _ _ _ _ _ _ _) as [[enq [e|]] db2] eqn:Ee; [discriminate|].
  simpl snd in Qs. intros E; inversion E; subst code v db2; clear E. simpl.
  split; [reflexivity|]. split; [exact Em|]. exists req, parsed.
  conjs; auto.
  - intros c Hc. rewrite (getSiteDomain_sites c db1 db' siteID Qs).
    exact (ensureSite_getSiteDomain cs c db db1 _ cfg siteID Hkey Ens Hc).
  - destruct enq.
    + apply insertIfNotExists_true in Ee as (_ & _ & _ & ->). apply has_active_snoc.
    + apply insertIfNotExists_duplicate in Ee as [Ha ->]. exact Ha.
  - intros ->. apply insertIfNotExists_false in Ee. split; [congruence | reflexivity].
Qed.

End HandlerFacts.

(** ** A fetch that succeeds *)

Section ProcessFacts.
Context `{GoLib}.
Local Open Scope Z_scope.

Lemma find_snoc_none {A : Type} (f : A -> bool) (l : list A) (x : A) :
  List.find f l = None -> f x = true -> List.find f (l ++ [x]) = Some x.
Proof.
  intros Hn Hx. induction l as [|y l IH]; simpl in *; [now rewrite Hx|].
  destruct (f y); [discriminate | now apply IH].
Qed.

(** What [upsertPage] leaves under the key of the URL when it succeeds. *)
Lemma upsertPage_stores (c : conn) (db db' : DB) (siteID id : Z)
    (rawURL title description lang : string) (httpStatus : Z)
    (contentType html text : string) :
  upsertPage c db siteID rawURL title description lang httpStatus contentType html text
    = ((id, None), db') ->
  (exists p,
     List.find (page_key siteID (sha256Hex rawURL)) (pages db') = Some p
     /\ p_id p = id /\ p_html p = Some html /\ p_html_hash p = Some (sha256Hex html)
     /\ p_text p = Some text /\ p_http_status p = Some httpStatus
     /\ p_content_type p = Some contentType /\ p_fetched_at p = Some (now c))
  /\ crawl_queue db' = crawl_queue db /\ sites db' = sites db
  /\ page_links db' = page_links db.
Proof.
  unfold upsertPage. cbv zeta.
  destruct (fails c); [discriminate|].
  destruct (negb (int4 httpStatus)); [discriminate|].
  destruct (negb (check_lang _ && _)); [discriminate|].
  destruct (List.find _ (pages db)) as [p|] eqn:Ef.
  - intros E; inversion E; subst id db'; clear E. simpl. split; [|auto].
    rewrite (find_map_update (page_key siteID (sha256Hex rawURL))
               (fun r => merge_page (now c) r _)); [|intros x Hx; exact Hx].
    rewrite Ef. simpl. eexists. split; [reflexivity|]. simpl. conjs; reflexivity.
  - destruct (negb (site_exists db siteID)); [discriminate|].
    intros E; inversion E; subst id db'; clear E. simpl. split; [|auto].
    eexists. split.
    + apply find_snoc_none; [exact Ef|]. unfold page_key. simpl.
      now rewrite Z.eqb_refl, String.eqb_refl.
    + simpl. conjs; reflexivity.
Qed.

Lemma upsertPage_succeeds (c : conn) (db : DB) (siteID : Z)
    (rawURL title description : string) (httpStatus : Z)
    (contentType html text : string) :
  fails c = false -> int4 httpStatus = true ->
  check_content_type (Some contentType) = true ->
  site_exists db siteID = true ->
  exists id db',
    upsertPage c db siteID rawURL title description "" httpStatus contentType html text
    = ((id, None), db').
Proof.
  intros Hc Hi Hct Hs. unfold upsertPage. cbv zeta. rewrite Hc, Hi. cbn [negb].
  cbn [p_lang p_content_type].
  change (check_lang (NULLIF_empty "")) with true. rewrite Hct. cbn [negb andb].
  destruct (List.find _ (pages db)).
  - eexists _, _. reflexivity.
  - rewrite Hs. cbn [negb]. eexists _, _. reflexivity.
Qed.

Lemma update_by_id_status (id : Z) (f : queue_row -> queue_row) (rows : list queue_row)
    (st : crawl_status) :
  (forall r, q_status (f r) = st) -> (forall r, q_id (f r) = q_id r) ->
  forall r, In r (update_by_id id f rows) -> q_id r = id -> q_status r = st.
Proof.
  intros Hst Hid r Hr E.
  apply In_update_by_id_cases in Hr as [[_ Hne]|(r0 & _ & _ & ->)];
    [contradiction | apply Hst].
Qed.

(** X14. A fetch that succeeds is stored and the item is done.  When the
    response has a status from 200 to 399 and a content type that the allow
    list and the CHECK of the table accept, and the statements go through,
    [processItem] returns, the page of the URL holds the body cut at
    html_max_size bytes, the text extracted from it, its SHA-256, the
    status and the content type, and every row of the item is done. *)
Theorem processItem_stores_page_and_marks_done (w : world) (cfg : Config) (it : queueItem)
    (st : state) (proxyURL : option URL) (pool : ProxyPool) (status : Z)
    (ctype body : string) (broken : bool) :
  Next (st_pool st) = Returns (proxyURL, pool) ->
  w_net w (buildHTTPClient proxyURL (HTMLFetchTimeout (Crawler cfg)))
    (UserAgent (Crawler cfg)) (URL_ it) = Response status ctype body broken ->
  200 <= status < 400 ->
  broken = false \/ HTMLMaxSize (Crawler cfg) <= Z.of_nat (String.length body) ->
  isAllowedContentType ctype (ContentTypes (Crawler cfg)) = true ->
  check_content_type (Some ctype) = true ->
  site_exists (st_db st) (SiteID it) = true ->
  fails (w_upsert w) = false -> fails (w_mark w) = false ->
  exists st' p,
    processItem w cfg it st = Returns st'
    /\ List.find (page_key (SiteID it) (sha256Hex (URL_ it))) (pages (st_db st')) = Some p
    /\ p_html p = Some (strings.take (Z.to_nat (HTMLMaxSize (Crawler cfg))) body)
    /\ p_html_hash p
       = Some (sha256Hex (strings.take (Z.to_nat (HTMLMaxSize (Crawler cfg))) body))
    /\ p_text p
       = Some (extractVisibleText
                 (strings.take (Z.to_nat (HTMLMaxSize (Crawler cfg))) body))
    /\ p_http_status p = Some status /\ p_content_type p = Some ctype
    /\ (forall r, In r (crawl_queue (st_db st')) -> q_id r = ID it -> q_status r = StDone)
    /\ st_pool st' = pool.
Proof.
  intros Hnext Hnet Hstatus Hbody Hallow Hct Hsite Hup Hmark.
  set (html := strings.take (Z.to_nat (HTMLMaxSize (Crawler cfg))) body).
  assert (fetchHTML (w_net w) (buildHTTPClient proxyURL (HTMLFetchTimeout (Crawler cfg)))
            (URL_ it) (HTMLMaxSize (Crawler cfg)) (UserAgent (Crawler cfg))
          = (status, ctype, html, None)) as Hfetch.
  { unfold fetchHTML. rewrite Hnet.
    destruct (Z.ltb_spec status 200); [lia|]. destruct (Z.leb_spec 400 status); [lia|].
    simpl orb. cbv iota.
    assert (broken && (Z.of_nat (String.length body) <? HTMLMaxSize (Crawler cfg)) = false)
      as ->; [|reflexivity].
    destruct Hbody as [->|Hle]; [reflexivity|].
    destruct (Z.ltb_spec (Z.of_nat (String.length body)) (HTMLMaxSize (Crawler cfg)));
      [lia | apply andb_false_r]. }
  assert (int4 status = true) as Hint.
  { unfold int4. apply andb_true_iff. split; apply Z.leb_le.
    - assert (- 2 ^ 31 <= 0) by (vm_compute; discriminate). lia.
    - assert (400 <= 2 ^ 31 - 1) by (vm_compute; discriminate). lia. }
  destruct (upsertPage_succeeds (w_upsert w) (st_db st) (SiteID it) (URL_ it)
              (extractTitle html) (extractMetaDescription html) status ctype html
              (extractVisibleText html) Hup Hint Hct Hsite) as (pageID & db1 & Hups).
  destruct (upsertPage_stores _ _ _ _ _ _ _ _ _ _ _ _ _ Hups)
    as ((p & Hfind & _ & P1 & P2 & P3 & P4 & P5 & _) & _).
  unfold processItem.
  destruct (getHostLimiter _ _ _ _) as [lim limiters].
  rewrite Hnext. cbv zeta. rewrite Hfetch, Hallow. simpl negb. cbv iota.
  fold html. rewrite Hups.
  eexists _, p. split; [reflexivity|]. simpl st_db. simpl st_pool.
  assert (forall db2, pages db2 = pages db1 ->
            pages (markQueueDone (w_mark w) db2 (ID it)) = pages db1) as Hpages
    by (intros db2 E; destruct (markQueueDone_frame (w_mark w) db2 (ID it)) as (_ & -> & _);
        exact E).
  conjs; auto.
  - rewrite Hpages; [exact Hfind|].
    destruct (getSiteDomain _ _ _) as [siteDomain [e|]]; [reflexivity|].
    apply extractAndEnqueueLinks_frame.
  - unfold markQueueDone. rewrite Hmark. simpl crawl_queue.
    apply update_by_id_status; reflexivity.
Qed.

End ProcessFacts.

(** ** The proxy pool, the HTTP client and the rate limiters *)

Section ProxyFacts.
Context `{GoLib}.
Local Open Scope Z_scope.

Lemma parseProxies_ok (ps : list string) (us : list URL) :
  parseProxies ps = (us, None) ->
  Forall2 (fun s u => url_Parse s = Some u /\ proxyScheme u = true) ps us.
Proof.
  revert us. induction ps as [|p rest IH]; intros us; simpl.
  - intros E; inversion E; constructor.
  - destruct (url_Parse p) as [u|] eqn:Ep; [|discriminate].
    destruct ((Scheme u =? "http")%string || (Scheme u =? "https")%string
              || (Scheme u =? "socks5")%string) eqn:Es; [|discriminate].
    destruct (parseProxies rest) as [us' [e|]]; [discriminate|].
    intros E; inversion E; subst. constructor; [now split | now apply IH].
Qed.

Lemma parseProxies_error (ps : list string) (us : list URL) (e : string) :
  parseProxies ps = (us, Some e) ->
  exists s, In s ps
    /\ (url_Parse s = None \/ exists u, url_Parse s = Some u /\ proxyScheme u = false).
Proof.
  revert us e. induction ps as [|p rest IH]; intros us e; simpl; [discriminate|].
  destruct (url_Parse p) as [u|] eqn:Ep.
  2:{ intros _. exists p. split; [now left | now left]. }
  destruct ((Scheme u =? "http")%string || (Scheme u =? "https")%string
            || (Scheme u =? "socks5")%string) eqn:Es.
  2:{ intros _. exists p. split; [now left|]. right. now exists u. }
  destruct (parseProxies rest) as [us' [e'|]] eqn:Er; [|discriminate].
  intros _. destruct (IH us' e' eq_refl) as (s & Hs & Hbad).
  exists s. split; [now right | exact Hbad].
Qed.

(** X15. [NewProxyPool] answers with a pool or with an error, never with both or
    neither.  A pool holds the parsed URLs of the configuration, one for one
    and in order, each with the scheme http, https or socks5, and its counter
    is 0; the rotation is the configured one, and round_robin in its place
    when it is empty and a proxy is configured.  An error means that some
    entry does not parse or has another scheme. *)
Theorem NewProxyPool_parses_every_entry (cfg : ProxiesConfig) :
  match NewProxyPool cfg with
  | (Some p, None) =>
      Forall2 (fun s u => url_Parse s = Some u /\ proxyScheme u = true)
        (Proxies cfg) (proxies p)
      /\ Len p = Z.of_nat (List.length (Proxies cfg))
      /\ counter p = 0
      /\ rotation p
         = match Proxies cfg with
           | [] => Rotation cfg
           | _ => if (Rotation cfg =? "")%string then "round_robin"%string else Rotation cfg
           end
  | (None, Some _) =>
      exists s, In s (Proxies cfg)
        /\ (url_Parse s = None \/ exists u, url_Parse s = Some u /\ proxyScheme u = false)
  | _ => False
  end.
Proof.
  unfold NewProxyPool. destruct (Proxies cfg) as [|p0 rest] eqn:Eps.
  - simpl. conjs; auto.
  - destruct (parseProxies (p0 :: rest)) as [us [e|]] eqn:Ep.
    + now apply parseProxies_error in Ep.
    + apply parseProxies_ok in Ep. cbv zeta. cbn [proxies counter rotation].
      conjs; auto. unfold Len. cbn [proxies]. f_equal. symmetry.
      apply (Forall2_length Ep).
Qed.

(** X16. [Next] hands out configured proxies only and changes nothing of the pool
    but the counter; the client that [buildHTTPClient] makes for its answer
    goes through the proxy when its scheme is http or https, connects
    directly when it is another one (socks5, which [NewProxyPool] accepts,
    is never used), and follows the environment only when the pool is
    empty. *)
Theorem Next_proxy_is_used_or_bypassed (p p' : ProxyPool) (ou : option URL) (timeout : Z) :
  Next p = Returns (ou, p') ->
  proxies p' = proxies p /\ rotation p' = rotation p
  /\ Timeout (buildHTTPClient ou timeout) = timeout
  /\ match ou with
     | None =>
         proxies p = [] /\ p' = p
         /\ Transport_Proxy (buildHTTPClient ou timeout) = ProxyFromEnvironment
     | Some u =>
         In u (proxies p) /\ counter p' = (counter p + 1) mod 2 ^ 64
         /\ Transport_Proxy (buildHTTPClient ou timeout)
            = if (Scheme u =? "http")%string || (Scheme u =? "https")%string
              then ProxyVia u else ProxyDirect
     end.
Proof.
  unfold Next. destruct (proxies p) as [|u0 us] eqn:Eps.
  - intros E; inversion E; subst. rewrite Eps. simpl. conjs; auto.
  - cbv zeta. destruct (Z.rem _ _ <? 0); [discriminate|].
    destruct (nth_error (u0 :: us) _) as [u|] eqn:En; [|discriminate].
    intros E; inversion E; subst. cbn [proxies rotation counter].
    assert (Timeout (buildHTTPClient (Some u) timeout) = timeout) as Ht
      by (unfold buildHTTPClient; destruct (_ || _); reflexivity).
    conjs; auto.
    + eapply nth_error_In. exact En.
    + unfold buildHTTPClient. destruct (_ || _); reflexivity.
Qed.

End ProxyFacts.

Section LimiterFacts.
Local Open Scope Z_scope.

Lemma Load_snoc (m : hostLimiterMap) (host h : string) (l : Limiter) :
  (Load (m ++ [(host, l)])%list h)
  = match Load m h with
    | Some x => Some x
    | None => if (host =? h)%string then Some l else None
    end.
Proof.
  induction m as [|[h0 l0] m IH]; simpl; [reflexivity|].
  destruct (h0 =? h)%string; [reflexivity | exact IH].
Qed.

Lemma getHostLimiter_known (m : hostLimiterMap) (host : string) (rps brst : Z)
    (lim : Limiter) :
  host <> "" -> Load m host = Some lim -> getHostLimiter m host rps brst = (Some lim, m).
Proof.
  intros Hh Hl. unfold getHostLimiter. apply String.eqb_neq in Hh. now rewrite Hh, Hl.
Qed.

Lemma getHostLimiter_new (m : hostLimiterMap) (host : string) (rps brst : Z) :
  host <> "" -> Load m host = None ->
  getHostLimiter m host rps brst
  = (Some {| limit := if rps <=? 0 then 10 else rps;
             burst := if brst <=? 0 then 20 else brst |},
     (m ++ [(host, {| limit := if rps <=? 0 then 10 else rps;
                      burst := if brst <=? 0 then 20 else brst |})])%list).
Proof.
  intros Hh Hl. unfold getHostLimiter. apply String.eqb_neq in Hh. now rewrite Hh, Hl.
Qed.

(** X17. The registry of [getHostLimiter] holds one limiter for a host, the one
    made when the host was first seen: a later call returns it whatever rate
    and burst it is given, and leaves the registry as it is.  A new limiter
    gets the given rate and burst, or 10 and 20 in the place of values that
    are not positive, so both are positive; the limiters of other hosts stay
    as they are; the empty host has no limiter. *)
Theorem getHostLimiter_first_call_decides (m : hostLimiterMap) (host : string)
    (rps brst : Z) :
  let l := fst (getHostLimiter m host rps brst) in
  let m' := snd (getHostLimiter m host rps brst) in
  (host = "" -> l = None /\ m' = m)
  /\ (host <> "" ->
      exists lim,
        l = Some lim /\ Load m' host = Some lim
        /\ (forall rps2 brst2, getHostLimiter m' host rps2 brst2 = (Some lim, m'))
        /\ (forall h, h <> host -> Load m' h = Load m h)
        /\ (forall l0, Load m host = Some l0 -> lim = l0 /\ m' = m)
        /\ (Load m host = None ->
            limit lim = (if rps <=? 0 then 10 else rps)
            /\ burst lim = (if brst <=? 0 then 20 else brst)
            /\ 0 < limit lim /\ 0 < burst lim)).
Proof.
  cbv zeta. split.
  - intros ->. split; reflexivity.
  - intros Hh. destruct (Load m host) as [l0|] eqn:El.
    + rewrite (getHostLimiter_known m host rps brst l0 Hh El). simpl.
      exists l0.
      split; [reflexivity|]. split; [exact El|].
      split; [intros; now apply getHostLimiter_known|].
      split; [reflexivity|]. split; [intros l1 E; inversion E; auto | discriminate].
    + rewrite (getHostLimiter_new m host rps brst Hh El). simpl.
      eexists. split; [reflexivity|].
      assert (Load (m ++ [(host, {| limit := if rps <=? 0 then 10 else rps;
                                    burst := if brst <=? 0 then 20 else brst |})])%list host
              = Some {| limit := if rps <=? 0 then 10 else rps;
                        burst := if brst <=? 0 then 20 else brst |}) as Hload
        by (rewrite Load_snoc, El, String.eqb_refl; reflexivity).
      split; [exact Hload|].
      split; [intros; now apply getHostLimiter_known|].
      split.
      { intros h Hne. rewrite Load_snoc.
        destruct (Load m h); [reflexivity|].
        destruct (String.eqb_spec host h); [congruence | reflexivity]. }
      split; [discriminate|].
      intros _. simpl. split; [reflexivity|]. split; [reflexivity|].
      split; [destruct (Z.leb_spec rps 0); lia | destruct (Z.leb_spec brst 0); lia].
Qed.

End LimiterFacts.

Section FetchFacts.
Context `{GoLib}.
Local Open Scope Z_scope.

(** X18. What [fetchHTML] returns: with an error the body is empty; without one
    the status is from 200 to 399 and the body is the head of what the
    server sent, cut at [maxBytes] bytes (nothing at all when [maxBytes] is
    not positive). *)
Theorem fetchHTML_body_is_bounded_head (net : network) (client : http_Client)
    (target : string) (maxBytes : Z) (userAgent : string) :
  let r := fetchHTML net client target maxBytes userAgent in
  let status := fst (fst (fst r)) in
  let html := snd (fst r) in
  (snd r <> None -> html = "")
  /\ (snd r = None ->
      200 <= status < 400
      /\ Z.of_nat (String.length html) <= Z.max 0 maxBytes
      /\ exists ctype body broken rest,
           net client userAgent target = Response status ctype body broken
           /\ body = html ++ rest
           /\ (rest <> "" -> Z.of_nat (String.length html) = Z.max 0 maxBytes)).
Proof.
  cbv zeta. unfold fetchHTML.
  destruct (net client userAgent target) as [e|status ctype body broken]; simpl.
  - split; [reflexivity | discriminate].
  - destruct (Z.ltb_spec status 200); simpl; [split; [reflexivity | discriminate]|].
    destruct (Z.leb_spec 400 status); simpl; [split; [reflexivity | discriminate]|].
    destruct (broken && _); simpl; [split; [reflexivity | discriminate]|].
    split; [intros E; now contradiction E|]. intros _.
    split; [lia|]. split.
    + rewrite length_take. lia.
    + exists ctype, body, broken, (strings.drop (Z.to_nat maxBytes) body).
      split; [reflexivity|]. split; [symmetry; apply take_drop|].
      intros Hrest. rewrite length_take.
      assert (Z.to_nat maxBytes < String.length body)%nat as Hlt.
      { destruct (Nat.lt_ge_cases (Z.to_nat maxBytes) (String.length body)) as [|Hge];
          [assumption|].
        exfalso. apply Hrest. clear - Hge. revert Hge.
        generalize (Z.to_nat maxBytes). intros n. revert n.
        induction body as [|a b IH]; intros [|n] Hn; simpl in *; try reflexivity; try lia.
        apply IH. lia. }
      lia.
Qed.

End FetchFacts.

(** ** strings.TrimSpace returns a part of its argument, and is idempotent *)

Section TrimFacts.

Lemma TrimLeftSpace_fix (s : string) : leadSpace s = false -> strings.TrimLeftSpace s = s.
Proof.
  destruct s as [|a [|b [|c s]]]; simpl; try reflexivity.
  - intros E. apply orb_false_iff in E as [-> _]. reflexivity.
  - intros E. apply orb_false_iff in E as [-> E]. apply orb_false_iff in E as [-> _].
    reflexivity.
  - intros E. apply orb_false_iff in E as [-> E]. apply orb_false_iff in E as [-> ->].
    reflexivity.
Qed.

Lemma TrimLeftSpaceRev_fix (s : string) :
  leadSpaceRev s = false -> strings.TrimLeftSpaceRev s = s.
Proof.
  destruct s as [|a [|b [|c s]]]; simpl; try reflexivity.
  - intros E. apply orb_false_iff in E as [-> _]. reflexivity.
  - intros E. apply orb_false_iff in E as [-> E]. apply orb_false_iff in E as [-> _].
    reflexivity.
  - intros E. apply orb_false_iff in E as [-> E]. apply orb_false_iff in E as [-> ->].
    reflexivity.
Qed.

(** What [TrimLeftSpace] returns is the end of its argument and does not
    begin with white space. *)
Lemma TrimLeftSpace_spec (n : nat) :
  forall s, (String.length s <= n)%nat ->
    leadSpace (strings.TrimLeftSpace s) = false
    /\ exists p, s = p ++ strings.TrimLeftSpace s.
Proof.
  induction n as [|n IH]; intros s Hn.
  - destruct s; [|simpl in Hn; lia]. split; [reflexivity | now exists ""].
  - destruct s as [|a s1]; [split; [reflexivity | now exists ""]|].
    simpl in Hn. cbn [strings.TrimLeftSpace].
    destruct (strings.asciiSpace a) eqn:Ea.
    { destruct (IH s1 ltac:(lia)) as [L [p Hp]]. split; [exact L|].
      exists (String a p). simpl. now rewrite <- Hp. }
    destruct s1 as [|b s2].
    { split; [simpl; now rewrite Ea | now exists ""]. }
    simpl in Hn. destruct (strings.space2 a b) eqn:Eb.
    { destruct (IH s2 ltac:(lia)) as [L [p Hp]]. split; [exact L|].
      exists (String a (String b p)). simpl. now rewrite <- Hp. }
    destruct s2 as [|c s3].
    { split; [simpl; now rewrite Ea, Eb | now exists ""]. }
    simpl in Hn. destruct (strings.space3 a b c) eqn:Ec.
    { destruct (IH s3 ltac:(lia)) as [L [p Hp]]. split; [exact L|].
      exists (String a (String b (String c p))). simpl. now rewrite <- Hp. }
    split; [simpl; now rewrite Ea, Eb, Ec | now exists ""].
Qed.

Lemma TrimLeftSpaceRev_spec (n : nat) :
  forall s, (String.length s <= n)%nat ->
    leadSpaceRev (strings.TrimLeftSpaceRev s) = false
    /\ exists p, s = p ++ strings.TrimLeftSpaceRev s.
Proof.
  induction n as [|n IH]; intros s Hn.
  - destruct s; [|simpl in Hn; lia]. split; [reflexivity | now exists ""].
  - destruct s as [|a s1]; [split; [reflexivity | now exists ""]|].
    simpl in Hn. cbn [strings.TrimLeftSpaceRev].
    destruct (strings.asciiSpace a) eqn:Ea.
    { destruct (IH s1 ltac:(lia)) as [L [p Hp]]. split; [exact L|].
      exists (String a p). simpl. now rewrite <- Hp. }
    destruct s1 as [|b s2].
    { split; [simpl; now rewrite Ea | now exists ""]. }
    simpl in Hn. destruct (strings.space2 b a) eqn:Eb.
    { destruct (IH s2 ltac:(lia)) as [L [p Hp]]. split; [exact L|].
      exists (String a (String b p)). simpl. now rewrite <- Hp. }
    destruct s2 as [|c s3].
    { split; [simpl; now rewrite Ea, Eb | now exists ""]. }
    simpl in Hn. destruct (strings.space3 c b a) eqn:Ec.
    { destruct (IH s3 ltac:(lia)) as [L [p Hp]]. split; [exact L|].
      exists (String a (String b (String c p))). simpl. now rewrite <- Hp. }
    split; [simpl; now rewrite Ea, Eb, Ec | now exists ""].
Qed.

Lemma leadSpace_prefix (p q : string) : leadSpace p = true -> leadSpace (p ++ q) = true.
Proof.
  destruct p as [|a [|b [|c p]]]; simpl; try discriminate.
  - rewrite orb_false_r. intros ->. reflexivity.
  - rewrite orb_false_r. intros E. apply orb_true_iff in E as [-> | ->]; [reflexivity|].
    now rewrite !orb_true_r.
  - auto.
Qed.

(** [strings.TrimSpace] cuts a part out of its argument. *)
Lemma TrimSpace_part (s : string) : exists p q, s = p ++ strings.TrimSpace s ++ q.
Proof.
  unfold strings.TrimSpace, strings.TrimRightSpace.
  destruct (TrimLeftSpace_spec (String.length s) s (le_n _)) as [_ [p Hp]].
  set (y := strings.TrimLeftSpace s) in *.
  destruct (TrimLeftSpaceRev_spec (String.length (strings.rev y)) (strings.rev y) (le_n _))
    as [_ [q Hq]].
  exists p, (strings.rev q). rewrite <- rev_app, <- Hq, rev_rev. exact Hp.
Qed.

Lemma TrimSpace_idem (s : string) :
  strings.TrimSpace (strings.TrimSpace s) = strings.TrimSpace s.
Proof.
  unfold strings.TrimSpace, strings.TrimRightSpace.
  destruct (TrimLeftSpace_spec (String.length s) s (le_n _)) as [Ly _].
  set (y := strings.TrimLeftSpace s) in *.
  destruct (TrimLeftSpaceRev_spec (String.length (strings.rev y)) (strings.rev y) (le_n _))
    as [Lr [q Hq]].
  set (z := strings.TrimLeftSpaceRev (strings.rev y)) in *.
  assert (strings.TrimLeftSpace (strings.rev z) = strings.rev z) as ->.
  { apply TrimLeftSpace_fix. destruct (leadSpace (strings.rev z)) eqn:E; [|reflexivity].
    apply (leadSpace_prefix _ (strings.rev q)) in E.
    rewrite <- rev_app, <- Hq, rev_rev in E. congruence. }
  rewrite rev_rev. now rewrite (TrimLeftSpaceRev_fix z Lr).
Qed.

End TrimFacts.

(** ** Texts without tags and with white space in normal form *)

Section CleanFacts.
Import regexp.

Lemma hasByte_app (c : ascii) (a b : string) :
  strings.hasByte c (a ++ b) = strings.hasByte c a || strings.hasByte c b.
Proof. induction a as [|x a IH]; simpl; [reflexivity|]. now rewrite IH, orb_assoc. Qed.

Lemma opens_tag_app (a b : string) : opens_tag a = true -> opens_tag (a ++ b) = true.
Proof.
  destruct a as [|x a]; [discriminate|]. unfold opens_tag.
  change (String x a ++ b) with (String x (a ++ b)).
  intros E. apply andb_true_iff in E as [-> E].
  change (String x (a ++ b)) with (String x a ++ b). now rewrite hasByte_app, E.
Qed.

Lemma tagless_app (a b : string) :
  tagless (a ++ b) = true -> tagless a = true /\ tagless b = true.
Proof.
  induction a as [|x a IH]; simpl; [auto|].
  intros E. apply andb_true_iff in E as [E1 E2]. destruct (IH E2) as [Ta Tb].
  rewrite Ta. split; [|exact Tb]. rewrite andb_true_r.
  destruct (x =? "<")%char; [|reflexivity]. simpl in *.
  destruct (opens_tag a) eqn:Eo; [|reflexivity].
  now rewrite (opens_tag_app a b Eo) in E1.
Qed.

Lemma hasByte_strip (b : bool) (s : string) :
  strings.hasByte ">" (spec_strip_tags b s) = true -> strings.hasByte ">" s = true.
Proof.
  revert b. induction s as [|a s IH]; intros b; simpl; [auto|].
  destruct b.
  - intros E. apply IH in E. rewrite E. apply orb_true_r.
  - destruct ((a =? "<")%char && opens_tag s); simpl.
    + intros E. apply IH in E. rewrite E. apply orb_true_r.
    + intros E. apply orb_true_iff in E as [->|E]; [reflexivity|].
      apply IH in E. rewrite E. apply orb_true_r.
Qed.

Lemma opens_tag_false (s : string) :
  opens_tag s = false ->
  s = "" \/ (exists s', s = String ">" s') \/ strings.hasByte ">" s = false.
Proof.
  destruct s as [|b s]; [now left|]. unfold opens_tag.
  intros E. apply andb_false_iff in E as [E|E].
  - right. left. apply negb_false_iff, Ascii.eqb_eq in E. subst. now exists s.
  - right. now right.
Qed.

Lemma opens_tag_no_gt (s : string) : strings.hasByte ">" s = false -> opens_tag s = false.
Proof.
  destruct s as [|b s]; [reflexivity|]. unfold opens_tag. intros ->. apply andb_false_r.
Qed.

Lemma tagless_strip (b : bool) (s : string) : tagless (spec_strip_tags b s) = true.
Proof.
  revert b. induction s as [|a s IH]; intros b; [reflexivity|]. cbn [spec_strip_tags].
  destruct b; [apply IH|].
  destruct ((a =? "<")%char && opens_tag s) eqn:E.
  - cbn [tagless]. rewrite IH. reflexivity.
  - cbn [tagless]. rewrite IH, andb_true_r. apply negb_true_iff.
    destruct (a =? "<")%char; [|reflexivity]. simpl in *.
    destruct (opens_tag_false s E) as [->|[[s' ->]|Hn]].
    + reflexivity.
    + reflexivity.
    + apply opens_tag_no_gt. destruct (strings.hasByte ">" (spec_strip_tags false s)) eqn:Eh;
        [|reflexivity]. apply hasByte_strip in Eh. congruence.
Qed.

Lemma space_not_gt (a : ascii) : space a = true -> (a =? ">")%char = false.
Proof.
  unfold space. intros E. destruct (Ascii.eqb_spec a ">"); [|reflexivity].
  subst. discriminate.
Qed.

Lemma space_not_lt (a : ascii) : space a = true -> (a =? "<")%char = false.
Proof.
  unfold space. intros E. destruct (Ascii.eqb_spec a "<"); [|reflexivity].
  subst. discriminate.
Qed.

Lemma hasByte_collapse (b : bool) (s : string) :
  strings.hasByte ">" (spec_collapse b s) = strings.hasByte ">" s.
Proof.
  revert b. induction s as [|a s IH]; intros b; simpl; [reflexivity|].
  destruct (space a) eqn:Ea.
  - rewrite (space_not_gt a Ea). simpl. destruct b; simpl; apply IH.
  - simpl. now rewrite IH.
Qed.

Lemma tagless_collapse (b : bool) (s : string) :
  tagless s = true -> tagless (spec_collapse b s) = true.
Proof.
  revert b. induction s as [|a s IH]; intros b; [reflexivity|]. cbn [tagless spec_collapse].
  intros E. apply andb_true_iff in E as [E1 E2].
  destruct (space a) eqn:Ea.
  - destruct b; [now apply IH|]. cbn [tagless]. rewrite (IH true E2). reflexivity.
  - cbn [tagless]. rewrite (IH false E2), andb_true_r.
    apply negb_true_iff. apply negb_true_iff in E1.
    destruct (a =? "<")%char; [|reflexivity]. simpl in *.
    destruct (opens_tag_false s E1) as [->|[[s' ->]|Hn]].
    + reflexivity.
    + reflexivity.
    + apply opens_tag_no_gt. now rewrite hasByte_collapse.
Qed.

Lemma collapsed_collapse (b : bool) (s : string) : collapsed b (spec_collapse b s) = true.
Proof.
  revert b. induction s as [|a s IH]; intros b; [reflexivity|]. cbn [spec_collapse].
  destruct (space a) eqn:Ea.
  - destruct b; [apply IH|]. cbn [collapsed]. change (space " ") with true. cbv iota.
    rewrite IH. reflexivity.
  - cbn [collapsed]. rewrite Ea. apply IH.
Qed.

Lemma collapsed_weaken (s : string) : collapsed true s = true -> collapsed false s = true.
Proof.
  destruct s as [|a s]; [auto|]. simpl. destruct (space a); [|auto].
  rewrite andb_false_r. discriminate.
Qed.

Lemma collapsed_app (b : bool) (x y : string) :
  collapsed b (x ++ y) = true -> collapsed b x = true /\ collapsed false y = true.
Proof.
  revert b. induction x as [|a x IH]; intros b; simpl.
  - intros E. split; [reflexivity|]. destruct b; [now apply collapsed_weaken | exact E].
  - destruct (space a).
    + intros E. apply andb_true_iff in E as [E1 E2]. destruct (IH true E2) as [Cx Cy].
      rewrite E1, Cx. auto.
    + apply IH.
Qed.

Lemma collapse_fix (b : bool) (s : string) : collapsed b s = true -> spec_collapse b s = s.
Proof.
  revert b. induction s as [|a s IH]; intros b; [reflexivity|]. cbn [collapsed spec_collapse].
  destruct (space a).
  - intros E. apply andb_true_iff in E as [E E2]. apply andb_true_iff in E as [E0 E1].
    apply negb_true_iff in E1. subst b. apply Ascii.eqb_eq in E0. subst a.
    now rewrite (IH true E2).
  - intros E. now rewrite (IH false E).
Qed.

(** The text found nowhere by a pattern is left as it is by the
    replacement. *)
Lemma find_none_replace (re : list item) (repl s : string) :
  find re s = None -> ReplaceAllString re s repl = s.
Proof.
  unfold ReplaceAllString. induction s as [|a s IH]; [reflexivity|].
  cbn [find replaceFrom]. destruct (matchItems re (String a s)) as [r|]; [discriminate|].
  intros E. now rewrite (IH E).
Qed.

Lemma find_tagless (re : list item) (s : string) :
  (forall t, matchItems re t <> None ->
             exists t', t = String "<" t' /\ opens_tag t' = true) ->
  tagless s = true -> find re s = None.
Proof.
  intros Hre. induction s as [|a s IH]; cbn [tagless find]; intros E.
  - destruct (matchItems re "") eqn:Em; [|reflexivity].
    destruct (Hre "" ltac:(congruence)) as (t' & Ht & _). discriminate.
  - apply andb_true_iff in E as [E1 E2].
    destruct (matchItems re (String a s)) eqn:Em; [|now apply IH].
    destruct (Hre (String a s) ltac:(congruence)) as (t' & Ht & Ho).
    inversion Ht; subst. simpl in E1. rewrite Ho in E1. discriminate.
Qed.

Lemma rmTags_opens (t : string) :
  matchItems rmTags t <> None -> exists t', t = String "<" t' /\ opens_tag t' = true.
Proof.
  intros Hm. pose proof (matchItems_rmTags t) as Hr.
  destruct (matchItems rmTags t) as [r|]; [|congruence]. simpl in Hr.
  destruct t as [|a t]; [discriminate|].
  destruct (a =? "<")%char eqn:Ea; [|discriminate]. simpl in Hr.
  destruct (opens_tag t) eqn:Eo; [|discriminate].
  apply Ascii.eqb_eq in Ea. subst. now exists t.
Qed.

End CleanFacts.

(** ** Where the patterns of parser.go can match *)

Section PatternFacts.
Import regexp.

Lemma foldRune_split (c : ascii) (s m r : string) :
  foldRune c s = Some (m, r) ->
  s = m ++ r
  /\ exists a m', m = String a m'
       /\ ((strings.lowerByte a =? strings.lowerByte c)%char = true
           \/ a = "197"%char \/ a = "226"%char).
Proof.
  unfold foldRune. destruct s as [|a s1]; [discriminate|].
  destruct (strings.lowerByte a =? strings.lowerByte c)%char eqn:E1.
  { intros E; inversion E; subst. split; [reflexivity|]. exists a, "". auto. }
  destruct (strings.lowerByte c =? "s")%char.
  { destruct s1 as [|b s2]; [discriminate|].
    destruct ((a =? "197") && (b =? "191"))%char eqn:E2; [|discriminate].
    apply andb_true_iff in E2 as [Ea Eb]. apply Ascii.eqb_eq in Ea.
    intros E; inversion E; subst. split; [reflexivity|]. eexists _, _. split; [reflexivity|].
    auto. }
  destruct (strings.lowerByte c =? "k")%char; [|discriminate].
  destruct s1 as [|b [|d s3]]; try discriminate.
  destruct ((a =? "226") && (b =? "132") && (d =? "170"))%char eqn:E2; [|discriminate].
  apply andb_true_iff in E2 as [E2 Ed]. apply andb_true_iff in E2 as [Ea Eb].
  apply Ascii.eqb_eq in Ea.
  intros E; inversion E; subst. split; [reflexivity|]. eexists _, _. split; [reflexivity|].
  auto.
Qed.

Lemma matchLit_suffix (k : string -> option result) (l s : string) :
  matchLit k l s <> None -> exists p t, s = p ++ t /\ k t <> None.
Proof.
  revert s. induction l as [|c l IH]; intros s; cbn [matchLit].
  - unfold done. destruct (k s) as [r0|] eqn:Ek; [|congruence]. intros _. exists "", s.
    split; [reflexivity | congruence].
  - destruct (foldRune c s) as [[m s']|] eqn:Ef; [|congruence].
    destruct (matchLit k l s') as [r0|] eqn:Em; [|congruence]. intros _.
    destruct (IH s' ltac:(congruence)) as (p & t & Hp & Hk).
    apply foldRune_split in Ef as [Hs _]. exists (m ++ p), t.
    split; [|exact Hk]. rewrite Hs, Hp. now rewrite append_assoc.
Qed.

Lemma greedy_suffix (k : string -> option result) (c : ascii -> bool) (s : string) :
  greedy k c s <> None -> exists p t, s = p ++ t /\ k t <> None.
Proof.
  induction s as [|a s IH]; cbn [greedy]; unfold done.
  - destruct (k "") as [r0|] eqn:Ek; [|congruence]. intros _. exists "", "".
    split; [reflexivity | congruence].
  - assert (k (String a s) <> None -> exists p t, String a s = p ++ t /\ k t <> None) as Hhere
      by (intros Hk; exists "", (String a s); auto).
    destruct (c a).
    + destruct (greedy k c s) as [[m r]|] eqn:Eg.
      * intros _. destruct (IH ltac:(congruence)) as (p & t & Hp & Hk).
        exists (String a p), t. split; [simpl; now rewrite Hp | exact Hk].
      * destruct (k (String a s)) as [r0|] eqn:Ek; [|congruence]. intros _.
        apply Hhere. congruence.
    + destruct (k (String a s)) as [r0|] eqn:Ek; [|congruence]. intros _.
      apply Hhere. congruence.
Qed.

Lemma matchItems_head (it : item) (re : list item) (s : string) :
  matchItems (it :: re) s <> None -> matchItem it (matchItems re) s <> None.
Proof.
  rewrite matchItems_cons. destruct (matchItem it (matchItems re) s); congruence.
Qed.

Lemma lowerByte_gt (a : ascii) :
  (strings.lowerByte a =? ">")%char = (a =? ">")%char.
Proof. destruct a as [[] [] [] [] [] [] [] []]; reflexivity. Qed.

(** A pattern that begins with the literal [<], a letter, and goes on to a
    [>] after a run of [^>], matches only where a tag opens. *)
Lemma tag_pattern_opens (c : ascii) (l : string) (re : list item) (t : string) :
  (strings.lowerByte c =? ">")%char = false ->
  matchItems (Lit (String "<" (String c l)) :: Star notGt :: Lit ">" :: re) t <> None ->
  exists t', t = String "<" t' /\ opens_tag t' = true.
Proof.
  intros Hc Hm. apply matchItems_head in Hm. cbn [matchItem matchLit] in Hm.
  destruct (foldRune "<" t) as [[m0 s1]|] eqn:E0; [|congruence].
  assert (t = String "<" s1) as ->.
  { unfold foldRune in E0. destruct t as [|a t]; [discriminate|].
    rewrite lowerByte_not_lt in E0. change (strings.lowerByte "<") with "<"%char in E0.
    destruct (a =? "<")%char eqn:Ea.
    - apply Ascii.eqb_eq in Ea. subst. now inversion E0.
    - simpl in E0. discriminate. }
  exists s1. split; [reflexivity|].
  destruct (foldRune c s1) as [[m1 s2]|] eqn:E1; [|now simpl in Hm].
  destruct (matchLit _ l s2) as [r|] eqn:E2; [|now simpl in Hm].
  assert (matchLit (matchItems (Star notGt :: Lit ">" :: re)) l s2 <> None) as Hl
    by (rewrite E2; discriminate).
  destruct (matchLit_suffix _ l s2 Hl) as (p2 & t3 & Hp2 & Hk).
  apply matchItems_head in Hk. cbn [matchItem] in Hk.
  destruct (greedy_suffix _ _ _ Hk) as (p3 & t4 & Hp3 & Hk2).
  apply matchItems_head in Hk2. cbn [matchItem matchLit] in Hk2.
  destruct (foldRune ">" t4) as [[m4 s5]|] eqn:E4; [|congruence].
  assert (exists t5, t4 = String ">" t5) as [t5 ->].
  { unfold foldRune in E4. destruct t4 as [|a t4]; [discriminate|].
    rewrite lowerByte_gt in E4. change (strings.lowerByte ">") with ">"%char in E4.
    destruct (a =? ">")%char eqn:Ea.
    - apply Ascii.eqb_eq in Ea. subst. now exists t4.
    - simpl in E4. discriminate. }
  apply foldRune_split in E1 as [Hs1 (a & m' & -> & Ha)].
  subst s1 s2 t3. unfold opens_tag. cbn [append].
  apply andb_true_iff. split.
  - apply negb_true_iff. destruct Ha as [Ha|[->| ->]]; [|reflexivity|reflexivity].
    apply Ascii.eqb_eq in Ha. destruct (Ascii.eqb_spec a ">"); [|reflexivity].
    subst a. rewrite <- Ha in Hc. discriminate.
  - change (String a (m' ++ p2 ++ p3 ++ String ">" t5))
      with (String a m' ++ p2 ++ p3 ++ String ">" t5).
    rewrite !hasByte_app. cbn [strings.hasByte]. change (">" =? ">")%char with true.
    cbn [orb]. now rewrite !orb_true_r.
Qed.

End PatternFacts.

(** ** extractVisibleText and extractMetaDescription *)

Section TextFacts.
Context `{GoLib}.
Import regexp.

Lemma lit_lt_first (l : string) (re : list item) (t : string) :
  matchItems (Lit (String "<" l) :: re) t <> None -> exists t', t = String "<" t'.
Proof.
  intros Hm. apply matchItems_head in Hm. cbn [matchItem matchLit] in Hm.
  destruct (foldRune "<" t) as [[m0 s1]|] eqn:E0; [|congruence].
  unfold foldRune in E0. destruct t as [|a t]; [discriminate|].
  rewrite lowerByte_not_lt in E0. change (strings.lowerByte "<") with "<"%char in E0.
  destruct (a =? "<")%char eqn:Ea.
  - apply Ascii.eqb_eq in Ea. subst. now exists t.
  - simpl in E0. discriminate.
Qed.

Lemma find_no_lt (re : list item) (s : string) :
  (forall t, matchItems re t <> None -> exists t', t = String "<" t') ->
  strings.hasByte "<" s = false -> find re s = None.
Proof.
  intros Hre. induction s as [|a s IH]; cbn [strings.hasByte find]; intros E.
  - destruct (matchItems re "") eqn:Em; [|reflexivity].
    destruct (Hre "" ltac:(congruence)) as (t' & Ht). discriminate.
  - apply orb_false_iff in E as [E1 E2].
    destruct (matchItems re (String a s)) eqn:Em; [|now apply IH].
    destruct (Hre (String a s) ltac:(congruence)) as (t' & Ht).
    inversion Ht; subst. discriminate.
Qed.

Lemma collapsed_take (n : nat) (s : string) :
  collapsed false s = true -> collapsed false (strings.take n s) = true.
Proof.
  intros E. rewrite <- (take_drop n s) in E. now apply collapsed_app in E as [E _].
Qed.

(** X19. What [extractVisibleText] returns is clean: the patterns of tags, of
    script blocks and of style blocks match nowhere in it, its white space is
    in normal form (collapsing it again changes nothing, and neither does
    trimming), so extracting the text from it again gives the same text.  An
    input without a [<] is only collapsed and trimmed. *)
Theorem extractVisibleText_is_clean (html : string) :
  let t := extractVisibleText html in
  find rmTags t = None /\ find rmScript t = None /\ find rmStyle t = None
  /\ ReplaceAllString spaceSeq t " " = t
  /\ strings.TrimSpace t = t
  /\ extractVisibleText t = t
  /\ (strings.hasByte "<" html = false ->
      t = strings.TrimSpace (ReplaceAllString spaceSeq html " ")).
Proof.
  cbv zeta.
  assert (forall s, ReplaceAllString spaceSeq s " " = spec_collapse false s) as Hsp
    by (intros s; apply (proj1 (replace_spaceSeq s))).
  assert (forall s, ReplaceAllString rmTags s " " = spec_strip_tags false s) as Htg
    by (intros s; apply (proj1 (replace_rmTags s))).
  assert (forall x, extractVisibleText x
                    = strings.TrimSpace
                        (spec_collapse false
                           (spec_strip_tags false
                              (ReplaceAllString rmStyle
                                 (ReplaceAllString rmScript x " ") " ")))) as Heq
    by (intros x; unfold extractVisibleText; cbv zeta; now rewrite Htg, Hsp).
  set (s2 := ReplaceAllString rmStyle (ReplaceAllString rmScript html " ") " ").
  set (u := spec_collapse false (spec_strip_tags false s2)).
  assert (extractVisibleText html = strings.TrimSpace u) as Et by apply Heq.
  set (t := extractVisibleText html) in *.
  assert (tagless u = true) as Tu by (apply tagless_collapse, tagless_strip).
  assert (collapsed false u = true) as Cu by apply collapsed_collapse.
  destruct (TrimSpace_part u) as (p & q & Hu). rewrite <- Et in Hu.
  assert (tagless t = true) as Tt.
  { rewrite Hu in Tu. apply tagless_app in Tu as [_ Tu].
    now apply tagless_app in Tu as [Tu _]. }
  assert (collapsed false t = true) as Ct.
  { rewrite Hu in Cu. apply collapsed_app in Cu as [_ Cu].
    now apply collapsed_app in Cu as [Cu _]. }
  assert (find rmTags t = None) as F1 by (apply find_tagless; [exact rmTags_opens | exact Tt]).
  assert (find rmScript t = None) as F2.
  { apply find_tagless; [|exact Tt]. intros x. apply tag_pattern_opens. reflexivity. }
  assert (find rmStyle t = None) as F3.
  { apply find_tagless; [|exact Tt]. intros x. apply tag_pattern_opens. reflexivity. }
  assert (ReplaceAllString spaceSeq t " " = t) as F4
    by (rewrite Hsp; now apply collapse_fix).
  assert (strings.TrimSpace t = t) as F5 by (rewrite Et; apply TrimSpace_idem).
  split; [exact F1|]. split; [exact F2|]. split; [exact F3|]. split; [exact F4|].
  split; [exact F5|]. split.
  - unfold extractVisibleText. cbv zeta.
    rewrite (find_none_replace rmScript " " t F2), (find_none_replace rmStyle " " t F3),
      (find_none_replace rmTags " " t F1), F4. exact F5.
  - intros Hlt. rewrite Et. unfold u, s2.
    rewrite (find_none_replace rmScript " " html),
      (find_none_replace rmStyle " " html), <- Htg, (find_none_replace rmTags " " html).
    + now rewrite Hsp.
    + apply find_no_lt; [|exact Hlt]. intros x. apply lit_lt_first.
    + apply find_no_lt; [|exact Hlt]. intros x. apply lit_lt_first.
    + apply find_no_lt; [|exact Hlt]. intros x. apply lit_lt_first.
Qed.

(** X20. What [extractMetaDescription] returns has at most 1024 bytes, its white
    space is collapsed (a run of it is one space), and it is empty for an
    input without a [<]. *)
Theorem extractMetaDescription_is_bounded (html : string) :
  let d := extractMetaDescription html in
  (String.length d <= 1024)%nat
  /\ ReplaceAllString spaceSeq d " " = d
  /\ (strings.hasByte "<" html = false -> d = "").
Proof.
  cbv zeta.
  assert (forall m1, (String.length (descriptionOf m1) <= 1024)%nat
                     /\ ReplaceAllString spaceSeq (descriptionOf m1) " " = descriptionOf m1)
    as Hd.
  { assert (forall s, ReplaceAllString spaceSeq s " " = spec_collapse false s) as Hsp
      by (intros s; apply (proj1 (replace_spaceSeq s))).
    intros m1. unfold descriptionOf. cbv zeta. rewrite capBytes_take. split.
    - rewrite length_take. lia.
    - rewrite (Hsp (strings.take _ _)).
      apply collapse_fix, collapsed_take. rewrite Hsp. apply collapsed_collapse. }
  split; [|split].
  - unfold extractMetaDescription.
    destruct (FindStringSubmatch reMetaDesc html) as [|? [|m1 ?]];
      try (destruct (FindStringSubmatch reOGDesc html) as [|? [|m2 ?]]);
      try apply Hd; simpl; lia.
  - unfold extractMetaDescription.
    destruct (FindStringSubmatch reMetaDesc html) as [|? [|m1 ?]];
      try (destruct (FindStringSubmatch reOGDesc html) as [|? [|m2 ?]]);
      try apply Hd; reflexivity.
  - intros Hlt. unfold extractMetaDescription, FindStringSubmatch.
    rewrite (find_no_lt reMetaDesc html), (find_no_lt reOGDesc html); auto;
      intros x; apply lit_lt_first.
Qed.

End TextFacts.

(** ** logger.go *)

Section LoggerFacts.
Context `{GoLib} `{GoText}.

Lemma lower_upper_byte (c : ascii) :
  strings.lowerByte (upperByte c) = strings.lowerByte c.
Proof. destruct c as [[] [] [] [] [] [] [] []]; reflexivity. Qed.

Lemma upper_lower_byte (c : ascii) :
  upperByte (strings.lowerByte c) = upperByte c.
Proof. destruct c as [[] [] [] [] [] [] [] []]; reflexivity. Qed.

Lemma mapBytes_mapBytes (f g : ascii -> ascii) (s : string) :
  strings.mapBytes f (strings.mapBytes g s) = strings.mapBytes (fun c => f (g c)) s.
Proof. induction s as [|c s IH]; simpl; [reflexivity | now rewrite IH]. Qed.

Lemma mapBytes_ext (f g : ascii -> ascii) (s : string) :
  (forall c, f c = g c) -> strings.mapBytes f s = strings.mapBytes g s.
Proof. intros E. induction s as [|c s IH]; simpl; [reflexivity | now rewrite E, IH]. Qed.

(** Two texts have the same upper-case form exactly when they have the same
    lower-case form. *)
Lemma upper_eqb_lower (s t : string) :
  (strings.mapBytes upperByte s =? strings.mapBytes upperByte t)
  = (strings.mapBytes strings.lowerByte s =? strings.mapBytes strings.lowerByte t).
Proof.
  destruct (String.eqb_spec (strings.mapBytes strings.lowerByte s)
              (strings.mapBytes strings.lowerByte t)) as [E|E].
  - apply String.eqb_eq.
    rewrite <- (mapBytes_ext _ _ s upper_lower_byte), <- (mapBytes_ext _ _ t upper_lower_byte).
    rewrite <- !(mapBytes_mapBytes upperByte strings.lowerByte). now rewrite E.
  - apply String.eqb_neq. intros E'. apply E.
    rewrite <- (mapBytes_ext _ _ s lower_upper_byte), <- (mapBytes_ext _ _ t lower_upper_byte).
    rewrite <- !(mapBytes_mapBytes strings.lowerByte upperByte). now rewrite E'.
Qed.

Lemma parseLevel_ascii (s : string) :
  strings.isASCII s = true ->
  parseLevel s = levelOfName (strings.mapBytes strings.lowerByte s).
Proof.
  intros Ha. unfold parseLevel, levelOfName, ToUpper. rewrite Ha. cbv zeta.
  change "DEBUG" with (strings.mapBytes upperByte "debug").
  change "INFO" with (strings.mapBytes upperByte "info").
  change "WARNING" with (strings.mapBytes upperByte "warning").
  change "WARN" with (strings.mapBytes upperByte "warn").
  change "ERROR" with (strings.mapBytes upperByte "error").
  rewrite !upper_eqb_lower. reflexivity.
Qed.

Lemma isASCII_app (a b : string) :
  strings.isASCII (a ++ b) = strings.isASCII a && strings.isASCII b.
Proof. induction a as [|c a IH]; simpl; [reflexivity|]. now rewrite IH, andb_assoc. Qed.

Lemma isASCII_TrimSpace (s : string) :
  strings.isASCII s = true -> strings.isASCII (strings.TrimSpace s) = true.
Proof.
  intros Ha. destruct (TrimSpace_part s) as (p & q & Hs). rewrite Hs in Ha.
  rewrite !isASCII_app in Ha. apply andb_true_iff in Ha as [_ Ha].
  now apply andb_true_iff in Ha as [Ha _].
Qed.

(** X21. The level of the logger: when CRAWLER_LOG_LEVEL, trimmed and in any
    mix of upper and lower case, is one of debug, info, warn, warning and
    error, it decides, whatever CRAWLER_DEBUG says; otherwise (the variable
    is unset, empty or another word) the level is debug when CRAWLER_DEBUG is
    1, true, yes or on, and info when it is not. *)
Theorem newLoggerFromEnv_level (getenv : string -> string) :
  strings.isASCII (getenv "CRAWLER_LOG_LEVEL") = true ->
  log_level (newLoggerFromEnv getenv)
  = match levelOfName
            (strings.mapBytes strings.lowerByte
               (strings.TrimSpace (getenv "CRAWLER_LOG_LEVEL"))) with
    | Some l => l
    | None => if isTruthy (getenv "CRAWLER_DEBUG") then LevelDebug else LevelInfo
    end.
Proof.
  intros Ha. unfold newLoggerFromEnv. cbv zeta. cbn [log_level].
  now rewrite (parseLevel_ascii _ (isASCII_TrimSpace _ Ha)).
Qed.

End LoggerFacts.

(** ** The sizes of the configuration *)

Section SizeFacts.
Context `{GoText}.

Lemma numByte_spec (c : ascii) :
  numByte c = true ->
  strings.RuneSelf c = false /\ strings.isUpper c = false /\ isLower c = false.
Proof. unfold numByte. rewrite !andb_true_iff, !negb_true_iff. tauto. Qed.

Lemma mapBytes_app (f : ascii -> ascii) (a b : string) :
  strings.mapBytes f (a ++ b) = strings.mapBytes f a ++ strings.mapBytes f b.
Proof. induction a as [|c a IH]; simpl; [reflexivity | now rewrite IH]. Qed.

Lemma numBytes_ascii_upper (p : string) :
  allBytes numByte p = true ->
  strings.isASCII p = true /\ strings.mapBytes upperByte p = p.
Proof.
  induction p as [|c p IH]; simpl; [auto|]. intros E.
  apply andb_true_iff in E as [Ec E]. destruct (IH E) as [-> ->].
  apply numByte_spec in Ec as (-> & _ & El). unfold upperByte. rewrite El. auto.
Qed.

(** At an ASCII byte [TrimLeftSpace] drops it if it is white space and stops
    if it is not. *)
Lemma TrimLeftSpace_head (a : ascii) (x : string) :
  strings.RuneSelf a = false ->
  strings.TrimLeftSpace (String a x)
  = if strings.asciiSpace a then strings.TrimLeftSpace x else String a x.
Proof.
  intros Hr. cbn [strings.TrimLeftSpace]. destruct (strings.asciiSpace a); [reflexivity|].
  destruct x as [|b [|c x]]; [reflexivity| |].
  - now rewrite (space2_ascii a b Hr).
  - now rewrite (space2_ascii a b Hr), (space3_ascii a b c Hr).
Qed.

Lemma TrimLeftSpace_app (p w : string) :
  allBytes numByte p = true -> leadSpace w = false ->
  strings.TrimLeftSpace (p ++ w) = strings.TrimLeftSpace p ++ w.
Proof.
  intros Hp Hw. induction p as [|a p IH].
  - simpl. now apply TrimLeftSpace_fix.
  - simpl in Hp. apply andb_true_iff in Hp as [Ha Hp].
    apply numByte_spec in Ha as (Hr & _).
    change (String a p ++ w) with (String a (p ++ w)).
    rewrite !TrimLeftSpace_head by exact Hr.
    destruct (strings.asciiSpace a); [now apply IH | reflexivity].
Qed.

(** A text that ends with the letter B ends with no white space. *)
Lemma TrimRightSpace_B (y : string) :
  strings.TrimRightSpace (y ++ "B") = y ++ "B".
Proof.
  unfold strings.TrimRightSpace. rewrite rev_app.
  change (strings.rev "B") with "B". change ("B" ++ strings.rev y) with (String "B" (strings.rev y)).
  rewrite TrimLeftSpaceRev_fix.
  - change (String "B" (strings.rev y)) with (strings.rev "B" ++ strings.rev y).
    now rewrite <- rev_app, rev_rev.
  - unfold leadSpaceRev. destruct (strings.rev y) as [|b [|c r]]; try reflexivity.
    + unfold strings.space2. change (nat_of_ascii "B") with 66%nat.
      now rewrite andb_false_r.
    + unfold strings.space2, strings.space3. change (nat_of_ascii "B") with 66%nat.
      cbv zeta. simpl Nat.eqb. simpl Nat.leb.
      now rewrite !andb_false_r.
Qed.

Lemma TrimLeftSpace_numBytes (p : string) :
  allBytes numByte p = true -> allBytes numByte (strings.TrimLeftSpace p) = true.
Proof.
  induction p as [|a p IH]; [auto|]. intros Hp. pose proof Hp as Hp'. simpl in Hp.
  apply andb_true_iff in Hp as [Ha Hp]. pose proof Ha as Ha'.
  apply numByte_spec in Ha as (Hr & _). rewrite (TrimLeftSpace_head a p Hr).
  destruct (strings.asciiSpace a); [now apply IH | exact Hp'].
Qed.

Lemma TrimLeftSpace_idem (s : string) :
  strings.TrimLeftSpace (strings.TrimLeftSpace s) = strings.TrimLeftSpace s.
Proof.
  apply TrimLeftSpace_fix. apply (TrimLeftSpace_spec (String.length s) s (le_n _)).
Qed.

Lemma append_snoc_inj (a b : string) (x y : ascii) :
  a ++ String x "" = b ++ String y "" -> a = b /\ x = y.
Proof.
  revert b. induction a as [|c a IH]; intros [|d b] E; simpl in E.
  - inversion E; auto.
  - inversion E as [[E1 E2]]. destruct b; discriminate.
  - inversion E as [[E1 E2]]. destruct a; discriminate.
  - inversion E as [[E1 E2]]. destruct (IH b E2) as [-> ->]. auto.
Qed.

(** Which unit a text of non-letters followed by a unit ends with. *)
Lemma HasSuffix_unit (y : string) (c d : ascii) :
  strings.HasSuffix (y ++ String c "B") (String d "B") = (c =? d)%char.
Proof.
  destruct (Ascii.eqb_spec c d) as [->|Hne].
  - apply HasSuffix_iff. now exists y.
  - destruct (strings.HasSuffix _ _) eqn:E; [|reflexivity]. exfalso.
    apply HasSuffix_iff in E as [q Hq].
    change (y ++ String c "B") with (y ++ String c "" ++ "B") in Hq.
    change (q ++ String d "B") with (q ++ String d "" ++ "B") in Hq.
    rewrite <- !append_assoc in Hq.
    apply append_snoc_inj in Hq as [Hq _]. apply append_snoc_inj in Hq as [_ Hq].
    contradiction.
Qed.

Lemma HasSuffix_letter_B (y : string) (d : ascii) :
  allBytes numByte y = true -> numByte d = false ->
  strings.HasSuffix (y ++ "B") (String d "B") = false.
Proof.
  intros Hy Hd. destruct (strings.HasSuffix _ _) eqn:E; [|reflexivity]. exfalso.
  apply HasSuffix_iff in E as [q Hq].
  change (q ++ String d "B") with (q ++ String d "" ++ "B") in Hq.
  rewrite <- append_assoc in Hq. apply append_snoc_inj in Hq as [Hq _].
  subst y. rewrite allBytes_app in Hy. simpl in Hy. rewrite Hd in Hy.
  simpl in Hy. rewrite andb_false_r in Hy. discriminate.
Qed.

Lemma HasSuffix_no_letter (y : string) (d : ascii) (l : string) :
  allBytes numByte y = true -> numByte d = false ->
  strings.HasSuffix y (l ++ String d "") = false.
Proof.
  intros Hy Hd. destruct (strings.HasSuffix _ _) eqn:E; [|reflexivity]. exfalso.
  apply HasSuffix_iff in E as [q Hq]. subst y.
  rewrite !allBytes_app in Hy. simpl in Hy. rewrite Hd in Hy.
  simpl in Hy. rewrite !andb_false_r in Hy. discriminate.
Qed.

Lemma TrimSuffix_app (y suf : string) : strings.TrimSuffix (y ++ suf) suf = y.
Proof.
  unfold strings.TrimSuffix.
  assert (strings.HasSuffix (y ++ suf) suf = true) as -> by (apply HasSuffix_iff; now exists y).
  rewrite length_append.
  replace (String.length y + String.length suf - String.length suf)%nat
    with (String.length y) by lia.
  apply take_append.
Qed.


Lemma TrimSpace_unit (p : string) (c : ascii) :
  allBytes numByte p = true -> strings.asciiSpace c = false ->
  strings.TrimSpace (p ++ String c "B") = strings.TrimLeftSpace p ++ String c "B"
  /\ strings.TrimSpace (p ++ "B") = strings.TrimLeftSpace p ++ "B".
Proof.
  intros Hp Hc. unfold strings.TrimSpace. split.
  - rewrite (TrimLeftSpace_app p (String c "B") Hp).
    + change (strings.TrimLeftSpace p ++ String c "B")
        with (strings.TrimLeftSpace p ++ String c "" ++ "B").
      rewrite <- append_assoc. apply TrimRightSpace_B.
    + unfold leadSpace. rewrite Hc. unfold strings.space2.
      change (nat_of_ascii "B") with 66%nat. simpl Nat.eqb. now rewrite andb_false_r.
  - rewrite (TrimLeftSpace_app p "B" Hp); [apply TrimRightSpace_B | reflexivity].
Qed.

Lemma TrimSpace_TrimLeftSpace (s : string) :
  strings.TrimSpace (strings.TrimLeftSpace s) = strings.TrimSpace s.
Proof. unfold strings.TrimSpace. now rewrite TrimLeftSpace_idem. Qed.

Lemma numBytes_TrimSpace (p : string) :
  allBytes numByte p = true -> allBytes numByte (strings.TrimSpace p) = true.
Proof.
  intros Hp. destruct (TrimSpace_part p) as (a & b & Hs). rewrite Hs in Hp.
  rewrite !allBytes_app in Hp. apply andb_true_iff in Hp as [_ Hp].
  now apply andb_true_iff in Hp as [Hp _].
Qed.

(** X22. [parseByteSize] on a number followed by a unit: the unit is B, KB, MB or
    GB in any mix of upper and lower case, or is missing, blanks may stand
    before the number and between the number and the unit, and the result
    is the number that [fmt.Sscan] reads multiplied by 1, 1024, 1024^2 or
    1024^3, in 64 bits (a product out of range wraps around and is not an
    error); it is an error exactly when the scan fails. *)
Theorem parseByteSize_number_and_unit (p u : string) (f : Z) :
  allBytes numByte p = true -> strings.isASCII u = true ->
  unitFactor (strings.mapBytes upperByte u) = Some f ->
  parseByteSize (p ++ u)
  = match fmt_Sscan (strings.TrimSpace p) with
    | Some n => Some (int64_mul n f)
    | None => None
    end.
Proof.
  intros Hp Hu Hf. destruct (numBytes_ascii_upper p Hp) as [Ap Up].
  unfold parseByteSize, ToUpper. rewrite isASCII_app, Ap, Hu. cbn [andb].
  rewrite mapBytes_app, Up.
  remember (strings.mapBytes upperByte u) as U eqn:EU. clear EU.
  pose proof (TrimLeftSpace_numBytes p Hp) as Hy.
  set (y := strings.TrimLeftSpace p) in *.
  assert (numByte "K" = false /\ numByte "M" = false /\ numByte "G" = false
          /\ numByte "B" = false) as (NK & NM & NG & NB) by (repeat split; reflexivity).
  unfold unitFactor in Hf.
  destruct (String.eqb_spec U "") as [E0|_].
  { subst U. inversion Hf; subst f. rewrite append_nil_r.
    pose proof (numBytes_TrimSpace p Hp) as Ht.
    assert (strings.HasSuffix (strings.TrimSpace p) "KB" = false) as ->
      by apply (HasSuffix_no_letter _ "B" "K" Ht NB).
    assert (strings.HasSuffix (strings.TrimSpace p) "MB" = false) as ->
      by apply (HasSuffix_no_letter _ "B" "M" Ht NB).
    assert (strings.HasSuffix (strings.TrimSpace p) "GB" = false) as ->
      by apply (HasSuffix_no_letter _ "B" "G" Ht NB).
    assert (strings.HasSuffix (strings.TrimSpace p) "B" = false) as ->
      by apply (HasSuffix_no_letter _ "B" "" Ht NB).
    now rewrite TrimSpace_idem. }
  destruct (String.eqb_spec U "B") as [E0|_].
  { subst U. inversion Hf; subst f.
    rewrite (proj2 (TrimSpace_unit p "K" Hp eq_refl)). fold y.
    rewrite (HasSuffix_letter_B y "K" Hy NK), (HasSuffix_letter_B y "M" Hy NM),
      (HasSuffix_letter_B y "G" Hy NG).
    assert (strings.HasSuffix (y ++ "B") "B" = true) as ->
      by (apply HasSuffix_iff; now exists y).
    rewrite TrimSuffix_app. unfold y. now rewrite TrimSpace_TrimLeftSpace. }
  destruct (String.eqb_spec U "KB") as [E0|_].
  { subst U. inversion Hf; subst f.
    rewrite (proj1 (TrimSpace_unit p "K" Hp eq_refl)). fold y.
    rewrite (HasSuffix_unit y "K" "K"). change ("K" =? "K")%char with true. cbv iota.
    rewrite TrimSuffix_app. unfold y. now rewrite TrimSpace_TrimLeftSpace. }
  destruct (String.eqb_spec U "MB") as [E0|_].
  { subst U. inversion Hf; subst f.
    rewrite (proj1 (TrimSpace_unit p "M" Hp eq_refl)). fold y.
    rewrite (HasSuffix_unit y "M" "K"), (HasSuffix_unit y "M" "M").
    change ("M" =? "K")%char with false. change ("M" =? "M")%char with true. cbv iota.
    rewrite TrimSuffix_app. unfold y. now rewrite TrimSpace_TrimLeftSpace. }
  destruct (String.eqb_spec U "GB") as [E0|_]; [|discriminate].
  subst U. inversion Hf; subst f.
  rewrite (proj1 (TrimSpace_unit p "G" Hp eq_refl)). fold y.
  rewrite (HasSuffix_unit y "G" "K"), (HasSuffix_unit y "G" "M"), (HasSuffix_unit y "G" "G").
  change ("G" =? "K")%char with false. change ("G" =? "M")%char with false.
  change ("G" =? "G")%char with true. cbv iota.
  rewrite TrimSuffix_app. unfold y. now rewrite TrimSpace_TrimLeftSpace.
Qed.

End SizeFacts.

(** ** What becomes of a claimed item *)

Section ItemFacts.
Context `{GoLib}.
Local Open Scope Z_scope.

Lemma upsertPage_queue (c : conn) (db : DB) (siteID : Z)
    (rawURL title description lang : string) (httpStatus : Z)
    (contentType html text : string) :
  crawl_queue (snd (upsertPage c db siteID rawURL title description lang httpStatus
                      contentType html text)) = crawl_queue db.
Proof.
  unfold upsertPage. cbv zeta.
  repeat match goal with
         | |- context [if ?b then _ else _] => destruct b
         | |- context [match List.find ?f ?l with _ => _ end] => destruct (List.find f l)
         end; reflexivity.
Qed.

Lemma extractAndEnqueueLinks_queue (lc ec : nat -> conn) (db : DB) (siteID : Z)
    (siteDomain : string) (fromPageID : Z) (baseURL html : string) :
  exists added,
    crawl_queue (snd (extractAndEnqueueLinks lc ec db siteID siteDomain fromPageID
                        baseURL html)) = (crawl_queue db ++ added)%list.
Proof.
  unfold extractAndEnqueueLinks. destruct (url_Parse baseURL) as [base|].
  - simpl snd.
    destruct (linkLoop_queue lc ec siteID siteDomain fromPageID base
                (regexp.FindAllStringSubmatch reHref html) O
                {| ls_db := db; ls_seen := []; ls_enqueued := 0 |}) as [added [Hq _]].
    now exists added.
  - exists []. simpl. now rewrite app_nil_r.
Qed.

Lemma update_by_id_ids (id : Z) (f : queue_row -> queue_row) (rows : list queue_row) :
  (forall r, q_id (f r) = q_id r) ->
  map q_id (update_by_id id f rows) = map q_id rows.
Proof.
  intros Hf. unfold update_by_id. rewrite map_map. apply map_ext.
  intros r. destruct (q_id r =? id)%Z; [apply Hf | reflexivity].
Qed.

(** What [processItem] does to the queue: it adds rows (the links) and then
    marks the item, once, as done or as error. *)
Lemma processItem_queue (w : world) (cfg : Config) (it : queueItem) (st st' : state) :
  schema_ok (st_db st) ->
  processItem w cfg it st = Returns st' ->
  exists dbk added,
    schema_ok dbk
    /\ crawl_queue dbk = (crawl_queue (st_db st) ++ added)%list
    /\ (st_db st' = markQueueDone (w_mark w) dbk (ID it)
        \/ exists msg retry, st_db st' = markQueueError (w_mark w) dbk (ID it) msg retry).
Proof.
  intros Hok. unfold processItem.
  destruct (getHostLimiter _ _ _ _) as [lim limiters].
  destruct (Next (st_pool st)) as [[proxyURL pool]|]; [|discriminate].
  cbv zeta.
  destruct (fetchHTML _ _ _ _ _) as [[[status ctype] html] [e|]].
  - intros E. inversion E; subst st'. simpl. exists (st_db st), [].
    rewrite app_nil_r. split; [exact Hok|]. split; [reflexivity|]. right. eauto.
  - destruct (isAllowedContentType ctype _); simpl negb; cbv iota.
    2:{ intros E. inversion E; subst st'. simpl. exists (st_db st), [].
        rewrite app_nil_r. split; [exact Hok|]. split; [reflexivity|]. right. eauto. }
    pose proof (upsertPage_schema (w_upsert w) (st_db st) (SiteID it) (URL_ it)
                  (extractTitle html) (extractMetaDescription html) "" status ctype html
                  (extractVisibleText html) Hok) as Hup.
    pose proof (upsertPage_queue (w_upsert w) (st_db st) (SiteID it) (URL_ it)
                  (extractTitle html) (extractMetaDescription html) "" status ctype html
                  (extractVisibleText html)) as Hq.
    destruct (upsertPage _ _ _ _ _ _ _ _ _ _ _) as [[pageID [e|]] db1]; simpl snd in *.
    + intros E. inversion E; subst st'. simpl. exists db1, [].
      rewrite app_nil_r. split; [exact Hup|]. split; [exact Hq|]. right. eauto.
    + intros E. inversion E; subst st'. simpl.
      destruct (getSiteDomain _ _ _) as [siteDomain [e|]].
      * exists db1, []. rewrite app_nil_r. split; [exact Hup|]. split; [exact Hq|]. now left.
      * destruct (extractAndEnqueueLinks_queue (w_link w) (w_enqueue w) db1 (SiteID it)
                    siteDomain pageID (URL_ it) html) as [added Ha].
        exists (snd (extractAndEnqueueLinks (w_link w) (w_enqueue w) db1 (SiteID it)
                       siteDomain pageID (URL_ it) html)), added.
        split; [apply extractAndEnqueueLinks_schema; exact Hup|].
        split; [now rewrite Ha, Hq | now left].
Qed.

(** X24. An item that [pickAndProcessOne] has claimed is not queued afterwards:
    its row is still in the queue, and every row with its identifier is done
    or error when the final status update went through, and is left
    processing when that update failed (its error is dropped). *)
Theorem claimed_item_ends_done_error_or_stuck (w : world) (cfg : Config) (st st' : state)
    (e : option pgerr) :
  schema_ok (st_db st) ->
  pickAndProcessOne w cfg st = Returns ((true, e), st') ->
  exists r0,
    selectNext (tx_now (w_tx w)) (tx_locked (w_tx w)) (crawl_queue (st_db st)) = Some r0
    /\ (exists r, In r (crawl_queue (st_db st')) /\ q_id r = q_id r0)
    /\ forall r, In r (crawl_queue (st_db st')) -> q_id r = q_id r0 ->
         if fails (w_mark w) then q_status r = StProcessing
         else q_status r = StDone \/ q_status r = StError.
Proof.
  intros Hok. unfold pickAndProcessOne.
  pose proof (claimTx_schema (w_tx w) (st_db st) Hok) as Hok1.
  destruct (claimTx (w_tx w) (st_db st)) as [[[it|] e1] db1] eqn:Hc; simpl snd in Hok1.
  2:{ destruct e1 as [e1|]; [destruct (strings.Contains _ _)|]; discriminate. }
  destruct (processItem w cfg it (set_db st db1)) as [st1|] eqn:Hp; [|discriminate].
  intros E. inversion E; subst e st1; clear E.
  apply claimTx_select_commit in Hc as (r0 & Hsel & -> & Hupd).
  exists r0. split; [exact Hsel|].
  unfold updToProcessing in Hupd. destruct (forallb _ _); [|discriminate].
  inversion Hupd as [Hrows]; clear Hupd.
  apply selectNext_some in Hsel as (Hin & _).
  destruct (processItem_queue w cfg (item_of r0) (set_db st db1) st' Hok1 Hp)
    as (dbk & added & Hokk & Hq & Hfin). simpl st_db in Hq. simpl ID in Hfin.
  assert (forall r, In r (crawl_queue dbk) -> q_id r = q_id r0 -> q_status r = StProcessing)
    as Hproc.
  { intros r Hr Ei. rewrite Hq in Hr. apply in_app_iff in Hr as [Hr|Hr].
    - rewrite <- Hrows in Hr.
      apply (update_by_id_status (q_id r0) (set_processing (tx_now (w_tx w)))
               (crawl_queue (st_db st)) StProcessing
               (fun _ => eq_refl) (fun _ => eq_refl) r Hr Ei).
    - exfalso. destruct (ok_queue_key dbk Hokk) as [Hnd _]. rewrite Hq, map_app in Hnd.
      assert (In (q_id r0) (map q_id (crawl_queue db1))) as H1.
      { rewrite <- Hrows, update_by_id_ids by reflexivity. now apply in_map. }
      assert (In (q_id r0) (map q_id added)) as H2 by (rewrite <- Ei; now apply in_map).
      clear - Hnd H1 H2. induction (map q_id (crawl_queue db1)) as [|x l IH]; [destruct H1|].
      simpl in Hnd. inversion Hnd as [|? ? Hni Hnd']; subst. destruct H1 as [->|H1].
      + apply Hni, in_app_iff. now right.
      + now apply IH. }
  assert (In (q_id r0) (map q_id (crawl_queue dbk))) as Hex.
  { rewrite Hq, map_app, <- Hrows, update_by_id_ids by reflexivity.
    apply in_app_iff. left. now apply in_map. }
  assert (forall f, (forall x, q_id (f x) = q_id x) ->
            exists r, In r (update_by_id (q_id r0) f (crawl_queue dbk)) /\ q_id r = q_id r0)
    as Hex'.
  { intros f Hf. rewrite <- (update_by_id_ids (q_id r0) f _ Hf) in Hex.
    apply in_map_iff in Hex as (r & Er & Hr). eauto. }
  unfold markQueueDone, markQueueError in Hfin.
  destruct (fails (w_mark w)).
  - assert (st_db st' = dbk) as -> by (destruct Hfin as [E|(m & t & E)]; exact E).
    split; [|exact Hproc].
    apply in_map_iff in Hex as (r & Er & Hr). eauto.
  - destruct Hfin as [E|(m & t & E)]; rewrite E; simpl crawl_queue.
    + split; [now apply Hex'|]. intros r Hr Ei. left.
      apply (update_by_id_status (q_id r0) (set_done (now (w_mark w))) (crawl_queue dbk)
               StDone (fun _ => eq_refl) (fun _ => eq_refl) r Hr Ei).
    + split; [now apply Hex'|]. intros r Hr Ei. right.
      apply (update_by_id_status (q_id r0)
               (set_error m (now (w_mark w) + interval_of t) (now (w_mark w)))
               (crawl_queue dbk) StError (fun _ => eq_refl) (fun _ => eq_refl) r Hr Ei).
Qed.

End ItemFacts.

(** ** The examples satisfy the hypotheses of the theorems *)

Section ExampleFacts.
Local Open Scope Z_scope.

Lemma example_empty_db_schema : schema_ok example_empty_db.
Proof.
  constructor; simpl; try (split; [constructor | intros r []]); constructor.
Qed.

Lemma scenario_db_schema : schema_ok scenario_db.
Proof.
  constructor.
  - split; [repeat constructor; intros [] | intros r [<-|[]]; simpl; lia].
  - repeat constructor. intros [].
  - repeat constructor.
  - split; [repeat constructor; intros [] | intros r [<-|[]]; simpl; lia].
  - unfold unique_active. repeat constructor. intros [].
  - repeat constructor.
  - split; [constructor | intros r []].
  - constructor.
  - constructor.
  - split; [constructor | intros r []].
  - constructor.
  - constructor.
Qed.

(** The scenario keeps the constraints through one call of the worker. *)
Lemma pickAndProcessOne_keeps_schema_witness :
  schema_ok scenario_db /\ schema_ok (st_db scenario_after).
Proof.
  split; [exact scenario_db_schema|].
  apply (pickAndProcessOne_keeps_schema (H := exampleLib) (example_world scenario_net)
           example_cfg (example_state scenario_db) scenario_after (true, None)).
  - exact scenario_db_schema.
  - vm_compute. reflexivity.
Defined.

(** The first request to a new database leaves a database that satisfies
    the constraints. *)
Lemma handleEnqueue_keeps_schema_witness :
  schema_ok example_empty_db /\ schema_ok (snd example_enqueue).
Proof.
  split; [exact example_empty_db_schema|].
  apply (handleEnqueue_keeps_schema (H := exampleLib)). exact example_empty_db_schema.
Defined.

(** With the item 2 done, the next claim takes the item 3. *)
Lemma marked_rows_are_not_claimed_witness :
  fst (claimTx (example_tx 8000) example_done_db)
  = (Some {| ID := 3; SiteID := 1; URL_ := "https://example.com/c" |}, None)
  /\ ID {| ID := 3; SiteID := 1; URL_ := "https://example.com/c" |} <> 2.
Proof.
  split; [vm_compute; reflexivity|].
  apply (marked_rows_are_not_claimed (example_conn 7000) example_claimed_db
           (snd (claimTx (example_tx 8000) example_done_db)) 2 "" 0 (example_tx 8000)
           {| ID := 3; SiteID := 1; URL_ := "https://example.com/c" |} None).
  - reflexivity.
  - right. vm_compute. reflexivity.
Defined.

(** A worker that finds the queue of the site empty. *)
Lemma pickAndProcessOne_false_changes_nothing_witness :
  pickAndProcessOne (H := exampleLib) (example_world net_timeout) example_cfg
    (example_state example_site_db)
  = Returns ((false, None), example_state example_site_db)
  /\ selectNext 5000 [] (crawl_queue example_site_db) = None.
Proof.
  split; [vm_compute; reflexivity|].
  apply (proj1 (proj2 (proj1 (pickAndProcessOne_false_changes_nothing (H := exampleLib)
                                (example_world net_timeout) example_cfg
                                (example_state example_site_db)
                                (example_state example_site_db) false None
                                ltac:(vm_compute; reflexivity))
                         eq_refl))
           eq_refl).
Defined.

(** The site example.com, made in a new database, read back and ensured
    again. *)
Lemma ensureSite_getSiteDomain_round_trip_witness :
  getSiteDomain (example_conn 1001) (snd example_ensured) 1 = ("example.com"%string, None)
  /\ fst (ensureSite (example_conn 1002) (snd example_ensured) "example.com" example_cfg)
     = (1, None).
Proof.
  pose proof (ensureSite_getSiteDomain_round_trip (example_conn 1000) (example_conn 1001)
                (example_conn 1002) example_empty_db (snd example_ensured) "example.com"
                example_cfg example_cfg 1) as Hw.
  destruct Hw as (H1 & H2 & _).
  - split; [constructor | intros r []].
  - vm_compute. reflexivity.
  - reflexivity.
  - reflexivity.
  - reflexivity.
  - reflexivity.
  - reflexivity.
  - split; [exact H1 | exact H2].
Defined.

(** The same link of the stored page 7, inserted twice. *)
Lemma insertPageLink_twice_witness :
  fst (insertPageLink (example_conn 1)
         (snd (insertPageLink (example_conn 0) example_pages_db 7 "https://example.com/a"
                 "h"))
         7 "https://example.com/a#top" "h") = None.
Proof.
  apply (proj2 (insertPageLink_twice (example_conn 0) (example_conn 1) example_pages_db 7
                  "https://example.com/a" "https://example.com/a#top" "h"
                  eq_refl eq_refl)).
  left. reflexivity.
Defined.

(** A GET request. *)
Lemma handleEnqueue_errors_add_nothing_witness :
  handleEnqueue (H := exampleLib) (example_conn 1000) (example_conn 1001) example_cfg
    "GET" (Some example_request) example_empty_db
  = (HttpError 405 "method not allowed", example_empty_db)
  /\ (405 = 405 <-> "GET"%string <> "POST"%string).
Proof.
  split; [vm_compute; reflexivity|].
  apply (handleEnqueue_errors_add_nothing (H := exampleLib) (example_conn 1000)
           (example_conn 1001) example_cfg "GET" (Some example_request) example_empty_db
           example_empty_db 405 "method not allowed").
  vm_compute. reflexivity.
Defined.

(** The first request for https://example.com/ is accepted and its row is
    active. *)
Lemma handleEnqueue_accepted_witness :
  (exists v, fst example_enqueue = HttpJSON 200 v)
  /\ has_active (crawl_queue (snd example_enqueue)) 1
       (sha256Hex (H := exampleLib) "https://example.com/") = true.
Proof.
  split; [eexists; vm_compute; reflexivity|].
  destruct (handleEnqueue_accepted (H := exampleLib) (example_conn 1000) (example_conn 1001)
              example_cfg "POST" (Some example_request) example_empty_db
              (snd example_enqueue) 200
              {| Enqueued := true; resp_SiteID := 1; resp_URL := "https://example.com/";
                 resp_URLHash := sha256Hex (H := exampleLib) "https://example.com/";
                 Message := "" |})
    as (_ & _ & req & parsed & _ & _ & _ & _ & _ & _ & _ & _ & _ & Ha & _).
  - split; [constructor | intros r []].
  - vm_compute. reflexivity.
  - exact Ha.
Defined.

(** The root of the site, fetched from the network of the scenario. *)
Lemma processItem_stores_page_and_marks_done_witness :
  exists st' p,
    processItem (H := exampleLib) (example_world scenario_net) example_cfg
      {| ID := 1; SiteID := 1; URL_ := "https://example.com/" |}
      (example_state scenario_db) = Returns st'
    /\ List.find (page_key 1 (sha256Hex (H := exampleLib) "https://example.com/"))
         (pages (st_db st')) = Some p
    /\ p_html p = Some "<title>Hi</title><a href='/about'>About</a>"%string.
Proof.
  destruct (processItem_stores_page_and_marks_done (H := exampleLib)
              (example_world scenario_net) example_cfg
              {| ID := 1; SiteID := 1; URL_ := "https://example.com/" |}
              (example_state scenario_db) None example_pool 200
              "text/html; charset=utf-8" "<title>Hi</title><a href='/about'>About</a>"
              false)
    as (st' & p & H1 & H2 & H3 & _).
  - reflexivity.
  - reflexivity.
  - lia.
  - left. reflexivity.
  - vm_compute. reflexivity.
  - vm_compute. reflexivity.
  - reflexivity.
  - reflexivity.
  - reflexivity.
  - exists st', p. split; [exact H1|]. split; [exact H2 | exact H3].
Defined.

(** The second proxy of the pool is a SOCKS5 proxy: the client is built
    without it. *)
Lemma Next_proxy_is_used_or_bypassed_witness :
  Next example_proxies
  = Returns (Some (example_url "socks5" "proxy-b:1080" ""),
             {| rotation := "round_robin"; proxies := proxies example_proxies;
                counter := 2 |})
  /\ Transport_Proxy (buildHTTPClient (Some (example_url "socks5" "proxy-b:1080" ""))
                        (10 * Second)) = ProxyDirect.
Proof.
  split; [vm_compute; reflexivity|].
  destruct (Next_proxy_is_used_or_bypassed example_proxies
              {| rotation := "round_robin"; proxies := proxies example_proxies;
                 counter := 2 |}
              (Some (example_url "socks5" "proxy-b:1080" "")) (10 * Second))
    as (_ & _ & _ & _ & _ & Ht).
  - vm_compute. reflexivity.
  - exact Ht.
Defined.

(** The level WARN, written in capitals between spaces. *)
Lemma newLoggerFromEnv_level_witness :
  log_level (@newLoggerFromEnv exampleLib exampleText example_getenv)
  = LevelWarn.
Proof.
  rewrite (@newLoggerFromEnv_level exampleLib exampleText example_getenv).
  - reflexivity.
  - reflexivity.
Defined.

(** Two megabytes, written as 2 mb. *)
Lemma parseByteSize_number_and_unit_witness :
  @parseByteSize exampleText "2 mb" = Some 2097152.
Proof.
  apply (@parseByteSize_number_and_unit exampleText "2 " "mb" 1048576).
  - reflexivity.
  - reflexivity.
  - reflexivity.
Defined.

(** The root of the scenario ends done. *)
Lemma claimed_item_ends_done_error_or_stuck_witness :
  exists r, In r (crawl_queue (st_db scenario_after)) /\ q_id r = 1
            /\ q_status r = StDone.
Proof.
  destruct (claimed_item_ends_done_error_or_stuck (H := exampleLib)
              (example_world scenario_net) example_cfg (example_state scenario_db)
              scenario_after None scenario_db_schema)
    as (r0 & Hsel & (r & Hr & Ei) & Hall).
  - vm_compute. reflexivity.
  - injection Hsel as <-. exists r. split; [exact Hr|]. split; [exact Ei|].
    destruct (Hall r Hr Ei) as [Hd|He]; [exact Hd|].
    exfalso. revert Hr Ei He. vm_compute. intros [<-|[<-|[]]]; discriminate.
Defined.

End ExampleFacts.

(** ** The scope of the links *)

Section DomainScope.
Context `{GoLib}.
Local Open Scope Z_scope.

Lemma allBytes_take (P : ascii -> bool) (n : nat) (s : string) :
  allBytes P s = true -> allBytes P (strings.take n s) = true.
Proof.
  intros Hs. rewrite <- (take_drop n s), allBytes_app in Hs.
  now apply andb_true_iff in Hs as [Ht _].
Qed.

Lemma allBytes_drop (P : ascii -> bool) (n : nat) (s : string) :
  allBytes P s = true -> allBytes P (strings.drop n s) = true.
Proof.
  intros Hs. rewrite <- (take_drop n s), allBytes_app in Hs.
  now apply andb_true_iff in Hs as [_ Hd].
Qed.

(** [normalizeHost] keeps a plain host plain. *)
Lemma normalizeHost_keeps_plain (h : string) :
  allBytes plainHostByte h = true -> allBytes plainHostByte (normalizeHost h) = true.
Proof.
  intros Hh. unfold normalizeHost. cbv zeta.
  rewrite (TrimSpace_plain h Hh), (ToLower_plain h Hh), (Contains_colon_plain h Hh).
  unfold strings.TrimPrefix, strings.TrimSuffix.
  destruct (strings.HasSuffix h "."); destruct (strings.HasPrefix _ "www.");
    repeat first [apply allBytes_drop | apply allBytes_take]; exact Hh.
Qed.

Lemma has_active_app (rows more : list queue_row) (siteID : Z) (urlHash : string) :
  has_active rows siteID urlHash = true ->
  has_active (rows ++ more) siteID urlHash = true.
Proof.
  unfold has_active. intros Ha. rewrite existsb_app, Ha. reflexivity.
Qed.

Lemma linkStep_seen_active (lc ec : conn) (siteID : Z) (siteDomain : string)
    (fromPageID : Z) (base : URL) (st : linkState) (m : list string) :
  fails ec = false -> seen_active siteID st ->
  seen_active siteID (linkStep lc ec siteID siteDomain fromPageID base st m).
Proof.
  intros Hec [Hsite Hact]. unfold linkStep.
  destruct (resolveHref base m) as [abs|]; [|now split].
  destruct (isInDomain (Host abs) siteDomain); cbn [negb]; [|now split].
  destruct (inSeen (ls_seen st) (url_String abs)); [now split|]. cbv zeta.
  destruct (insertPageLink_frame lc (ls_db st) fromPageID (url_String abs)
              (sha256Hex (url_String abs))) as (Fs & _ & Fq & _).
  set (db1 := snd (insertPageLink lc (ls_db st) fromPageID (url_String abs)
                     (sha256Hex (url_String abs)))) in *.
  assert (site_exists db1 siteID = true) as Hsite1
    by (unfold site_exists in *; now rewrite Fs).
  unfold enqueueIfNotExists.
  destruct (has_active (crawl_queue db1) siteID (sha256Hex (url_String abs))) eqn:Ea.
  - (* the URL is active already: nothing is inserted *)
    assert (insertIfNotExists (crawl_queue db1) ec db1 siteID (url_String abs)
              (sha256Hex (url_String abs)) 0 = ((false, None), db1)) as ->.
    { unfold insertIfNotExists. rewrite Hec, Ea. reflexivity. }
    split; [exact Hsite1|]. cbn [ls_db ls_seen]. intros s Hs.
    apply in_app_iff in Hs as [Hs|[<-|[]]]; [|exact Ea].
    rewrite Fq. now apply Hact.
  - rewrite (insertIfNotExists_inserts (crawl_queue db1) ec db1 siteID (url_String abs)
               (sha256Hex (url_String abs)) 0 Hec eq_refl Hsite1 Ea Ea).
    split; [exact Hsite1|]. cbn [ls_db ls_seen]. simpl crawl_queue. intros s Hs.
    apply in_app_iff in Hs as [Hs|[<-|[]]].
    + apply has_active_app. rewrite Fq. now apply Hact.
    + apply has_active_snoc.
Qed.

Lemma linkLoop_seen_active (lc ec : nat -> conn) (siteID : Z) (siteDomain : string)
    (fromPageID : Z) (base : URL) (matches : list (list string)) :
  (forall i, fails (ec i) = false) ->
  forall (i : nat) (st : linkState),
    seen_active siteID st ->
    seen_active siteID (linkLoop lc ec siteID siteDomain fromPageID base i matches st).
Proof.
  intros Hec. induction matches as [|m rest IH]; intros i st Hst; simpl; [exact Hst|].
  apply IH. now apply linkStep_seen_active.
Qed.

(** C5, as amended.  [isInDomain] accepts a host exactly when the host,
    lower-cased and trimmed of white space, equals the site's domain,
    lower-cased and trimmed, or ends with a dot followed by it; for a host
    and a domain of plain bytes (and [normalizeHost] keeps a plain host
    plain) this is the literal test.  For the site example.com the hosts
    sub.example.com and example.com are accepted, evil.com and
    notexample.com are rejected.  [extractAndEnqueueLinks] accepts exactly
    the links that pass this test: the URLs it counts are, without
    repetition, the texts of the links that resolve to http or https and
    whose normalised host passes the test; every row it adds to the queue is
    one of them, for the same site, queued with priority 0; and when the
    enqueue statements go through and the site exists, every one of them is
    active in the queue of the site afterwards. *)
Theorem links_stay_in_domain :
  (forall host siteDomain,
     isInDomain host siteDomain = true <->
     let h := strings.ToLower (strings.TrimSpace host) in
     let d := strings.ToLower (strings.TrimSpace siteDomain) in
     h = d \/ exists p, h = p ++ "." ++ d)
  /\ (forall host siteDomain,
        allBytes plainHostByte host = true ->
        allBytes plainHostByte siteDomain = true ->
        allBytes plainHostByte (normalizeHost host) = true
        /\ (isInDomain (normalizeHost host) siteDomain = true <->
            normalizeHost host = siteDomain
            \/ exists p, normalizeHost host = p ++ "." ++ siteDomain))
  /\ (isInDomain "sub.example.com" "example.com" = true
      /\ isInDomain "example.com" "example.com" = true
      /\ isInDomain "evil.com" "example.com" = false
      /\ isInDomain "notexample.com" "example.com" = false)
  /\ (forall lc ec db siteID siteDomain fromPageID baseURL html base,
        url_Parse baseURL = Some base ->
        let r := extractAndEnqueueLinks lc ec db siteID siteDomain fromPageID baseURL html in
        exists seen added,
          snd (fst (fst r)) = Z.of_nat (List.length seen)
          /\ NoDup seen
          /\ (forall s,
                In s seen <->
                exists m abs,
                  In m (regexp.FindAllStringSubmatch reHref html)
                  /\ resolveHref base m = Some abs
                  /\ (let h := strings.ToLower (strings.TrimSpace (Host abs)) in
                      let d := strings.ToLower (strings.TrimSpace siteDomain) in
                      h = d \/ exists p, h = p ++ "." ++ d)
                  /\ url_String abs = s)
          /\ crawl_queue (snd r) = (crawl_queue db ++ added)%list
          /\ (forall x, In x added ->
                In (q_url x) seen /\ q_url_hash x = sha256Hex (q_url x)
                /\ q_site_id x = siteID /\ q_priority x = 0 /\ q_status x = StQueued)
          /\ ((forall i, fails (ec i) = false) -> site_exists db siteID = true ->
              forall s, In s seen ->
                has_active (crawl_queue (snd r)) siteID (sha256Hex s) = true)).
Proof.
  split; [exact isInDomain_iff|].
  split.
  { intros host d Hh Hd. pose proof (normalizeHost_keeps_plain host Hh) as Hn.
    split; [exact Hn|]. rewrite isInDomain_iff. cbv zeta.
    rewrite (TrimSpace_plain _ Hn), (ToLower_plain _ Hn), (TrimSpace_plain _ Hd),
      (ToLower_plain _ Hd). reflexivity. }
  split; [repeat split; reflexivity|].
  intros lc ec db siteID siteDomain fromPageID baseURL html base Hbase. cbv zeta.
  unfold extractAndEnqueueLinks. rewrite Hbase. cbn [fst snd].
  set (matches := regexp.FindAllStringSubmatch reHref html).
  set (st0 := {| ls_db := db; ls_seen := []; ls_enqueued := 0 |}).
  destruct (linkLoop_counts lc ec siteID siteDomain fromPageID base matches O st0
              (NoDup_nil _))
    as (added & fresh & Hq & Hseen & Hnd & _ & _ & _ & _ & Hadd).
  destruct (linkLoop_queue lc ec siteID siteDomain fromPageID base matches O st0)
    as (added' & Hq' & Hrows).
  assert (added' = added) as -> by (rewrite Hq in Hq'; now apply app_inv_head in Hq').
  set (st := linkLoop lc ec siteID siteDomain fromPageID base O matches st0) in *.
  exists (ls_seen st), added.
  split; [reflexivity|]. split; [exact Hnd|]. split.
  { intros s. unfold st. rewrite linkLoop_seen. unfold accepted. split.
    - intros [[]|(m & abs & Hin & [Hr Hd] & Hu)].
      exists m, abs. apply isInDomain_iff in Hd. auto.
    - intros (m & abs & Hin & Hr & Hd & Hu). right.
      exists m, abs. apply isInDomain_iff in Hd. auto. }
  split; [exact Hq|]. split.
  { intros x Hx. destruct (Hadd x Hx) as (Hf & Hh & _).
    destruct (Hrows x Hx) as (Hs & Hp & Hst & _).
    rewrite Hseen. simpl. auto. }
  intros Hec Hsite s Hs.
  assert (seen_active siteID st0) as H0 by (split; [exact Hsite | intros ? []]).
  exact (proj2 (linkLoop_seen_active lc ec siteID siteDomain fromPageID base matches
                  Hec O st0 H0) s Hs).
Qed.

End DomainScope.

Section DomainExamples.
Local Open Scope Z_scope.

(** The links of a page of example.com: the subdomain and the path of the
    site are enqueued, the two other domains are not. *)
Example links_of_the_site :
  fst (example_links example_links_html) = (2, 2, None)
  /\ map q_url (crawl_queue (snd (example_links example_links_html)))
     = ["https://sub.example.com/x"; "https://example.com/about"].
Proof. split; vm_compute; reflexivity. Qed.

(** The link to the subdomain is active in the queue afterwards. *)
Lemma links_stay_in_domain_witness :
  has_active (crawl_queue (snd (example_links example_links_html))) 1
    (sha256Hex (H := exampleLib) "https://sub.example.com/x") = true.
Proof.
  destruct (proj2 (proj2 (proj2 (links_stay_in_domain (H := exampleLib))))
              (fun _ => example_conn 6002) (fun _ => example_conn 6003) example_pages_db 1
              "example.com" 7 "https://example.com/" example_links_html
              (example_url "https" "example.com" "/") eq_refl)
    as (seen & added & _ & _ & Hseen & _ & _ & Hact).
  apply Hact; [reflexivity | reflexivity|].
  apply Hseen.
  exists ["<a href='https://sub.example.com/x'"; "https://sub.example.com/x"],
    (example_url "https" "sub.example.com" "/x").
  split; [vm_compute; left; reflexivity|].
  split; [vm_compute; reflexivity|].
  split; [right; exists "sub"; vm_compute; reflexivity | reflexivity].
Defined.

(** C5, the counterexample: the host example.com followed by a no-break
    space and a dot is normalised to example.com followed by the no-break
    space; [isInDomain] trims it once more and accepts it for the site
    example.com, and the link is enqueued, although the normalised host
    neither equals example.com nor ends with .example.com. *)
Lemma link_host_with_space_is_accepted :
  let host := normalizeHost (H := exampleLib) ("example.com" ++ nbsp ++ ".") in
  host = "example.com" ++ nbsp
  /\ isInDomain (H := exampleLib) host "example.com" = true
  /\ ~ (host = "example.com" \/ exists p, host = p ++ "." ++ "example.com")
  /\ map q_url (crawl_queue (snd (example_links example_nbsp_html)))
     = ["http://example.com" ++ nbsp ++ "/x"].
Proof.
  cbv zeta.
  assert (normalizeHost (H := exampleLib) ("example.com" ++ nbsp ++ ".")
          = "example.com" ++ nbsp) as -> by (vm_compute; reflexivity).
  split; [reflexivity|]. split; [vm_compute; reflexivity|]. split.
  - intros [E|E]; [discriminate E|].
    apply (HasSuffix_iff ("example.com" ++ nbsp) ".example.com") in E.
    vm_compute in E. discriminate E.
  - vm_compute. reflexivity.
Qed.

End DomainExamples.
